(** * paramount: provisioning, concurrent mount and verification of NFS pairs

    A shallow embedding of [paramount.cpp] and [tempdir.hpp].  Text is kept
    as [string], the C++ [int]s as [Z], the [std::unordered_map] from server
    directory to client directory as a [gmap string string], and the
    directories that exist on disk as a [gset string].  The program talks to
    the outside (subprocesses, the file system, the live mount table)
    through an explicit [World] record that fixes what those collaborators
    answer; every effect the program has on them is appended to a trace. *)

From Stdlib Require Import ZArith NArith String Ascii List Lia.
From Stdlib Require Import DecimalString HexadecimalString DecimalN HexadecimalN.
From stdpp Require Import base gmap strings list.

Local Open Scope string_scope.
Local Open Scope Z_scope.

(** ** Text helpers *)

Module Text.

Definition dquote : ascii := "034"%char.
Definition backslash : ascii := "092"%char.
Definition tab : ascii := "009"%char.
Definition newline : ascii := "010"%char.
Definition slash : ascii := "/"%char.
Definition space : ascii := " "%char.

Definition nl : string := String newline "".

(** [k] copies of the fill character ['0']. *)
Fixpoint zeros (k : nat) : string :=
  match k with
  | O => ""
  | S k' => String "0"%char (zeros k')
  end.

(** Right-align [s] in a field of [width] characters, filling with zeros;
    a longer [s] is left as it is (a minimum width, never a truncation). *)
Definition zero_pad (width : nat) (s : string) : string :=
  zeros (width - String.length s) +:+ s.

Definition dec_digits (n : N) : string :=
  DecimalString.NilEmpty.string_of_uint (N.to_uint n).

Definition hex_digits (n : N) : string :=
  HexadecimalString.NilEmpty.string_of_uint (N.to_hex_uint n).

(** Sign-aware zero padding of fmt's [0] flag: the sign comes first and
    the zeros fill what is left of the width. *)
Definition fmt_signed (width : nat) (digits : N -> string) (d : Z) : string :=
  if d <? 0
  then String "-"%char (zero_pad (width - 1) (digits (Z.to_N (- d))))
  else zero_pad width (digits (Z.to_N d)).

(** [fmt::format("{:04}", d)] and [fmt::format("{:04x}", d)] for an [int]. *)
Definition fmt_04d (d : Z) : string := fmt_signed 4 dec_digits d.
Definition fmt_04x (d : Z) : string := fmt_signed 4 hex_digits d.

(** [fmt::format("{}", d)] and [operator<<] for an [int]. *)
Definition fmt_int (d : Z) : string := fmt_signed 0 dec_digits d.

(** Reading a digit string back, leading zeros allowed. *)
Definition dec_value (s : string) : option N :=
  N.of_uint <$> DecimalString.NilEmpty.uint_of_string s.

(** [std::quoted]: the text between double quotes, with every double
    quote and backslash of the text preceded by a backslash.  This is what
    [operator<<] does with a [std::filesystem::path]. *)
Fixpoint escape (s : string) : string :=
  match s with
  | "" => ""
  | String c r =>
      if (Ascii.eqb c dquote || Ascii.eqb c backslash)%bool
      then String backslash (String c (escape r))
      else String c (escape r)
  end.

Definition quoted (s : string) : string :=
  String dquote (escape s +:+ String dquote "").

Fixpoint last_char (s : string) : option ascii :=
  match s with
  | "" => None
  | String c "" => Some c
  | String _ r => last_char r
  end.

(** [path::has_filename]: the path is not empty and does not end in the
    directory separator. *)
Definition has_filename (p : string) : bool :=
  match last_char p with
  | Some c => negb (Ascii.eqb c slash)
  | None => false
  end.

Definition is_absolute (p : string) : bool :=
  match p with
  | String c _ => Ascii.eqb c slash
  | "" => false
  end.

(** [operator/] of [std::filesystem::path] on POSIX: an absolute right
    operand replaces the left one; otherwise a separator is put between
    them when the left one has a filename. *)
Definition path_append (p q : string) : string :=
  if is_absolute q then q
  else if has_filename p then p +:+ String slash q
  else p +:+ q.

(** A path followed by the separator that [operator/] puts after it. *)
Definition with_separator (p : string) : string :=
  if has_filename p then p +:+ String slash "" else p.

Fixpoint contains_char (c : ascii) (s : string) : bool :=
  match s with
  | "" => false
  | String a r => (Ascii.eqb a c || contains_char c r)%bool
  end.


(** [boost::split(fields, s, boost::is_any_of(" "), token_compress_on)]:
    the pieces between maximal runs of spaces.  A run at the start or at
    the end of [s] is followed, respectively preceded, by an empty piece,
    and the empty text gives one empty piece.  [after_sep] says that the
    character before the current position was a separator. *)
Fixpoint split_from (after_sep : bool) (s : string) : list string :=
  match s with
  | "" => [""]
  | String c r =>
      if Ascii.eqb c space
      then (if after_sep then split_from true r else "" :: split_from true r)
      else match split_from false r with
           | t :: ts => String c t :: ts
           | [] => [String c ""]
           end
  end.

Definition split (s : string) : list string := split_from false s.

End Text.

Import Text.

(** ** The process and its environment *)

(** [Context] of [paramount.cpp]. *)
Record Context := {
  preserve_temp : bool;
  threads : Z;
  verbose : bool
}.

(** What the collaborators answer: the [std::error_code] filled in by
    [fs::create_directory] and by the calls of [bp::system] that take one,
    the exceptions of the calls that take none ([bp::system] for [umount],
    [fs::remove], [fs::remove_all], [std::async], the constructor of the
    barrier, the two streams with [failbit] requested), and the result of
    [sigaction].  For a subprocess the answer is the value of the
    [std::error_code] that [bp::system] hands back, which is what the
    source looks at.  Where the same call can be made more than once, the
    answer may depend on when it is made: the time [k] of a call is the
    number of effects the process has had before it.  Narration through
    [VERBOSE] goes to the standard stream only, has no influence on
    control, and is left out. *)
Record World := {
  (** the directory [mkdtemp] made for [tdobj] *)
  tmp_root : string;
  (** [bp::search_path] results *)
  exportfs_path : string;
  mount_path : string;
  (** [errno] of [sigaction], [0] when the handler was installed *)
  sigaction_errno : Z;
  (** error code of [fs::create_directory] on a path that does not exist
      yet, [0] when the directory can be made *)
  mkdir_errno : string -> Z;
  (** [Some what] when opening the export file for writing fails *)
  exports_open_failure : option string;
  (** error code of the [k]-th run of [exportfs -ra] ([k] from [0]) *)
  exportfs_ec : nat -> Z;
  (** error code worker [d] gets from its [mount] command *)
  mount_ec : Z -> Z;
  (** whether the [mount] command of worker [d] ever returns *)
  mount_returns : Z -> bool;
  (** [Some what] when [std::async] cannot start the thread of mounter [d]
      and throws *)
  async_failure : Z -> option string;
  (** [what()] of the [boost::thread_exception] that the constructor of
      the barrier throws for a count of zero: its own text followed by
      what the version of Boost.System in use adds for [EINVAL] *)
  barrier_what : string;
  (** [Some what] when [bp::system] cannot launch the [umount] command at
      time [k] and throws *)
  umount_failure : nat -> option string;
  (** [Some what] when [fs::remove] throws at time [k] *)
  remove_failure : nat -> option string;
  (** [Some (what, gone)] when [fs::remove_all], at time [k], throws
      after it has deleted, of what is at or below its argument, the
      entries that [gone] selects *)
  remove_all_failure : nat -> option (string * (string -> bool));
  (** the lines of [/proc/self/mounts], or [inl what] when it cannot be
      opened *)
  proc_mounts : string + list string;
  strerror : Z -> string
}.

Inductive event :=
| EvStderr (text : string)
| EvMkdir (path : string)
| EvWrite (path : string) (content : string)
| EvSystem (cmdline : string)
| EvReadMounts
| EvRemove (path : string)
| EvRemoveAll (path : string).

Global Instance event_eq_dec : EqDecision event.
Proof. solve_decision. Defined.

(** [TemporaryDirectory]. *)
Record TemporaryDirectory := {
  dir_ : string;
  preserve_ : bool
}.

(** The state of the process and of the part of the machine it touches. *)
Record Proc := {
  (** directories on disk *)
  dirs : gset string;
  (** regular files on disk, with their content *)
  files : gmap string string;
  (** the static [std::optional<clean_function> cleanup] holds a value *)
  cleanup_set : bool;
  tdobj : TemporaryDirectory;
  (** how often [exportfs -ra] has been run *)
  exportfs_runs : nat;
  (** effects so far, oldest first *)
  trace : list event
}.

(** How a piece of the program ends. *)
Inductive result (A : Type) :=
| Val (a : A)             (** it returns *)
| Throw (what : string)   (** a [std::exception] propagates *)
| Exit (code : Z)         (** [exit(code)]: the process ends on the spot *)
| Hang                    (** it blocks for ever *)
| Undefined.              (** undefined behaviour *)

Arguments Val {A} a.
Arguments Throw {A} what.
Arguments Exit {A} code.
Arguments Hang {A}.
Arguments Undefined {A}.

Definition M (A : Type) : Type := Proc -> result A * Proc.

Definition ret {A} (a : A) : M A := fun st => (Val a, st).

Definition bind {A B} (m : M A) (k : A -> M B) : M B :=
  fun st =>
    match m st with
    | (Val a, st') => k a st'
    | (Throw e, st') => (Throw e, st')
    | (Exit c, st') => (Exit c, st')
    | (Hang, st') => (Hang, st')
    | (Undefined, st') => (Undefined, st')
    end.

Declare Scope proc_scope.
Delimit Scope proc_scope with proc.
Notation "x <- m ;; k" := (bind m (fun x => k))
  (at level 100, m at next level, right associativity) : proc_scope.
Notation "m ;;; k" := (bind m (fun _ => k))
  (at level 100, right associativity) : proc_scope.
Local Open Scope proc_scope.

Definition throw {A} (what : string) : M A := fun st => (Throw what, st).
Definition exit_ {A} (code : Z) : M A := fun st => (Exit code, st).
Definition hang {A} : M A := fun st => (Hang, st).
Definition undefined {A} : M A := fun st => (Undefined, st).

(** [try { m } catch (std::exception& e) { handler e }] *)
Definition try_catch {A} (m : M A) (handler : string -> M A) : M A :=
  fun st =>
    match m st with
    | (Throw e, st') => handler e st'
    | other => other
    end.

(** Updates of one component of the state. *)
Definition upd_dirs (st : Proc) (d : gset string) : Proc :=
  {| dirs := d; files := files st; cleanup_set := cleanup_set st;
     tdobj := tdobj st; exportfs_runs := exportfs_runs st; trace := trace st |}.

Definition upd_files (st : Proc) (f : gmap string string) : Proc :=
  {| dirs := dirs st; files := f; cleanup_set := cleanup_set st;
     tdobj := tdobj st; exportfs_runs := exportfs_runs st; trace := trace st |}.

Definition upd_cleanup (st : Proc) (b : bool) : Proc :=
  {| dirs := dirs st; files := files st; cleanup_set := b;
     tdobj := tdobj st; exportfs_runs := exportfs_runs st; trace := trace st |}.

Definition upd_tdobj (st : Proc) (t : TemporaryDirectory) : Proc :=
  {| dirs := dirs st; files := files st; cleanup_set := cleanup_set st;
     tdobj := t; exportfs_runs := exportfs_runs st; trace := trace st |}.

Definition upd_runs (st : Proc) (k : nat) : Proc :=
  {| dirs := dirs st; files := files st; cleanup_set := cleanup_set st;
     tdobj := tdobj st; exportfs_runs := k; trace := trace st |}.

Definition log (st : Proc) (evs : list event) : Proc :=
  {| dirs := dirs st; files := files st; cleanup_set := cleanup_set st;
     tdobj := tdobj st; exportfs_runs := exportfs_runs st;
     trace := trace st ++ evs |}.

Definition emit (e : event) : M unit := fun st => (Val tt, log st [e]).

Definition get {A} (f : Proc -> A) : M A := fun st => (Val (f st), st).

Definition set_dirs (d : gset string) : M unit :=
  fun st => (Val tt, upd_dirs st d).

Definition set_files (f : gmap string string) : M unit :=
  fun st => (Val tt, upd_files st f).

Definition set_cleanup (b : bool) : M unit :=
  fun st => (Val tt, upd_cleanup st b).

Definition set_tdobj (t : TemporaryDirectory) : M unit :=
  fun st => (Val tt, upd_tdobj st t).

Definition count_exportfs : M nat :=
  fun st => (Val (exportfs_runs st), upd_runs st (S (exportfs_runs st))).

(** [v[d]] on a [std::vector]: no bounds check, so an index outside the
    vector is undefined behaviour. *)
Definition vec_at {A} (v : list A) (d : Z) : M A :=
  if d <? 0 then undefined
  else match v !! Z.to_nat d with
       | Some x => ret x
       | None => undefined
       end.

(** ** The program *)

Definition INT_MAX : Z := 2147483647.

(** The path of the export table. *)
Definition exports : string := "/etc/exports.d/paramount.exports".

(** [q] is [p] or lies below it. *)
Definition is_under (p q : string) : bool :=
  (String.eqb p q
   || String.prefix (if has_filename p then p +:+ String slash "" else p) q)%bool.

Section Program.

Variable w : World.
Variable ctx : Context.

(** [error] and [error_sys]: one line on the error stream, then
    [exit(1)]. *)
Definition error {A} (msg : string) : M A :=
  emit (EvStderr (msg +:+ nl)) ;;; exit_ 1.

Definition error_sys {A} (syserr : Z) (msg : string) : M A :=
  emit (EvStderr (msg +:+ ": " +:+ strerror w syserr +:+ nl)) ;;; exit_ 1.

(** [fs::create_directory(p, ec)]: whether a directory was made, and the
    value of [ec].  A directory that is already there gives [false] with
    [ec] cleared. *)
Definition create_directory (p : string) : M (bool * Z) :=
  ds <- get dirs ;;
  if decide (p ∈ ds) then ret (false, 0)
  else if mkdir_errno w p =? 0
       then set_dirs ({[p]} ∪ ds) ;;; emit (EvMkdir p) ;;; ret (true, 0)
       else ret (false, mkdir_errno w p).

(** The time of a call: the number of effects so far. *)
Definition now : M nat := get (fun st => length (trace st)).

(** [fs::remove(p)] on a regular file, the overload that throws: a file
    that is not there is no error. *)
Definition remove_file (p : string) : M unit :=
  k <- now ;;
  match remove_failure w k with
  | Some what => emit (EvRemove p) ;;; throw what
  | None =>
      fs <- get files ;;
      set_files (delete p fs) ;;;
      emit (EvRemove p)
  end.

(** [fs::remove_all(p)], the overload that throws.  When nothing is at
    or below [p] there is nothing to do and no error.  Otherwise the call
    either deletes all of it, or throws with a part of it deleted. *)
Definition remove_all (p : string) : M unit :=
  k <- now ;;
  ds <- get dirs ;;
  fs <- get files ;;
  if bool_decide (set_Forall (fun q => is_under p q = false) (ds ∪ dom fs))
  then emit (EvRemoveAll p)
  else
    match remove_all_failure w k with
    | None =>
        set_dirs (filter (fun q => is_under p q = false) ds) ;;;
        set_files (filter (fun kv => is_under p (fst kv) = false) fs) ;;;
        emit (EvRemoveAll p)
    | Some (what, gone) =>
        set_dirs (filter (fun q => (is_under p q && gone q)%bool = false) ds) ;;;
        set_files
          (filter (fun kv => (is_under p (fst kv) && gone (fst kv))%bool = false)
                  fs) ;;;
        emit (EvRemoveAll p) ;;;
        throw what
    end.

(** [TemporaryDirectory::PreserveContents] and
    [TemporaryDirectory::DeleteNow] on [tdobj]. *)
Definition PreserveContents : M unit :=
  t <- get tdobj ;;
  set_tdobj {| dir_ := dir_ t; preserve_ := true |}.

Definition DeleteNow : M unit :=
  t <- get tdobj ;;
  if (negb (preserve_ t) && negb (String.eqb (dir_ t) ""))%bool
  then remove_all (dir_ t)
  else ret tt.

(** [exportfs]: run [exportfs -ra]; an error code other than zero is
    fatal. *)
Definition exportfs : M bool :=
  k <- count_exportfs ;;
  emit (EvSystem (exportfs_path w +:+ " -ra")) ;;;
  if negb (exportfs_ec w k =? 0)
  then error_sys (exportfs_ec w k) "exportfs failed"
  else ret true.

Definition umount_cmdline : string := "umount -a -t nfs -l".

(** [bp::system("umount -a -t nfs -l")]: no [std::error_code] is passed,
    so a command that cannot be launched is an exception; the exit status
    of the command is not looked at. *)
Definition umount_all : M unit :=
  k <- now ;;
  emit (EvSystem umount_cmdline) ;;;
  match umount_failure w k with
  | Some what => throw what
  | None => ret tt
  end.

(** The closure stored in [cleanup].  It is called outside the [try]
    block, so an exception of one of its steps is caught by nobody: the
    process is terminated there. *)
Definition cleanup_fn : M unit :=
  umount_all ;;;
  remove_file exports ;;;
  exportfs ;;;
  DeleteNow.

(** [sig_handler], installed for [SIGINT]. *)
Definition sig_handler : M unit :=
  c <- get cleanup_set ;;
  if c then cleanup_fn ;;; set_cleanup false else ret tt.

(** The end of [main]: the closure is called when [cleanup] holds one,
    and [cleanup] is left as it is. *)
Definition main_cleanup : M unit :=
  c <- get cleanup_set ;;
  if c then cleanup_fn else ret tt.

(** The loops [for (int d = 0; d < ctx.threads; d++)] run
    [Z.to_nat (threads ctx)] times; each fixpoint below is one loop, with
    [k] the number of rounds left and [d] the loop variable. *)
Definition rounds : nat := Z.to_nat (threads ctx).

Definition dir_name (d : Z) : string := "d" +:+ fmt_04d d.

(** The two loops that create the numbered directories; [failmsg] is the
    text of the diagnostic up to the path. *)
Fixpoint create_dirs (parent failmsg : string) (k : nat) (d : Z)
  : M (list string) :=
  match k with
  | O => ret []
  | S k' =>
      let newdir := path_append parent (dir_name d) in
      r <- create_directory newdir ;;
      if negb (fst r)
      then error_sys (snd r) (failmsg +:+ newdir)
      else rest <- create_dirs parent failmsg k' (d + 1) ;;
           ret (newdir :: rest)
  end.

Definition fsid (d : Z) : string :=
  "00000000-0000-0000-0000-00000000" +:+ fmt_04x d.

Definition export_opts (us : string) : string :=
  "rw,no_subtree_check,no_root_squash,fsid=" +:+ us.

(** What one round of the export loop sends to the stream:
    [ef << mdir[d] << "\t*(" << opts << ")\n"], the path going through
    [operator<<] of [fs::path]. *)
Definition export_entry (md opts : string) : string :=
  quoted md +:+ String tab "*(" +:+ opts +:+ ")".

(** The export loop: the text sent to the stream and [muuid]. *)
Fixpoint export_loop (mdir : list string) (k : nat) (d : Z)
  : M (string * list string) :=
  match k with
  | O => ret ("", [])
  | S k' =>
      let us := fsid d in
      md <- vec_at mdir d ;;
      r <- export_loop mdir k' (d + 1) ;;
      ret (export_entry md (export_opts us) +:+ nl +:+ fst r, us :: snd r)
  end.

Definition begin_marker : string := "### BEGIN paramount".
Definition end_marker : string := "### END paramount".

Definition write_exports (mdir : list string) : M (list string) :=
  match exports_open_failure w with
  | Some what => throw what
  | None =>
      r <- export_loop mdir rounds 0 ;;
      let text := begin_marker +:+ nl +:+ fst r +:+ end_marker +:+ nl in
      fs <- get files ;;
      set_files (<[exports := text]> fs) ;;;
      emit (EvWrite exports text) ;;;
      ret (snd r)
  end.

(** [m_to_c[mdir[d]] = cdir[d]] *)
Fixpoint map_together (mdir cdir : list string) (k : nat) (d : Z)
  (m_to_c : gmap string string) : M (gmap string string) :=
  match k with
  | O => ret m_to_c
  | S k' =>
      md <- vec_at mdir d ;;
      cd <- vec_at cdir d ;;
      map_together mdir cdir k' (d + 1) (<[md := cd]> m_to_c)
  end.

(** A mounter as it is captured when it is started: [d], [md], [cd]. *)
Record mounter := { m_d : Z; m_md : string; m_cd : string }.

(** The loop that starts the mounters, from mounter [0] on.  When
    [std::async] throws, the exception leaves the [try] block through the
    destructors of the barrier and of the futures made so far; those wait
    for the mounters already started, which wait at the barrier for a
    launching thread that never comes.  Only when no mounter has been
    started yet does the exception arrive at the handler. *)
Fixpoint start_mounters (mdir cdir muuid : list string) (k : nat) (d : Z)
  : M (list mounter) :=
  match k with
  | O => ret []
  | S k' =>
      cd <- vec_at cdir d ;;
      md <- vec_at mdir d ;;
      _ <- vec_at muuid d ;;
      match async_failure w d with
      | Some what => if d =? 0 then throw what else hang
      | None =>
          rest <- start_mounters mdir cdir muuid k' (d + 1) ;;
          ret ({| m_d := d; m_md := md; m_cd := cd |} :: rest)
      end
  end.

Definition mount_cmdline (md cd : string) : string :=
  mount_path w +:+ " -t nfs -o rw,nfsvers=3 127.0.0.1:" +:+ md +:+ " " +:+ cd.

(** The body of a mounter after the barrier: it issues its command. *)
Definition run_mounter (m : mounter) : M unit :=
  emit (EvSystem (mount_cmdline (m_md m) (m_cd m))).

(** Once through the barrier every mounter issues its command, whatever
    becomes of the others.  The commands appear in the trace in the order
    of [mounters], one of the orders the threads can take (see [Launcher]
    below for the interleavings). *)
Fixpoint run_mounters (ms : list mounter) : M unit :=
  match ms with
  | [] => ret tt
  | m :: ms' => run_mounter m ;;; run_mounters ms'
  end.

(** [future.get()] on the future of a mounter: what the lambda returns,
    once its command has returned; the call blocks for as long as the
    command runs. *)
Definition future_get (m : mounter) : M Z :=
  if mount_returns w (m_d m)
  then let ec := mount_ec w (m_d m) in
       if negb (ec =? 0) then ret ec else ret 0
  else hang.

(** The futures are read in the order of [mounters]. *)
Fixpoint get_futures (ms : list mounter) : M (list Z) :=
  match ms with
  | [] => ret []
  | m :: ms' =>
      r <- future_get m ;;
      rs <- get_futures ms' ;;
      ret (r :: rs)
  end.

(** [for (auto& future : mounters) if (future.get() != 0) failures++;] *)
Fixpoint count_failures (rs : list Z) : Z :=
  match rs with
  | [] => 0
  | r :: rs' => (if negb (r =? 0) then 1 else 0) + count_failures rs'
  end.

(** [boost::barrier(ctx.threads + 1)] and the launching thread's
    [wait()]: a count of zero makes the constructor throw; a negative
    [int] becomes a count no set of threads reaches. *)
Definition make_barrier : M Z :=
  if threads ctx =? INT_MAX then undefined
  else if threads ctx + 1 =? 0 then throw (barrier_what w)
  else ret (threads ctx + 1).

Definition launcher_wait (count : Z) : M unit :=
  if count <? 0 then hang else ret tt.

Definition read_mounts : M (list string) :=
  match proc_mounts w with
  | inl what => throw what
  | inr mline => emit EvReadMounts ;;; ret mline
  end.

(** The body of the loop over [mline]. *)
Definition check_mount (m_to_c : gmap string string) (mount : string)
  : M unit :=
  let fields := split mount in
  f1 <- vec_at fields 1 ;;
  if (negb (String.eqb f1 "nfs") && negb (String.eqb f1 "nfs4"))%bool
  then ret tt
  else
    m <- vec_at fields 0 ;;
    c <- vec_at fields 1 ;;
    match m_to_c !! m with
    | None => error ("Mount '" +:+ m +:+ "' not found in map")
    | Some second =>
        if negb (String.eqb second c)
        then error ("Mount '" +:+ m +:+ "' expected mountpoint " +:+ c
                    +:+ " found " +:+ second)
        else ret tt
    end.

Fixpoint scan_mounts (m_to_c : gmap string string) (mline : list string)
  : M unit :=
  match mline with
  | [] => ret tt
  | mount :: rest => check_mount m_to_c mount ;;; scan_mounts m_to_c rest
  end.

(** The two allocation steps of [main]: the root of a subtree, then its
    numbered directories. *)
Definition alloc_server (tmpdir : string) : M (list string) :=
  let mountdir := path_append tmpdir "mount" in
  r <- create_directory mountdir ;;
  if negb (fst r)
  then error_sys (snd r) ("Failed to create mount root directory " +:+ mountdir)
  else create_dirs mountdir "Failed to create mount directory " rounds 0.

Definition alloc_client (tmpdir : string) : M (list string) :=
  let clientdir := path_append tmpdir "client" in
  r <- create_directory clientdir ;;
  if negb (fst r)
  then error_sys (snd r) ("Failed to create client root directory " +:+ clientdir)
  else create_dirs clientdir "Failed to create client directory " rounds 0.

(** Starting the mounters, the barrier, and the collection of the
    futures; the value is [failures]. *)
Definition launch (mdir cdir muuid : list string) : M Z :=
  start_barrier <- make_barrier ;;
  mounters <- start_mounters mdir cdir muuid rounds 0 ;;
  launcher_wait start_barrier ;;;
  run_mounters mounters ;;;
  results <- get_futures mounters ;;
  let failures := count_failures results in
  (if negb (failures =? 0)
   then emit (EvStderr ("Got " +:+ fmt_int failures +:+ " mount failures" +:+ nl))
   else ret tt) ;;;
  ret failures.

(** Reading the live mount table and checking it. *)
Definition verify (m_to_c : gmap string string) : M unit :=
  mline <- read_mounts ;;
  scan_mounts m_to_c mline.

(** The [try] block of [main]. *)
Definition main_try (tmpdir : string) : M unit :=
  mdir <- alloc_server tmpdir ;;
  muuid <- write_exports mdir ;;
  exportfs ;;;
  cdir <- alloc_client tmpdir ;;
  m_to_c <- map_together mdir cdir rounds 0 ∅ ;;
  launch mdir cdir muuid ;;;
  verify m_to_c.

(** [main] after the options are parsed, in three parts: up to the end
    of the [try] statement, with the value of [exit_code]; the call of
    the cleanup closure; and the [return], where [tdobj] is destroyed.
    The value of [main] is the exit status. *)
Definition main_run : M bool :=
  (if preserve_temp ctx then PreserveContents else ret tt) ;;;
  tmpdir <- get (fun st => dir_ (tdobj st)) ;;
  set_cleanup true ;;;
  (if negb (sigaction_errno w =? 0)
   then error_sys (sigaction_errno w) "Unable to install signal handler"
   else ret tt) ;;;
  try_catch
    (main_try tmpdir ;;; ret false)
    (fun e =>
       emit (EvStderr ("Caught exception: " +:+ e +:+ nl)) ;;;
       ret true).

Definition main_return (exit_code : bool) : M Z :=
  DeleteNow ;;;
  ret (if exit_code then 1 else 0).

Definition main : M Z :=
  exit_code <- main_run ;;
  main_cleanup ;;;
  main_return exit_code.

(** [main] with one [SIGINT] delivered while it runs.  The handler runs
    on the thread of [main] between two of its statements and then
    [main] goes on; the two places of interest are just before and just
    after the call of the cleanup closure. *)
Inductive sigint_at := BeforeCleanupCall | AfterCleanupCall.

Definition main_with_sigint (at_ : sigint_at) : M Z :=
  exit_code <- main_run ;;
  match at_ with
  | BeforeCleanupCall => sig_handler ;;; main_cleanup
  | AfterCleanupCall => main_cleanup ;;; sig_handler
  end ;;;
  main_return exit_code.

(** The process when [main] starts its work: [tdobj] has been
    constructed on [tmp_root], nothing else is there yet. *)
Definition initial : Proc :=
  {| dirs := {[tmp_root w]}; files := ∅; cleanup_set := false;
     tdobj := {| dir_ := tmp_root w; preserve_ := false |};
     exportfs_runs := 0; trace := [] |}.

End Program.

Arguments error {A} msg.
Arguments mounter : clear implicits.

(** How often an event occurs in a trace. *)
Definition occurrences (e : event) (tr : list event) : nat :=
  length (List.filter (fun x => bool_decide (x = e)) tr).

Definition is_stderr (e : event) : bool :=
  match e with
  | EvStderr _ => true
  | _ => false
  end.

Definition is_remove_all (e : event) : bool :=
  match e with
  | EvRemoveAll _ => true
  | _ => false
  end.

(** The test the loop applies before it looks a record up: the field at
    index [1] is [nfs] or [nfs4]. *)
Definition kept (fields : list string) : bool :=
  match fields !! 1%nat with
  | Some f1 => (String.eqb f1 "nfs" || String.eqb f1 "nfs4")%bool
  | None => false
  end.

(** ** What a run is expected to produce *)

(** The directories [d0000], [d0001], ... of one subtree, [k] of them from
    index [d] on. *)
Definition numbered (parent : string) (d : Z) (k : nat) : list string :=
  (fun i => path_append parent (dir_name i)) <$> seqZ d (Z.of_nat k).

Definition server_dirs (tmpdir : string) (n : Z) : list string :=
  numbered (path_append tmpdir "mount") 0 (Z.to_nat n).

Definition client_dirs (tmpdir : string) (n : Z) : list string :=
  numbered (path_append tmpdir "client") 0 (Z.to_nat n).

(** Nothing exists at [p] or below it. *)
Definition fresh_below (p : string) (st : Proc) : Prop :=
  forall q, q ∈ dirs st -> is_under p q = false.

(** What the lambda of mounter [d] returns. *)
Definition mount_result (w : World) (d : Z) : Z :=
  if negb (mount_ec w d =? 0) then mount_ec w d else 0.

(** The count of failures the launcher arrives at, and what it prints. *)
Definition expected_failures (w : World) (ctx : Context) : Z :=
  count_failures (mount_result w <$> seqZ 0 (threads ctx)).

Definition failures_report (w : World) (ctx : Context) : list event :=
  if negb (expected_failures w ctx =? 0)
  then [EvStderr ("Got " +:+ fmt_int (expected_failures w ctx)
                  +:+ " mount failures" +:+ nl)]
  else [].

(** The text the export loop sends to the stream for the server
    directories [mdir], numbered from [d] on, and the whole table. *)
Fixpoint entries_text (mdir : list string) (d : Z) : string :=
  match mdir with
  | [] => ""
  | md :: rest =>
      export_entry md (export_opts (fsid d)) +:+ nl +:+ entries_text rest (d + 1)
  end.

Definition export_text (mdir : list string) : string :=
  begin_marker +:+ nl +:+ entries_text mdir 0 +:+ end_marker +:+ nl.



(** The record is passed over by the loop over the mount table. *)
Definition passed_over (mount : string) : Prop :=
  (2 <= length (split mount))%nat /\ kept (split mount) = false.

(** ** The launcher and the mounters as threads

    The part of [main] from the construction of [start_barrier] to the end
    of the loop over the futures, with its threads taken apart: the
    launching thread and one thread per mounter, each a small automaton
    over the statements that synchronise.  A schedule names the thread
    that moves next; a thread that is named while it is blocked (in
    [wait()], in [get()] on a future that is not ready, or in a [mount]
    command that does not return) stays where it is.  So does the
    launching thread once [std::async] has thrown: it has left this part
    of [main], for the handler when no mounter was started yet, and
    otherwise for the destructors of the futures, where it waits for
    mounters that wait for it. *)

Module Launcher.

(** [boost::barrier]: [m_threshold], [m_count], [m_generation]. *)
Record barrier := {
  m_threshold : nat;
  m_count : nat;
  m_generation : nat
}.

(** Where a mounter is. *)
Inductive wstate :=
| NotStarted           (** [std::async] has not been called for it *)
| Started              (** running, before [start_barrier.wait()] *)
| Waiting (gen : nat)  (** inside [wait()], entered in generation [gen] *)
| Released             (** [wait()] has returned *)
| Mounting             (** [bp::system(cmdline, ec)] is under way *)
| Done (r : Z).        (** returned [r]: its future is ready *)

(** Where the launching thread is. *)
Inductive lstate :=
| Spawning (d : nat)                 (** about to start mounter [d] *)
| LWaiting (gen : nat)               (** inside [start_barrier.wait()] *)
| Collecting (d : nat) (failures : Z)  (** about to [get()] future [d] *)
| Returned (failures : Z)            (** past the loop over the futures *)
| AsyncFailed (d : nat).             (** [std::async] threw for mounter [d] *)

Record state := {
  launcher : lstate;
  workers : list wstate;
  bar : barrier
}.

Inductive thread := TLauncher | TWorker (i : nat).

(** [barrier::wait()] up to the point where the caller either goes through
    or starts to sleep: the count goes down by one; the caller that brings
    it to zero starts the next generation, resets the count and goes
    through ([None]); any other caller sleeps until the generation is no
    longer the one it saw ([Some gen]). *)
Definition arrive (b : barrier) : barrier * option nat :=
  if (m_count b - 1 =? 0)%nat
  then ({| m_threshold := m_threshold b; m_count := m_threshold b;
           m_generation := S (m_generation b) |}, None)
  else ({| m_threshold := m_threshold b; m_count := (m_count b - 1)%nat;
           m_generation := m_generation b |}, Some (m_generation b)).

Section Run.

(** The number of mounters and the error code each gets from [mount];
    whether [std::async] throws instead of starting mounter [d], and
    whether the [mount] command of mounter [i] ever returns. *)
Variable n : nat.
Variable ec : Z -> Z.
Variable async_fails : nat -> bool.
Variable returns : nat -> bool.

Definition init : state :=
  {| launcher := Spawning 0;
     workers := replicate n NotStarted;
     bar := {| m_threshold := S n; m_count := S n; m_generation := 0 |} |}.

(** What the lambda of mounter [i] returns. *)
Definition outcome (i : nat) : Z :=
  let v := ec (Z.of_nat i) in
  if negb (v =? 0) then v else 0.

Definition step_launcher (s : state) : option state :=
  match launcher s with
  | Spawning d =>
      if (d <? n)%nat
      then
        if async_fails d
        then Some {| launcher := AsyncFailed d; workers := workers s;
                     bar := bar s |}
        else Some {| launcher := Spawning (S d);
                     workers := <[d := Started]> (workers s);
                     bar := bar s |}
      else
        let (b, blocked) := arrive (bar s) in
        Some {| launcher := match blocked with
                            | Some gen => LWaiting gen
                            | None => Collecting 0 0
                            end;
                workers := workers s; bar := b |}
  | LWaiting gen =>
      if (gen =? m_generation (bar s))%nat then None
      else Some {| launcher := Collecting 0 0; workers := workers s;
                  bar := bar s |}
  | Collecting d failures =>
      if (d <? n)%nat
      then match workers s !! d with
           | Some (Done r) =>
               Some {| launcher :=
                         Collecting (S d)
                           (if negb (r =? 0) then failures + 1 else failures);
                       workers := workers s; bar := bar s |}
           | _ => None
           end
      else Some {| launcher := Returned failures; workers := workers s;
                  bar := bar s |}
  | Returned _ => None
  | AsyncFailed _ => None
  end.

Definition step_worker (i : nat) (s : state) : option state :=
  match workers s !! i with
  | Some Started =>
      let (b, blocked) := arrive (bar s) in
      Some {| launcher := launcher s;
              workers := <[i := match blocked with
                                | Some gen => Waiting gen
                                | None => Released
                                end]> (workers s);
              bar := b |}
  | Some (Waiting gen) =>
      if (gen =? m_generation (bar s))%nat then None
      else Some {| launcher := launcher s;
                  workers := <[i := Released]> (workers s); bar := bar s |}
  | Some Released =>
      Some {| launcher := launcher s;
              workers := <[i := Mounting]> (workers s); bar := bar s |}
  | Some Mounting =>
      if returns i
      then Some {| launcher := launcher s;
                   workers := <[i := Done (outcome i)]> (workers s);
                   bar := bar s |}
      else None
  | _ => None
  end.

Definition step (t : thread) (s : state) : state :=
  match match t with
        | TLauncher => step_launcher s
        | TWorker i => step_worker i s
        end with
  | Some s' => s'
  | None => s
  end.

Fixpoint run (schedule : list thread) (s : state) : state :=
  match schedule with
  | [] => s
  | t :: rest => run rest (step t s)
  end.

(** A mounter has called [wait()]. *)
Definition arrived (ws : wstate) : bool :=
  match ws with
  | NotStarted | Started => false
  | _ => true
  end.

(** The launching thread has called [wait()]. *)
Definition launcher_arrived (l : lstate) : bool :=
  match l with
  | Spawning _ | AsyncFailed _ => false
  | _ => true
  end.

(** A mounter has begun its mount command. *)
Definition mounting (ws : wstate) : bool :=
  match ws with
  | Mounting | Done _ => true
  | _ => false
  end.

(** The number of failures among the first [d] outcomes, as the loop over
    the futures counts them. *)
Fixpoint failures_upto (d : nat) : Z :=
  match d with
  | O => 0
  | S d' =>
      let f := failures_upto d' in
      if negb (outcome d' =? 0) then f + 1 else f
  end.

Local Open Scope nat_scope.

Definition b2n (b : bool) : nat := if b then 1 else 0.

Definition count_arrived (ws : list wstate) : nat :=
  length (List.filter arrived ws).

(** The invariant of the protocol. *)
Record Inv (s : state) : Prop := {
  inv_length : length (workers s) = n;
  inv_threshold : m_threshold (bar s) = S n;
  inv_wgen : forall i g, workers s !! i = Some (Waiting g) -> g = 0;
  inv_lgen : forall g, launcher s = LWaiting g -> g = 0;
  inv_closed :
    m_generation (bar s) = 0 ->
    m_count (bar s) + count_arrived (workers s)
      + b2n (launcher_arrived (launcher s)) = S n
    /\ 1 <= m_count (bar s)
    /\ (forall i x, workers s !! i = Some x ->
          x = NotStarted \/ x = Started \/ x = Waiting 0)
    /\ (forall d f, launcher s <> Collecting d f)
    /\ (forall f, launcher s <> Returned f);
  inv_open :
    m_generation (bar s) <> 0 ->
    m_generation (bar s) = 1
    /\ (forall i x, workers s !! i = Some x -> arrived x = true)
    /\ launcher_arrived (launcher s) = true;
  inv_spawn :
    forall d, launcher s = Spawning d ->
      d <= n /\ forall i, d <= i -> i < n -> workers s !! i = Some NotStarted;
  inv_done : forall i r, workers s !! i = Some (Done r) -> r = outcome i;
  inv_collect :
    forall d f, launcher s = Collecting d f ->
      d <= n /\ f = failures_upto d
      /\ forall i, i < d -> workers s !! i = Some (Done (outcome i));
  inv_returned :
    forall f, launcher s = Returned f ->
      f = failures_upto n
      /\ forall i, i < n -> workers s !! i = Some (Done (outcome i))
}.

End Run.

End Launcher.

(** ** Sample runs *)

Module Scenario.

Definition root : string := "/tmp/paramount.Ab12Cd".

(** A machine on which every directory can be made, the export file can
    be written, every thread can be started, every [mount] command
    returns and nothing that the cleanup calls throws; the answers of
    [exportfs] and of [mount] and the live mount table are left open. *)
Definition world (efs_ec : nat -> Z) (mnt_ec : Z -> Z) (mounts : list string)
  : World :=
  {| tmp_root := root;
     exportfs_path := "/usr/sbin/exportfs";
     mount_path := "/usr/bin/mount";
     sigaction_errno := 0;
     mkdir_errno := fun _ => 0;
     exports_open_failure := None;
     exportfs_ec := efs_ec;
     mount_ec := mnt_ec;
     mount_returns := fun _ => true;
     async_failure := fun _ => None;
     barrier_what :=
       "barrier constructor: count cannot be zero.: Invalid argument";
     umount_failure := fun _ => None;
     remove_failure := fun _ => None;
     remove_all_failure := fun _ => None;
     proc_mounts := inr mounts;
     strerror := fun e => "error " +:+ fmt_int e |}.

Definition ctx (n : Z) (preserve : bool) : Context :=
  {| preserve_temp := preserve; threads := n; verbose := false |}.

(** Everything works. *)
Definition calm : World := world (fun _ => 0) (fun _ => 0) [].

(** [exportfs] fails the first time it is run. *)
Definition no_exportfs : World := world (fun _ => 1) (fun _ => 0) [].

(** [exportfs] works when the table is activated and fails when it is run
    again from the cleanup. *)
Definition late_exportfs_failure : World :=
  world (fun k => if (k =? 0)%nat then 0 else 1) (fun _ => 0) [].

(** The mount of pair [1] fails with code [32]; the rest works and the
    live mount table has one local file system. *)
Definition one_mount_fails : World :=
  world (fun _ => 0) (fun d => if d =? 1 then 32 else 0)
        ["/dev/sda1 / ext4 rw,relatime 0 0"].

(** The live mount table has one NFS record: its device is the server
    directory of pair [3], its mount point is not the client directory of
    that pair. *)
Definition wrong_mountpoint : World :=
  world (fun _ => 0) (fun _ => 0)
        ["/tmp/paramount.Ab12Cd/mount/d0003 /mnt/elsewhere nfs rw,vers=3 0 0"].

(** An NFS record of a device the run knows nothing about, and a local file
    system mounted on a directory called [nfs]. *)
Definition untracked_nfs : string := "10.0.0.7:/export /mnt/data nfs rw 0 0".
Definition local_on_nfs : string := "/dev/sdb1 nfs ext4 rw 0 0".

(** A run of the launcher protocol with two mounters, the second of which
    gets code [32] from [mount]; every thread can be started and every
    [mount] command returns. *)
Definition codes (d : Z) : Z := if d =? 1 then 32 else 0.
Definition async_never_fails (d : nat) : bool := false.
Definition mounts_all_return (i : nat) : bool := true.

Definition schedule : list Launcher.thread :=
  [Launcher.TLauncher; Launcher.TLauncher; Launcher.TLauncher;
   Launcher.TWorker 0; Launcher.TWorker 1; Launcher.TWorker 1;
   Launcher.TWorker 1; Launcher.TWorker 0; Launcher.TWorker 0;
   Launcher.TWorker 0; Launcher.TLauncher; Launcher.TLauncher;
   Launcher.TLauncher; Launcher.TLauncher].

End Scenario.

(** ** The rest of [TemporaryDirectory] *)

(** [TemporaryDirectory::DiscardContents] on [tdobj]; the destructor is
    [DeleteNow]. *)
Definition DiscardContents : M unit :=
  t <- get tdobj ;;
  set_tdobj {| dir_ := dir_ t; preserve_ := false |}.

(** ** What a run may touch *)

(** The effects a run whose temporary directory is [t] is expected to keep
    to: it makes directories at or below the temporary root only, writes
    and removes the export file only, and deletes recursively nothing but
    the temporary root, and that only when it is not to be preserved. *)
Definition allowed (t : TemporaryDirectory) (e : event) : bool :=
  match e with
  | EvMkdir p => is_under (dir_ t) p
  | EvWrite p _ => String.eqb p exports
  | EvRemove p => String.eqb p exports
  | EvRemoveAll p => (String.eqb p (dir_ t) && negb (preserve_ t))%bool
  | _ => true
  end.

(** From [st] to [st']: [tdobj] is still [t], the trace has grown by
    allowed events, and under preservation no directory has gone and the
    directories made on the way are there. *)
Record confined (t : TemporaryDirectory) (st st' : Proc) : Prop := {
  conf_tdobj : tdobj st' = t;
  conf_trace :
    exists evs,
      trace st' = (trace st ++ evs)%list
      /\ Forall (fun e => allowed t e = true) evs
      /\ (preserve_ t = true -> forall p, EvMkdir p ∈ evs -> p ∈ dirs st');
  conf_dirs : preserve_ t = true -> dirs st ⊆ dirs st'
}.

(** The only status [exit] is ever called with is [1]. *)
Definition exit_ok {A} (r : result A) : Prop :=
  match r with
  | Exit c => c = 1
  | _ => True
  end.

(** A piece of the program that keeps to all that from every state in
    which [tdobj] is [t]. *)
Definition sound {A} (t : TemporaryDirectory) (m : M A) : Prop :=
  forall st, tdobj st = t ->
    confined t st (snd (m st)) /\ exit_ok (fst (m st)).

(** A run of [main], with no signal or with one [SIGINT] at one of the two
    places. *)
Definition process (w : World) (ctx : Context) (sig : option sigint_at) : M Z :=
  match sig with
  | None => main w ctx
  | Some at_ => main_with_sigint w ctx at_
  end.

(** [tdobj] as [main] has it from the moment the options are applied. *)
Definition settled_tdobj (w : World) (ctx : Context) : TemporaryDirectory :=
  {| dir_ := tmp_root w; preserve_ := preserve_temp ctx |}.

(** The map the loop [m_to_c[mdir[d]] = cdir[d]] arrives at from [m]. *)
Definition pair_up (m : gmap string string) (mdir cdir : list string)
  : gmap string string :=
  foldl (fun acc p => <[fst p := snd p]> acc) m (zip mdir cdir).

(** The pieces of a line put together again with one space between
    them. *)
Fixpoint join (pieces : list string) : string :=
  match pieces with
  | [] => ""
  | [t] => t
  | t :: rest => t +:+ String space (join rest)
  end.

(** No two spaces in a row. *)
Fixpoint single_spaced (s : string) : bool :=
  match s with
  | "" => true
  | String c r =>
      match r with
      | String c' _ =>
          (negb (Ascii.eqb c space && Ascii.eqb c' space) && single_spaced r)%bool
      | "" => true
      end
  end.

(** ** More machines *)

(** A machine on which the export file cannot be opened for writing,
    everything else working. *)
Definition read_only_etc : World :=
  {| tmp_root := Scenario.root;
     exportfs_path := "/usr/sbin/exportfs";
     mount_path := "/usr/bin/mount";
     sigaction_errno := 0;
     mkdir_errno := fun _ => 0;
     exports_open_failure := Some "basic_ios::clear: iostream error";
     exportfs_ec := fun _ => 0;
     mount_ec := fun _ => 0;
     mount_returns := fun _ => true;
     async_failure := fun _ => None;
     barrier_what :=
       "barrier constructor: count cannot be zero.: Invalid argument";
     umount_failure := fun _ => None;
     remove_failure := fun _ => None;
     remove_all_failure := fun _ => None;
     proc_mounts := inr [];
     strerror := fun e => "error " +:+ fmt_int e |}.

(** A machine on which the directory [bad] cannot be made, for the reason
    [errno]. *)
Definition no_room_for (bad : string) (errno : Z) : World :=
  {| tmp_root := Scenario.root;
     exportfs_path := "/usr/sbin/exportfs";
     mount_path := "/usr/bin/mount";
     sigaction_errno := 0;
     mkdir_errno := fun p => if String.eqb p bad then errno else 0;
     exports_open_failure := None;
     exportfs_ec := fun _ => 0;
     mount_ec := fun _ => 0;
     mount_returns := fun _ => true;
     async_failure := fun _ => None;
     barrier_what :=
       "barrier constructor: count cannot be zero.: Invalid argument";
     umount_failure := fun _ => None;
     remove_failure := fun _ => None;
     remove_all_failure := fun _ => None;
     proc_mounts := inr [];
     strerror := fun e => "error " +:+ fmt_int e |}.

(** ** What a run that gets to the mounts has done *)

(** The effects up to the barrier: both roots and the numbered
    directories are made, the export table is written and activated. *)
Definition setup_events (w : World) (tmpdir : string) (n : Z) : list event :=
  (EvMkdir (path_append tmpdir "mount")
   :: (EvMkdir <$> server_dirs tmpdir n)
   ++ [EvWrite exports (export_text (server_dirs tmpdir n));
       EvSystem (exportfs_path w +:+ " -ra")]
   ++ EvMkdir (path_append tmpdir "client")
      :: (EvMkdir <$> client_dirs tmpdir n))%list.

(** One [mount] command for each of the pairs [0], ..., [n - 1]. *)
Definition mount_commands (w : World) (tmpdir : string) (n : Z) : list event :=
  (fun d =>
     EvSystem (mount_cmdline w
                 (path_append (path_append tmpdir "mount") (dir_name d))
                 (path_append (path_append tmpdir "client") (dir_name d))))
    <$> seqZ 0 n.

(** The number of pairs among the first [n] whose [mount] command returns
    a code other than zero, and the line that reports it. *)
Definition failed_count (w : World) (n : Z) : Z :=
  Z.of_nat (length (List.filter (fun d => negb (mount_ec w d =? 0)) (seqZ 0 n))).

Definition failed_report (w : World) (n : Z) : list event :=
  if failed_count w n =? 0 then []
  else [EvStderr ("Got " +:+ fmt_int (failed_count w n)
                  +:+ " mount failures" +:+ nl)].

(** The three steps of the cleanup closure that come before the
    deletion. *)
Definition cleanup_steps (w : World) : list event :=
  [EvSystem umount_cmdline; EvRemove exports;
   EvSystem (exportfs_path w +:+ " -ra")].

(** A machine on which [fs::remove] throws, everything else working. *)
Definition no_remove : World :=
  {| tmp_root := Scenario.root;
     exportfs_path := "/usr/sbin/exportfs";
     mount_path := "/usr/bin/mount";
     sigaction_errno := 0;
     mkdir_errno := fun _ => 0;
     exports_open_failure := None;
     exportfs_ec := fun _ => 0;
     mount_ec := fun _ => 0;
     mount_returns := fun _ => true;
     async_failure := fun _ => None;
     barrier_what :=
       "barrier constructor: count cannot be zero.: Invalid argument";
     umount_failure := fun _ => None;
     remove_failure :=
       fun _ => Some "filesystem error: cannot remove: Not a directory";
     remove_all_failure := fun _ => None;
     proc_mounts := inr [];
     strerror := fun e => "error " +:+ fmt_int e |}.

(** A machine on which the [mount] command of pair [1] never returns,
    everything else working. *)
Definition mount_stalls : World :=
  {| tmp_root := Scenario.root;
     exportfs_path := "/usr/sbin/exportfs";
     mount_path := "/usr/bin/mount";
     sigaction_errno := 0;
     mkdir_errno := fun _ => 0;
     exports_open_failure := None;
     exportfs_ec := fun _ => 0;
     mount_ec := fun _ => 0;
     mount_returns := fun d => negb (d =? 1);
     async_failure := fun _ => None;
     barrier_what :=
       "barrier constructor: count cannot be zero.: Invalid argument";
     umount_failure := fun _ => None;
     remove_failure := fun _ => None;
     remove_all_failure := fun _ => None;
     proc_mounts := inr [];
     strerror := fun e => "error " +:+ fmt_int e |}.

(** A machine on which no thread can be started from pair [d] on,
    everything else working. *)
Definition no_thread_from (d : Z) : World :=
  {| tmp_root := Scenario.root;
     exportfs_path := "/usr/sbin/exportfs";
     mount_path := "/usr/bin/mount";
     sigaction_errno := 0;
     mkdir_errno := fun _ => 0;
     exports_open_failure := None;
     exportfs_ec := fun _ => 0;
     mount_ec := fun _ => 0;
     mount_returns := fun _ => true;
     async_failure :=
       fun i => if i <? d then None else Some "Resource temporarily unavailable";
     barrier_what :=
       "barrier constructor: count cannot be zero.: Invalid argument";
     umount_failure := fun _ => None;
     remove_failure := fun _ => None;
     remove_all_failure := fun _ => None;
     proc_mounts := inr [];
     strerror := fun e => "error " +:+ fmt_int e |}.

(** A machine on which the live mount table cannot be opened and the
    [mount] command of pair [1] fails. *)
Definition no_mount_table : World :=
  {| tmp_root := Scenario.root;
     exportfs_path := "/usr/sbin/exportfs";
     mount_path := "/usr/bin/mount";
     sigaction_errno := 0;
     mkdir_errno := fun _ => 0;
     exports_open_failure := None;
     exportfs_ec := fun _ => 0;
     mount_ec := Scenario.codes;
     mount_returns := fun _ => true;
     async_failure := fun _ => None;
     barrier_what :=
       "barrier constructor: count cannot be zero.: Invalid argument";
     umount_failure := fun _ => None;
     remove_failure := fun _ => None;
     remove_all_failure := fun _ => None;
     proc_mounts := inl "basic_ios::clear: iostream error";
     strerror := fun e => "error " +:+ fmt_int e |}.

(** ** The shape of a file system id *)

Definition is_hex_digit (c : ascii) : bool :=
  let k := N_of_ascii c in
  ((48 <=? k)%N && (k <=? 57)%N || (97 <=? k)%N && (k <=? 102)%N)%bool.

(** The characters of [s] from position [i] on are hexadecimal digits,
    but for a dash at each of the positions [8], [13], [18] and [23]. *)
Fixpoint uuid_chars (i : nat) (s : string) : bool :=
  match s with
  | "" => true
  | String c r =>
      ((if ((i =? 8) || (i =? 13) || (i =? 18) || (i =? 23))%nat
        then Ascii.eqb c "-"%char
        else is_hex_digit c)
       && uuid_chars (S i) r)%bool
  end.

(** The textual form of a UUID: 36 characters in groups of 8, 4, 4, 4 and
    12 digits. *)
Definition uuid_shaped (s : string) : bool :=
  ((String.length s =? 36)%nat && uuid_chars 0 s)%bool.

(** [P] holds of the [k] numbers from [d] on: a check by enumeration. *)
Fixpoint holds_from (P : Z -> bool) (k : nat) (d : Z) : bool :=
  match k with
  | O => true
  | S k' => (P d && holds_from P k' (d + 1))%bool
  end.

(** * Properties *)

Example fmt_04d_7 : fmt_04d 7 = "0007".
Proof. reflexivity. Qed.

Example fmt_04d_12345 : fmt_04d 12345 = "12345".
Proof. reflexivity. Qed.

Example fmt_04x_255 : fmt_04x 255 = "00ff".
Proof. reflexivity. Qed.

Example split_record :
  split "srv:/a /mnt/a nfs rw 0 0" = ["srv:/a"; "/mnt/a"; "nfs"; "rw"; "0"; "0"].
Proof. reflexivity. Qed.

Example split_compress : split "a   b " = ["a"; "b"; ""].
Proof. reflexivity. Qed.

Example split_leading : split " a" = [""; "a"].
Proof. reflexivity. Qed.

Example split_empty : split "" = [""].
Proof. reflexivity. Qed.

Example path_append_ex :
  path_append "/tmp/paramount.Ab12Cd" "mount" = "/tmp/paramount.Ab12Cd/mount"
  /\ path_append "/tmp/" "x" = "/tmp/x".
Proof. split; reflexivity. Qed.

(** ** Facts about text *)

Section TextFacts.

Lemma append_nil_l (s : string) : "" +:+ s = s.
Proof. reflexivity. Qed.

Lemma append_cons (c : ascii) (s t : string) :
  String c s +:+ t = String c (s +:+ t).
Proof. reflexivity. Qed.

Lemma append_nil_r (s : string) : s +:+ "" = s.
Proof.
  induction s as [|c s IH]; [reflexivity |].
  now rewrite append_cons, IH.
Qed.

Lemma append_assoc (a b c : string) : (a +:+ b) +:+ c = a +:+ (b +:+ c).
Proof.
  induction a as [|x a IH]; [reflexivity |].
  now rewrite !append_cons, IH.
Qed.

Lemma length_append (a b : string) :
  String.length (a +:+ b) = (String.length a + String.length b)%nat.
Proof.
  induction a as [|x a IH]; [reflexivity |].
  rewrite append_cons. simpl. now rewrite IH.
Qed.

Lemma append_inv_head (a b c : string) : a +:+ b = a +:+ c -> b = c.
Proof.
  induction a as [|x a IH]; intros H; [exact H |].
  rewrite !append_cons in H. injection H as H. now apply IH.
Qed.

Lemma append_not_self (a b : string) : b <> "" -> a +:+ b <> a.
Proof.
  intros Hb H. apply (f_equal String.length) in H.
  rewrite length_append in H. destruct b; [congruence | simpl in H; lia].
Qed.

Lemma dec_value_zeros (k : nat) (s : string) :
  dec_value (zeros k +:+ s) = dec_value s.
Proof.
  unfold dec_value. induction k as [|k IH]; [reflexivity |].
  simpl zeros. rewrite append_cons. simpl. revert IH. destruct (DecimalString.NilEmpty.uint_of_string (zeros k +:+ s));
    destruct (DecimalString.NilEmpty.uint_of_string s); simpl; congruence.
Qed.


Lemma dec_value_digits (n : N) : dec_value (dec_digits n) = Some n.
Proof.
  unfold dec_value, dec_digits. rewrite DecimalString.NilEmpty.usu. simpl.
  now rewrite DecimalN.Unsigned.of_to.
Qed.


(** The number can be read back from its padded form. *)
Lemma dec_value_fmt_04d (d : Z) : 0 <= d -> dec_value (fmt_04d d) = Some (Z.to_N d).
Proof.
  intros Hd. unfold fmt_04d, fmt_signed, zero_pad.
  destruct (Z.ltb_spec d 0) as [?|_]; [lia |].
  now rewrite dec_value_zeros, dec_value_digits.
Qed.


Lemma fmt_04d_inj (d1 d2 : Z) :
  0 <= d1 -> 0 <= d2 -> fmt_04d d1 = fmt_04d d2 -> d1 = d2.
Proof.
  intros H1 H2 E. apply (f_equal dec_value) in E.
  rewrite !dec_value_fmt_04d in E by assumption.
  injection E as E. lia.
Qed.


Lemma dir_name_inj (d1 d2 : Z) :
  0 <= d1 -> 0 <= d2 -> dir_name d1 = dir_name d2 -> d1 = d2.
Proof.
  unfold dir_name. intros H1 H2 E. apply append_inv_head in E.
  now apply fmt_04d_inj.
Qed.


End TextFacts.

(** ** Running the pieces *)

Section MonadFacts.

Context {A B : Type}.

Lemma bind_Val (m : M A) (k : A -> M B) (st st' : Proc) (a : A) :
  m st = (Val a, st') -> bind m k st = k a st'.
Proof. intros H. unfold bind. now rewrite H. Qed.

Lemma bind_Exit (m : M A) (k : A -> M B) (st st' : Proc) (c : Z) :
  m st = (Exit c, st') -> bind m k st = (Exit c, st').
Proof. intros H. unfold bind. now rewrite H. Qed.

Lemma bind_Undefined (m : M A) (k : A -> M B) (st st' : Proc) :
  m st = (Undefined, st') -> bind m k st = (Undefined, st').
Proof. intros H. unfold bind. now rewrite H. Qed.

End MonadFacts.

Lemma vec_at_Some {A} (v : list A) (d : Z) (x : A) (st : Proc) :
  0 <= d -> v !! Z.to_nat d = Some x -> vec_at v d st = (Val x, st).
Proof.
  intros Hd Hx. unfold vec_at.
  destruct (Z.ltb_spec d 0) as [?|_]; [lia |]. now rewrite Hx.
Qed.

Lemma vec_at_None {A} (v : list A) (d : Z) (st : Proc) :
  v !! Z.to_nat d = None -> vec_at v d st = (@Undefined A, st).
Proof.
  intros Hx. unfold vec_at. destruct (d <? 0); [reflexivity |]. now rewrite Hx.
Qed.

(** ** The mount table check *)

Lemma check_mount_short (m_to_c : gmap string string) (mount : string) (st : Proc) :
  (length (split mount) < 2)%nat ->
  check_mount m_to_c mount st = (Undefined, st).
Proof.
  intros Hlen. unfold check_mount.
  apply bind_Undefined, vec_at_None. simpl.
  apply lookup_ge_None. lia.
Qed.

Lemma check_mount_skipped (m_to_c : gmap string string) (mount : string) (st : Proc) :
  (2 <= length (split mount))%nat -> kept (split mount) = false ->
  check_mount m_to_c mount st = (Val tt, st).
Proof.
  intros Hlen Hk. unfold check_mount, kept in *.
  destruct (split mount !! 1%nat) as [f1|] eqn:E1.
  - rewrite (bind_Val _ _ st st f1) by now apply vec_at_Some.
    apply orb_false_elim in Hk as [-> ->]. reflexivity.
  - apply lookup_ge_None in E1. lia.
Qed.

(** A record that is kept is looked up under the field at index [0] and
    compared on the field at index [1]. *)
Lemma check_mount_kept (m_to_c : gmap string string) (mount m c : string)
    (rest : list string) (st : Proc) :
  split mount = m :: c :: rest -> kept (split mount) = true ->
  check_mount m_to_c mount st =
    match m_to_c !! m with
    | None => error ("Mount '" +:+ m +:+ "' not found in map") st
    | Some second =>
        if String.eqb second c then (Val tt, st)
        else error ("Mount '" +:+ m +:+ "' expected mountpoint " +:+ c
                    +:+ " found " +:+ second) st
    end.
Proof.
  intros Hs Hk. unfold check_mount, kept in *. rewrite Hs in *. simpl in Hk.
  rewrite (bind_Val _ _ st st c) by now apply vec_at_Some.
  destruct (String.eqb c "nfs"), (String.eqb c "nfs4"); simpl in Hk |- *;
    try discriminate;
    (rewrite (bind_Val _ _ st st m) by now apply vec_at_Some);
    (rewrite (bind_Val _ _ st st c) by now apply vec_at_Some);
    destruct (m_to_c !! m) as [second|]; try reflexivity;
    destruct (String.eqb second c); reflexivity.
Qed.

Lemma check_mount_defined (m_to_c : gmap string string) (mount : string) (st : Proc) :
  (2 <= length (split mount))%nat ->
  fst (check_mount m_to_c mount st) <> Undefined.
Proof.
  intros Hlen.
  destruct (kept (split mount)) eqn:Hk.
  - destruct (split mount) as [|m [|c rest]] eqn:Hs; simpl in Hlen; try lia.
    rewrite (check_mount_kept m_to_c mount m c rest st Hs) by now rewrite Hs.
    destruct (m_to_c !! m) as [second|]; [destruct (String.eqb second c) |];
      simpl; discriminate.
  - rewrite check_mount_skipped by assumption. simpl. discriminate.
Qed.

Lemma scan_mounts_all_skipped (m_to_c : gmap string string) (mline : list string)
    (st : Proc) :
  Forall (fun mount => (2 <= length (split mount))%nat /\ kept (split mount) = false)
         mline ->
  scan_mounts m_to_c mline st = (Val tt, st).
Proof.
  induction 1 as [|mount rest [Hlen Hk] _ IH]; [reflexivity |].
  simpl. rewrite (bind_Val _ _ st st tt) by now apply check_mount_skipped.
  exact IH.
Qed.


(** C10.  The loop body reads [fields[1]], and for a record it keeps also
    [fields[0]], without looking at the number of fields.  The reads stay
    inside the vector exactly when the line splits into at least two
    pieces; a line with fewer pieces, the empty line for one, makes the
    first read fall outside it.  (The separator is the space character.) *)
Theorem field_access_in_bounds_iff_two_fields
    (m_to_c : gmap string string) (mount : string) (st : Proc) :
  (fst (check_mount m_to_c mount st) = Undefined
   <-> (length (split mount) < 2)%nat)
  /\ split "" = [""]
  /\ check_mount m_to_c "" st = (Undefined, st).
Proof.
  split; [split |].
  - intros HU. destruct (lt_dec (length (split mount)) 2) as [|Hge]; [assumption |].
    exfalso. apply (check_mount_defined m_to_c mount st); [lia | exact HU].
  - intros Hlt. now rewrite check_mount_short.
  - split; [reflexivity |]. apply check_mount_short. simpl. lia.
Qed.

(** A short line anywhere in the table is reached when the records before
    it are passed over. *)
Lemma scan_mounts_short_line (m_to_c : gmap string string)
    (before after : list string) (mount : string) (st : Proc) :
  Forall (fun l => (2 <= length (split l))%nat /\ kept (split l) = false) before ->
  (length (split mount) < 2)%nat ->
  scan_mounts m_to_c (before ++ mount :: after) st = (Undefined, st).
Proof.
  intros Hb Hshort. induction Hb as [|l before [Hlen Hk] _ IH]; simpl.
  - now rewrite (bind_Undefined _ _ st st) by now apply check_mount_short.
  - rewrite (bind_Val _ _ st st tt) by now apply check_mount_skipped.
    exact IH.
Qed.

(** C4, evaluated.  The test that decides whether a record is checked reads
    the field at index [1], the mount point, and not the field at index
    [2], the file system type: an NFS record of a device that no pair
    exports is passed over, and a local file system mounted on a directory
    called [nfs] is checked and reported. *)
Theorem filter_reads_mount_point_field (m_to_c : gmap string string) (st : Proc) :
  split Scenario.untracked_nfs !! 2%nat = Some "nfs"
  /\ check_mount m_to_c Scenario.untracked_nfs st = (Val tt, st)
  /\ split Scenario.local_on_nfs !! 2%nat = Some "ext4"
  /\ check_mount ∅ Scenario.local_on_nfs st
     = (Exit 1, log st [EvStderr ("Mount '/dev/sdb1' not found in map" +:+ nl)]).
Proof.
  split; [reflexivity |]. split; [| split; [reflexivity |]].
  - apply check_mount_skipped; [simpl; lia | reflexivity].
  - rewrite (check_mount_kept ∅ Scenario.local_on_nfs "/dev/sdb1" "nfs"
               ["ext4"; "rw"; "0"; "0"] st) by reflexivity.
    rewrite lookup_empty. reflexivity.
Qed.

(** C5, evaluated.  Four pairs, every mount succeeds, and the live mount
    table has one NFS record whose device is the server directory of pair
    [3] and whose mount point is some other directory.  The run reads the
    table, prints no diagnostic and ends with status [0]. *)
Theorem wrong_mount_point_goes_unreported :
  let w := Scenario.wrong_mountpoint in
  let r := main w (Scenario.ctx 4 false) (initial w) in
  fst r = Val 0
  /\ occurrences EvReadMounts (trace (snd r)) = 1%nat
  /\ List.filter is_stderr (trace (snd r)) = [].
Proof. vm_compute. repeat split. Qed.

(** C1, evaluated.  Two pairs, everything works, and a [SIGINT] arrives
    after [main] has called the cleanup closure and before it returns.
    [main] did not reset [cleanup], so the handler finds it set and calls
    the closure again: two unmounts, two removals of the export file, the
    export table activated once and re-activated twice, and the temporary
    root deleted by both calls and once more by the destructor. *)
Theorem cleanup_runs_again_on_late_sigint :
  let w := Scenario.calm in
  let r := main_with_sigint w (Scenario.ctx 2 false) AfterCleanupCall (initial w) in
  fst r = Val 0
  /\ occurrences (EvSystem umount_cmdline) (trace (snd r)) = 2%nat
  /\ occurrences (EvRemove exports) (trace (snd r)) = 2%nat
  /\ occurrences (EvSystem (exportfs_path w +:+ " -ra")) (trace (snd r)) = 3%nat
  /\ occurrences (EvRemoveAll Scenario.root) (trace (snd r)) = 3%nat.
Proof. vm_compute. repeat split. Qed.

(** The other order is the one the handler takes care of: after it has run
    the closure it resets [cleanup], and the end of [main] does nothing. *)
Lemma sig_handler_consumes_cleanup (w : World) (st st' : Proc) :
  sig_handler w st = (Val tt, st') ->
  cleanup_set st' = false /\ main_cleanup w st' = (Val tt, st')
  /\ sig_handler w st' = (Val tt, st').
Proof.
  unfold sig_handler, main_cleanup, bind, get.
  destruct (cleanup_set st) eqn:Hc.
  - destruct (cleanup_fn w st) as [[[]| | | |] st1]; try discriminate.
    unfold set_cleanup. intros [= <-]. simpl. auto.
  - unfold ret. intros [= <-]. rewrite Hc. auto.
Qed.

(** The closure touches neither [cleanup] nor [tdobj], however it ends. *)
Lemma bind_keeps {A B X} (f : Proc -> X) (m : M A) (k : A -> M B) :
  (forall st, f (snd (m st)) = f st) ->
  (forall a st, f (snd (k a st)) = f st) ->
  forall st, f (snd (bind m k st)) = f st.
Proof.
  intros Hm Hk st. unfold bind. specialize (Hm st).
  destruct (m st) as [[a|e|c| |] st1]; simpl in *; auto.
  now rewrite Hk.
Qed.

Lemma remove_file_keeps (w : World) (p : string) (st : Proc) :
  cleanup_set (snd (remove_file w p st)) = cleanup_set st
  /\ tdobj (snd (remove_file w p st)) = tdobj st
  /\ exportfs_runs (snd (remove_file w p st)) = exportfs_runs st
  /\ dirs (snd (remove_file w p st)) = dirs st.
Proof.
  cbv [remove_file now bind get emit set_files throw].
  destruct (remove_failure w (length (trace st))); repeat split.
Qed.

Lemma remove_all_keeps (w : World) (p : string) (st : Proc) :
  cleanup_set (snd (remove_all w p st)) = cleanup_set st
  /\ tdobj (snd (remove_all w p st)) = tdobj st
  /\ exportfs_runs (snd (remove_all w p st)) = exportfs_runs st.
Proof.
  cbv [remove_all now bind get emit set_dirs set_files throw].
  destruct (bool_decide _); [repeat split |].
  destruct (remove_all_failure w (length (trace st))) as [[what gone]|];
    repeat split.
Qed.

Lemma DeleteNow_keeps (w : World) (st : Proc) :
  cleanup_set (snd (DeleteNow w st)) = cleanup_set st
  /\ tdobj (snd (DeleteNow w st)) = tdobj st
  /\ exportfs_runs (snd (DeleteNow w st)) = exportfs_runs st.
Proof.
  unfold DeleteNow, bind, get.
  destruct (negb (preserve_ (tdobj st)) && negb (String.eqb (dir_ (tdobj st)) ""))%bool;
    [apply remove_all_keeps | repeat split].
Qed.

Lemma umount_all_keeps (w : World) (st : Proc) :
  cleanup_set (snd (umount_all w st)) = cleanup_set st
  /\ tdobj (snd (umount_all w st)) = tdobj st
  /\ exportfs_runs (snd (umount_all w st)) = exportfs_runs st
  /\ dirs (snd (umount_all w st)) = dirs st
  /\ files (snd (umount_all w st)) = files st.
Proof.
  cbv [umount_all now bind get emit throw ret].
  destruct (umount_failure w (length (trace st))); repeat split.
Qed.

Lemma exportfs_keeps (w : World) (st : Proc) :
  cleanup_set (snd (exportfs w st)) = cleanup_set st
  /\ tdobj (snd (exportfs w st)) = tdobj st
  /\ dirs (snd (exportfs w st)) = dirs st
  /\ files (snd (exportfs w st)) = files st.
Proof.
  cbv [exportfs error_sys bind count_exportfs emit ret exit_].
  destruct (negb (exportfs_ec w (exportfs_runs st) =? 0)); repeat split.
Qed.

Lemma cleanup_fn_keeps (w : World) (st : Proc) :
  cleanup_set (snd (cleanup_fn w st)) = cleanup_set st
  /\ tdobj (snd (cleanup_fn w st)) = tdobj st.
Proof.
  unfold cleanup_fn. split.
  - revert st. apply bind_keeps; [apply umount_all_keeps | intros _].
    apply bind_keeps; [apply remove_file_keeps | intros _].
    apply bind_keeps; [apply exportfs_keeps | intros _].
    apply DeleteNow_keeps.
  - revert st. apply bind_keeps; [apply umount_all_keeps | intros _].
    apply bind_keeps; [apply remove_file_keeps | intros _].
    apply bind_keeps; [apply exportfs_keeps | intros _].
    apply DeleteNow_keeps.
Qed.

(** The end of [main] leaves [cleanup] as it found it. *)
Lemma main_cleanup_keeps_cleanup (w : World) (st st' : Proc) :
  cleanup_set st = true -> main_cleanup w st = (Val tt, st') ->
  cleanup_set st' = true.
Proof.
  unfold main_cleanup, bind, get. intros Hc. rewrite Hc. intros E.
  pose proof (proj1 (cleanup_fn_keeps w st)) as H. rewrite E in H.
  simpl in H. congruence.
Qed.

(** C2, evaluated.  Two pairs, and [exportfs] fails when the export table
    is to be activated.  The process ends with status [1] from inside
    [error_sys]: no mount was tried, and nothing of the cleanup has
    happened: no unmount, the export file and the temporary root with the
    server directories are still there. *)
Theorem fatal_exit_skips_cleanup :
  let w := Scenario.no_exportfs in
  let r := main w (Scenario.ctx 2 false) (initial w) in
  fst r = Exit 1
  /\ occurrences (EvSystem umount_cmdline) (trace (snd r)) = 0%nat
  /\ occurrences (EvRemove exports) (trace (snd r)) = 0%nat
  /\ List.filter is_remove_all (trace (snd r)) = []
  /\ occurrences
       (EvSystem (mount_cmdline w (Scenario.root +:+ "/mount/d0000")
                                  (Scenario.root +:+ "/client/d0000")))
       (trace (snd r)) = 0%nat
  /\ bool_decide (Scenario.root ∈ dirs (snd r)) = true
  /\ bool_decide (Scenario.root +:+ "/mount/d0001" ∈ dirs (snd r)) = true
  /\ bool_decide (is_Some (files (snd r) !! exports)) = true.
Proof. vm_compute. repeat split. Qed.

(** ** The cleanup closure and the preservation switch *)

Lemma is_under_refl (p : string) : is_under p p = true.
Proof. unfold is_under. now rewrite String.eqb_refl. Qed.

(** What the steps of the closure do when they do not throw. *)
Lemma umount_all_ok (w : World) (st : Proc) :
  umount_failure w (length (trace st)) = None ->
  umount_all w st = (Val tt, log st [EvSystem umount_cmdline]).
Proof. intros H. cbv [umount_all now bind get emit throw ret]. now rewrite H. Qed.

Lemma remove_file_ok (w : World) (p : string) (st : Proc) :
  remove_failure w (length (trace st)) = None ->
  remove_file w p st
  = (Val tt, log (upd_files st (delete p (files st))) [EvRemove p]).
Proof.
  intros H. cbv [remove_file now bind get emit set_files throw]. now rewrite H.
Qed.

Lemma upd_same (st : Proc) : upd_files (upd_dirs st (dirs st)) (files st) = st.
Proof. now destruct st. Qed.

Lemma nothing_below_filter (p : string) (st : Proc) :
  set_Forall (fun q => is_under p q = false) (dirs st ∪ dom (files st)) ->
  filter (fun q => is_under p q = false) (dirs st) = dirs st
  /\ filter (fun kv : string * string => is_under p (fst kv) = false) (files st)
     = files st.
Proof.
  intros Hall. split.
  - apply set_eq. intros q. rewrite elem_of_filter. split; [tauto |].
    intros Hq. split; [| assumption]. apply Hall, elem_of_union. now left.
  - apply map_filter_id. intros q x Hq. simpl.
    apply Hall, elem_of_union. right. apply elem_of_dom. now exists x.
Qed.

(** A call of [remove_all] that returns has left nothing at or below its
    argument and has touched nothing else. *)
Lemma remove_all_returns (w : World) (p : string) (st st' : Proc) :
  remove_all w p st = (Val tt, st') ->
  st' = log (upd_files
               (upd_dirs st (filter (fun q => is_under p q = false) (dirs st)))
               (filter (fun kv => is_under p (fst kv) = false) (files st)))
            [EvRemoveAll p].
Proof.
  cbv [remove_all now bind get emit set_dirs set_files throw].
  destruct (bool_decide_reflect
              (set_Forall (fun q => is_under p q = false)
                          (dirs st ∪ dom (files st)))) as [Hall|_].
  - intros [= <-]. destruct (nothing_below_filter p st Hall) as [-> ->].
    now rewrite upd_same.
  - destruct (remove_all_failure w (length (trace st))) as [[what gone]|];
      [discriminate |].
    now intros [= <-].
Qed.

Lemma remove_all_ok (w : World) (p : string) (st : Proc) :
  remove_all_failure w (length (trace st)) = None ->
  remove_all w p st
  = (Val tt,
     log (upd_files
            (upd_dirs st (filter (fun q => is_under p q = false) (dirs st)))
            (filter (fun kv => is_under p (fst kv) = false) (files st)))
         [EvRemoveAll p]).
Proof.
  intros H.
  destruct (remove_all w p st) as [r st'] eqn:E.
  assert (Hr : r = Val tt).
  { revert E. cbv [remove_all now bind get emit set_dirs set_files throw].
    destruct (bool_decide _); [now intros [= <- _] |].
    rewrite H. now intros [= <- _]. }
  subst r. now rewrite (remove_all_returns w p st st' E).
Qed.

(** C9, evaluated.  Two pairs, preservation not asked for, and [exportfs]
    works when the table is activated and reports an error when the
    closure runs it again.  The closure has unmounted and removed the
    export file; then the process ends with status [1] from inside
    [error_sys], and the temporary root with all that is below it is
    still on disk: nothing was deleted recursively. *)
Theorem cleanup_keeps_root_when_exportfs_fails :
  let w := Scenario.late_exportfs_failure in
  let ctx := Scenario.ctx 2 false in
  let r := main w ctx (initial w) in
  preserve_temp ctx = false
  /\ fst r = Exit 1
  /\ occurrences (EvSystem umount_cmdline) (trace (snd r)) = 1%nat
  /\ occurrences (EvRemove exports) (trace (snd r)) = 1%nat
  /\ occurrences (EvSystem (exportfs_path w +:+ " -ra")) (trace (snd r)) = 2%nat
  /\ List.filter is_remove_all (trace (snd r)) = []
  /\ bool_decide (Scenario.root ∈ dirs (snd r)) = true
  /\ bool_decide (Scenario.root +:+ "/mount/d0001" ∈ dirs (snd r)) = true
  /\ bool_decide (Scenario.root +:+ "/client/d0000" ∈ dirs (snd r)) = true.
Proof. vm_compute. repeat split. Qed.

(** ** Paths *)

Lemma path_append_relative (p q : string) :
  is_absolute q = false -> path_append p q = with_separator p +:+ q.
Proof.
  intros Hq. unfold path_append, with_separator. rewrite Hq.
  destruct (has_filename p); [| reflexivity].
  now rewrite append_assoc.
Qed.

Lemma last_char_append (p q : string) :
  q <> "" -> last_char (p +:+ q) = last_char q.
Proof.
  intros Hq. induction p as [|c p IH]; [reflexivity |].
  rewrite append_cons. simpl. rewrite IH.
  destruct (p +:+ q) eqn:E; [| reflexivity].
  destruct p; [now destruct q | discriminate].
Qed.

Lemma has_filename_append (p q : string) :
  q <> "" -> has_filename (p +:+ q) = has_filename q.
Proof. intros Hq. unfold has_filename. now rewrite last_char_append. Qed.

Lemma is_absolute_dir_name (d : Z) : is_absolute (dir_name d) = false.
Proof. reflexivity. Qed.

Lemma path_append_dir_name_inj (parent : string) (d1 d2 : Z) :
  0 <= d1 -> 0 <= d2 ->
  path_append parent (dir_name d1) = path_append parent (dir_name d2) -> d1 = d2.
Proof.
  intros H1 H2. rewrite !path_append_relative by apply is_absolute_dir_name.
  intros E. apply append_inv_head in E. now apply dir_name_inj.
Qed.

Lemma seqZ_succ (d : Z) (k : nat) :
  seqZ d (Z.of_nat (S k)) = d :: seqZ (d + 1) (Z.of_nat k).
Proof.
  rewrite seqZ_cons by lia. f_equal. f_equal; lia.
Qed.

Lemma numbered_succ (parent : string) (d : Z) (k : nat) :
  numbered parent d (S k)
  = path_append parent (dir_name d) :: numbered parent (d + 1) k.
Proof. unfold numbered. now rewrite seqZ_succ. Qed.

Lemma numbered_length (parent : string) (d : Z) (k : nat) :
  length (numbered parent d k) = k.
Proof. unfold numbered. rewrite length_fmap, length_seqZ. lia. Qed.

Lemma numbered_lookup (parent : string) (d : Z) (k i : nat) :
  (i < k)%nat ->
  numbered parent d k !! i = Some (path_append parent (dir_name (d + Z.of_nat i))).
Proof.
  intros Hi. unfold numbered. rewrite list_lookup_fmap, lookup_seqZ_lt by lia.
  reflexivity.
Qed.

Lemma elem_of_numbered (parent : string) (d : Z) (k : nat) (p : string) :
  p ∈ numbered parent d k <->
  exists i, d <= i < d + Z.of_nat k /\ p = path_append parent (dir_name i).
Proof.
  unfold numbered. rewrite list_elem_of_fmap. setoid_rewrite elem_of_seqZ.
  split; intros (i & H1 & H2); exists i; auto.
Qed.

Lemma NoDup_numbered (parent : string) (d : Z) (k : nat) :
  0 <= d -> NoDup (numbered parent d k).
Proof.
  intros Hd. unfold numbered. apply NoDup_fmap_2_strong; [| apply NoDup_seqZ].
  intros i j Hi Hj E. apply elem_of_seqZ in Hi, Hj.
  apply (path_append_dir_name_inj parent); [lia | lia | exact E].
Qed.

Lemma prefix_append (a b : string) : String.prefix a (a +:+ b) = true.
Proof.
  induction a as [|c a IH]; [now destruct b |].
  rewrite append_cons. simpl. now destruct (ascii_dec c c).
Qed.

Lemma prefix_append_head (a b c : string) :
  String.prefix (a +:+ b) (a +:+ c) = String.prefix b c.
Proof.
  induction a as [|x a IH]; [reflexivity |].
  rewrite !append_cons. simpl. now destruct (ascii_dec x x).
Qed.

Lemma prefix_length (a b : string) :
  String.prefix a b = true -> (String.length a <= String.length b)%nat.
Proof.
  revert b. induction a as [|x a IH]; intros b H; simpl; [lia |].
  destruct b as [|y b]; simpl in H; [discriminate |].
  destruct (ascii_dec x y); [| discriminate].
  specialize (IH b H). simpl. lia.
Qed.

Lemma eqb_append_head (a b c : string) :
  String.eqb (a +:+ b) (a +:+ c) = String.eqb b c.
Proof.
  induction a as [|x a IH]; [reflexivity |].
  rewrite !append_cons. simpl. now rewrite Ascii.eqb_refl.
Qed.

Lemma with_separator_length (p : string) :
  (String.length p <= String.length (with_separator p))%nat.
Proof.
  unfold with_separator. destruct (has_filename p); [| lia].
  rewrite length_append. lia.
Qed.

Lemma is_under_path_append (p q : string) :
  is_absolute q = false -> is_under p (path_append p q) = true.
Proof.
  intros Hq. rewrite path_append_relative by assumption.
  unfold is_under. fold (with_separator p).
  rewrite prefix_append. apply orb_true_r.
Qed.

Lemma path_append_not_self (p q : string) :
  is_absolute q = false -> q <> "" -> path_append p q <> p.
Proof.
  intros Hq Hne. unfold path_append. rewrite Hq.
  destruct (has_filename p); apply append_not_self; [discriminate | assumption].
Qed.

(** A path that is longer than [q] is neither [q] nor above it. *)
Lemma is_under_longer (p q : string) :
  (String.length q < String.length p)%nat -> is_under p q = false.
Proof.
  intros Hlen. unfold is_under. fold (with_separator p).
  apply orb_false_intro.
  - apply String.eqb_neq. intros ->. lia.
  - destruct (String.prefix (with_separator p) q) eqn:E; [| reflexivity].
    apply prefix_length in E. pose proof (with_separator_length p). lia.
Qed.

(** Two entries of one directory whose names differ in the first
    character, and what lies below them, are apart. *)
Lemma is_under_sibling (s a b rest : string) (x y : ascii) :
  x <> y -> has_filename (s +:+ String x a) = true ->
  is_under (s +:+ String x a) (s +:+ String y b +:+ rest) = false.
Proof.
  intros Hxy Hf. unfold is_under. rewrite Hf.
  rewrite !append_assoc, eqb_append_head, prefix_append_head.
  rewrite !append_cons. simpl.
  rewrite (proj2 (Ascii.eqb_neq x y) Hxy).
  now destruct (ascii_dec x y).
Qed.

(** The two subtrees are apart. *)
Lemma subtree_shape (tmpdir top : string) (c : ascii) (d : Z) (k : nat) (q : string) :
  is_absolute (String c top) = false ->
  has_filename (String c top) = true ->
  q = path_append tmpdir (String c top)
  \/ q ∈ numbered (path_append tmpdir (String c top)) d k ->
  exists rest, q = with_separator tmpdir +:+ String c top +:+ rest.
Proof.
  intros Ha Hf [->|Hq].
  - exists "". now rewrite append_nil_r, path_append_relative.
  - apply elem_of_numbered in Hq as (i & _ & ->).
    rewrite (path_append_relative _ (dir_name i)) by apply is_absolute_dir_name.
    rewrite path_append_relative by assumption.
    unfold with_separator at 1.
    rewrite has_filename_append by discriminate. rewrite Hf.
    exists (String slash "" +:+ dir_name i). now rewrite !append_assoc.
Qed.

Lemma subtrees_apart (tmpdir a b : string) (x y : ascii) (d : Z) (k : nat) (q : string) :
  x <> y ->
  is_absolute (String x a) = false -> has_filename (String x a) = true ->
  is_absolute (String y b) = false -> has_filename (String y b) = true ->
  q = path_append tmpdir (String y b)
  \/ q ∈ numbered (path_append tmpdir (String y b)) d k ->
  is_under (path_append tmpdir (String x a)) q = false.
Proof.
  intros Hxy Hax Hfx Hay Hfy Hq.
  destruct (subtree_shape tmpdir b y d k q Hay Hfy Hq) as (rest & ->).
  rewrite path_append_relative by assumption.
  apply is_under_sibling; [assumption |].
  now rewrite has_filename_append by discriminate.
Qed.

Lemma client_apart_from_mount (tmpdir : string) (d : Z) (k : nat) (q : string) :
  q = path_append tmpdir "client" \/ q ∈ numbered (path_append tmpdir "client") d k ->
  is_under (path_append tmpdir "mount") q = false.
Proof. apply subtrees_apart; (discriminate || reflexivity). Qed.

Lemma mount_apart_from_client (tmpdir : string) (d : Z) (k : nat) (q : string) :
  q = path_append tmpdir "mount" \/ q ∈ numbered (path_append tmpdir "mount") d k ->
  is_under (path_append tmpdir "client") q = false.
Proof. apply subtrees_apart; (discriminate || reflexivity). Qed.

(** ** Allocation *)

Section Allocation.

Variable w : World.
Variable ctx : Context.
Hypothesis mkdir_ok : forall p, mkdir_errno w p = 0.

Lemma create_directory_fresh (p : string) (st : Proc) :
  p ∉ dirs st ->
  create_directory w p st
  = (Val (true, 0), log (upd_dirs st ({[p]} ∪ dirs st)) [EvMkdir p]).
Proof.
  intros Hp. unfold create_directory, bind, get. simpl.
  destruct (decide (p ∈ dirs st)); [contradiction |].
  now rewrite mkdir_ok.
Qed.

Lemma create_dirs_fresh (parent failmsg : string) (k : nat) :
  forall (d : Z) (st : Proc),
    NoDup (numbered parent d k) ->
    (forall p, p ∈ numbered parent d k -> p ∉ dirs st) ->
    create_dirs w parent failmsg k d st
    = (Val (numbered parent d k),
       log (upd_dirs st (list_to_set (numbered parent d k) ∪ dirs st))
           (EvMkdir <$> numbered parent d k)).
Proof.
  induction k as [|k IH]; intros d st Hnd Hfresh.
  - simpl. unfold ret, log, upd_dirs. simpl. f_equal.
    destruct st; simpl. f_equal; [symmetry; apply (left_id_L ∅ (∪)) | now rewrite app_nil_r].
  - rewrite numbered_succ in Hnd, Hfresh |- *.
    set (p0 := path_append parent (dir_name d)) in *.
    apply NoDup_cons in Hnd as [Hhd Hnd].
    assert (Hp0 : p0 ∉ dirs st) by (apply Hfresh; left).
    cbn [create_dirs]. fold p0.
    rewrite (bind_Val _ _ _ _ _ (create_directory_fresh p0 st Hp0)).
    cbn [fst snd negb].
    assert (Hfresh' : forall p, p ∈ numbered parent (d + 1) k ->
              p ∉ dirs (log (upd_dirs st ({[p0]} ∪ dirs st)) [EvMkdir p0])).
    { intros p Hp Hin. simpl in Hin. apply elem_of_union in Hin as [Hin|Hin].
      - apply elem_of_singleton in Hin as ->. contradiction.
      - revert Hin. apply Hfresh. now right. }
    rewrite (bind_Val _ _ _ _ _ (IH (d + 1) _ Hnd Hfresh')).
    unfold ret, log, upd_dirs. simpl. f_equal. f_equal.
    + rewrite (assoc_L (∪)).
      now rewrite (comm_L (∪) (list_to_set _) {[p0]}).
    + now rewrite <- app_assoc.
Qed.


Lemma numbered_under (parent : string) (d : Z) (k : nat) (p : string) :
  p ∈ numbered parent d k -> is_under parent p = true /\ p <> parent.
Proof.
  intros (i & _ & ->)%elem_of_numbered. split.
  - now apply is_under_path_append.
  - now apply path_append_not_self.
Qed.

Lemma under_root_or_numbered (parent : string) (d : Z) (k : nat) (q : string) :
  q = parent \/ q ∈ numbered parent d k -> is_under parent q = true.
Proof.
  intros [->|Hq]; [apply is_under_refl |].
  now apply numbered_under in Hq as [Hu _].
Qed.

(** One subtree: its root, then the numbered directories. *)
Lemma alloc_subtree (parent rootmsg failmsg : string) (st : Proc) :
  fresh_below parent st ->
  (r <- create_directory w parent ;;
   if negb (fst r)
   then error_sys w (snd r) (rootmsg +:+ parent)
   else create_dirs w parent failmsg (rounds ctx) 0) st
  = (Val (numbered parent 0 (rounds ctx)),
     log (upd_dirs st (list_to_set (numbered parent 0 (rounds ctx))
                       ∪ ({[parent]} ∪ dirs st)))
         (EvMkdir parent :: (EvMkdir <$> numbered parent 0 (rounds ctx)))).
Proof.
  intros Hfresh.
  assert (Hroot : parent ∉ dirs st).
  { intros Hin. apply Hfresh in Hin. rewrite is_under_refl in Hin. discriminate. }
  rewrite (bind_Val _ _ _ _ _ (create_directory_fresh parent st Hroot)).
  cbn [fst snd negb].
  rewrite create_dirs_fresh.
  - unfold log, upd_dirs. simpl. now rewrite <- app_assoc.
  - apply NoDup_numbered. lia.
  - intros p Hp Hin. apply numbered_under in Hp as [Hu Hne].
    simpl in Hin. apply elem_of_union in Hin as [Hin|Hin].
    + now apply elem_of_singleton in Hin.
    + apply Hfresh in Hin. congruence.
Qed.

End Allocation.

Lemma dir_name_padded (d : Z) :
  0 <= d -> dir_name d = "d" +:+ zero_pad 4 (dec_digits (Z.to_N d)).
Proof.
  intros Hd. unfold dir_name, fmt_04d, fmt_signed.
  now destruct (Z.ltb_spec d 0); [lia |].
Qed.

Lemma fresh_client_after_server (tmpdir : string) (k : nat) (st st' : Proc) :
  fresh_below (path_append tmpdir "client") st ->
  dirs st' = list_to_set (numbered (path_append tmpdir "mount") 0 k)
             ∪ ({[path_append tmpdir "mount"]} ∪ dirs st) ->
  fresh_below (path_append tmpdir "client") st'.
Proof.
  intros Hfc Hd q Hq. rewrite Hd, !elem_of_union in Hq.
  rewrite elem_of_list_to_set, elem_of_singleton in Hq.
  destruct Hq as [Hq|[Hq|Hq]].
  - apply (mount_apart_from_client tmpdir 0 k). now right.
  - apply (mount_apart_from_client tmpdir 0 k). now left.
  - now apply Hfc.
Qed.

Lemma length_zeros (k : nat) : String.length (zeros k) = k.
Proof. induction k as [|k IH]; [reflexivity |]. simpl. now rewrite IH. Qed.

Lemma length_zero_pad (width : nat) (s : string) :
  String.length (zero_pad width s) = Nat.max width (String.length s).
Proof. unfold zero_pad. rewrite length_append, length_zeros. lia. Qed.

Lemma holds_from_all (P : Z -> bool) (k : nat) :
  forall d, holds_from P k d = true ->
            forall i, d <= i < d + Z.of_nat k -> P i = true.
Proof.
  induction k as [|k IH]; intros d H i Hi; [lia |].
  cbn [holds_from] in H. apply andb_true_iff in H as [H0 H1].
  destruct (Z.eq_dec i d) as [->|Hne]; [assumption |].
  apply (IH (d + 1) H1). lia.
Qed.

(** Below index 10000 the name is [d] and four digits. *)
Lemma dir_name_four_digits (d : Z) :
  0 <= d < 10000 -> String.length (dir_name d) = 5%nat.
Proof.
  intros Hd.
  assert (Hall : holds_from (fun i => (String.length (dir_name i) =? 5)%nat)
                   (Z.to_nat 10000) 0 = true) by (vm_compute; reflexivity).
  apply Nat.eqb_eq. apply (holds_from_all _ _ _ Hall). lia.
Qed.

(** C6, amended.  On a machine that lets the directories be made, and with
    nothing at or below [mount] and [client] yet, the two allocation steps
    return for every [N >= 0], and what they leave is exactly this: the
    directories on disk are those of before, the two roots and, below
    each root, the [N] numbered directories, none of which existed before;
    the trace has grown by one [mkdir] for the server root, one for each
    of the [N] server directories in order of index, then the same for the
    client side; no file has changed.  The directory of index [d] is
    named [d] followed by the index in decimal, filled with zeros to a
    width of at least four: exactly four digits below index 10000 (index
    7 gives [d0007]), never fewer, and the index can be read back from
    the name.  Pair [d] has the directories at index [d] of the two
    vectors, and all [2N] directories are different. *)
Theorem allocation_makes_numbered_pairs
    (w : World) (ctx : Context) (tmpdir : string) (st : Proc) :
  0 <= threads ctx ->
  (forall p, mkdir_errno w p = 0) ->
  fresh_below (path_append tmpdir "mount") st ->
  fresh_below (path_append tmpdir "client") st ->
  let n := threads ctx in
  let mountdir := path_append tmpdir "mount" in
  let clientdir := path_append tmpdir "client" in
  let mdir := server_dirs tmpdir n in
  let cdir := client_dirs tmpdir n in
  exists st1 st2,
    alloc_server w ctx tmpdir st = (Val mdir, st1)
    /\ alloc_client w ctx tmpdir st1 = (Val cdir, st2)
    /\ length mdir = Z.to_nat n /\ length cdir = Z.to_nat n
    /\ (forall d, 0 <= d < n ->
          mdir !! Z.to_nat d
          = Some (path_append mountdir ("d" +:+ zero_pad 4 (dec_digits (Z.to_N d))))
          /\ cdir !! Z.to_nat d
             = Some (path_append clientdir ("d" +:+ zero_pad 4 (dec_digits (Z.to_N d))))
          /\ dec_value (zero_pad 4 (dec_digits (Z.to_N d))) = Some (Z.to_N d)
          /\ (4 <= String.length (zero_pad 4 (dec_digits (Z.to_N d))))%nat
          /\ (d < 10000 ->
              String.length (zero_pad 4 (dec_digits (Z.to_N d))) = 4%nat))
    /\ dir_name 7 = "d0007"
    /\ NoDup (mdir ++ cdir)%list
    /\ (forall p, p ∈ (mdir ++ cdir)%list -> p ∉ dirs st)
    /\ dirs st2 = list_to_set cdir ∪ ({[clientdir]}
                  ∪ (list_to_set mdir ∪ ({[mountdir]} ∪ dirs st)))
    /\ files st2 = files st
    /\ trace st2 = (trace st ++ EvMkdir mountdir :: (EvMkdir <$> mdir)
                    ++ EvMkdir clientdir :: (EvMkdir <$> cdir))%list
    /\ (forall q, q ∈ dirs st2 ->
          (is_under mountdir q = true <-> q = mountdir \/ q ∈ mdir)
          /\ (is_under clientdir q = true <-> q = clientdir \/ q ∈ cdir)).
Proof.
  intros Hn Hmk Hfm Hfc n mountdir clientdir mdir cdir.
  subst n mountdir clientdir mdir cdir. unfold server_dirs, client_dirs.
  change (Z.to_nat (threads ctx)) with (rounds ctx).
  eexists _, _.
  split; [apply (alloc_subtree w ctx Hmk (path_append tmpdir "mount") _ _ st Hfm) |].
  assert (Hfc1 : fresh_below (path_append tmpdir "client")
            (log (upd_dirs st
                    (list_to_set (numbered (path_append tmpdir "mount") 0 (rounds ctx))
                     ∪ ({[path_append tmpdir "mount"]} ∪ dirs st)))
                 (EvMkdir (path_append tmpdir "mount")
                  :: (EvMkdir <$> numbered (path_append tmpdir "mount") 0 (rounds ctx)))))
    by now apply (fresh_client_after_server tmpdir (rounds ctx) st).
  split; [apply (alloc_subtree w ctx Hmk (path_append tmpdir "client") _ _ _ Hfc1) |].
  split; [apply numbered_length |]. split; [apply numbered_length |].
  split; [| split; [reflexivity |]; split; [| split; [| split; [| split; [| split]]]]].
  - intros d Hd. rewrite <- dir_name_padded by lia.
    rewrite !numbered_lookup by (unfold rounds; lia).
    rewrite Z2Nat.id by lia. split; [reflexivity |]. split; [reflexivity |].
    split; [| split].
    + rewrite <- (dec_value_fmt_04d d) by lia.
      unfold fmt_04d, fmt_signed. now destruct (Z.ltb_spec d 0); [lia |].
    + rewrite length_zero_pad. lia.
    + intros Hlt.
      pose proof (dir_name_four_digits d ltac:(lia)) as H5.
      rewrite dir_name_padded, length_append in H5 by lia.
      simpl in H5. lia.
  - apply NoDup_app. repeat split; try (apply NoDup_numbered; lia).
    intros q Hm Hc.
    pose proof (numbered_under _ _ _ _ Hc) as [Hu _].
    rewrite (mount_apart_from_client tmpdir 0 (rounds ctx) q) in Hu by now right.
    discriminate.
  - intros p Hp Hin. apply elem_of_app in Hp as [Hp|Hp];
      apply numbered_under in Hp as [Hu _].
    + apply Hfm in Hin. congruence.
    + apply Hfc in Hin. congruence.
  - reflexivity.
  - reflexivity.
  - cbn [trace log upd_dirs]. rewrite <- app_assoc. reflexivity.
  - intros q Hq. simpl in Hq. rewrite !elem_of_union in Hq.
    rewrite !elem_of_list_to_set, !elem_of_singleton in Hq.
    assert (Hcases :
      forall bm bc,
        is_under (path_append tmpdir "mount") q = bm ->
        is_under (path_append tmpdir "client") q = bc ->
        (bm = true -> q = path_append tmpdir "mount"
                      \/ q ∈ numbered (path_append tmpdir "mount") 0 (rounds ctx)) ->
        (bc = true -> q = path_append tmpdir "client"
                      \/ q ∈ numbered (path_append tmpdir "client") 0 (rounds ctx)) ->
        (is_under (path_append tmpdir "mount") q = true
         <-> q = path_append tmpdir "mount"
             \/ q ∈ numbered (path_append tmpdir "mount") 0 (rounds ctx))
        /\ (is_under (path_append tmpdir "client") q = true
            <-> q = path_append tmpdir "client"
                \/ q ∈ numbered (path_append tmpdir "client") 0 (rounds ctx))).
    { intros bm bc Hm Hc Rm Rc. split; split.
      - intros E. apply Rm. congruence.
      - intros R. now apply under_root_or_numbered in R.
      - intros E. apply Rc. congruence.
      - intros R. now apply under_root_or_numbered in R. }
    destruct Hq as [Hq|[Hq|[Hq|[Hq|Hq]]]].
    + apply (Hcases false true); auto; try discriminate.
      * apply (client_apart_from_mount tmpdir 0 (rounds ctx)). now right.
      * apply (under_root_or_numbered _ 0 (rounds ctx)). now right.
    + apply (Hcases false true); auto; try discriminate.
      * apply (client_apart_from_mount tmpdir 0 (rounds ctx)). now left.
      * apply (under_root_or_numbered _ 0 (rounds ctx)). now left.
    + apply (Hcases true false); auto; try discriminate.
      * apply (under_root_or_numbered _ 0 (rounds ctx)). now right.
      * apply (mount_apart_from_client tmpdir 0 (rounds ctx)). now right.
    + apply (Hcases true false); auto; try discriminate.
      * apply (under_root_or_numbered _ 0 (rounds ctx)). now left.
      * apply (mount_apart_from_client tmpdir 0 (rounds ctx)). now left.
    + apply (Hcases false false); auto; discriminate.
Qed.

Lemma allocation_makes_numbered_pairs_witness :
  let w := Scenario.calm in
  let ctx := Scenario.ctx 3 false in
  let tmpdir := Scenario.root in
  let st := initial w in
  0 <= threads ctx
  /\ (forall p, mkdir_errno w p = 0)
  /\ fresh_below (path_append tmpdir "mount") st
  /\ fresh_below (path_append tmpdir "client") st
  /\ exists st1 st2,
       alloc_server w ctx tmpdir st = (Val (server_dirs tmpdir 3), st1)
       /\ alloc_client w ctx tmpdir st1 = (Val (client_dirs tmpdir 3), st2)
       /\ length (server_dirs tmpdir 3) = 3%nat
       /\ length (client_dirs tmpdir 3) = 3%nat
       /\ (forall d, 0 <= d < 3 ->
             server_dirs tmpdir 3 !! Z.to_nat d
             = Some (path_append (path_append tmpdir "mount")
                       ("d" +:+ zero_pad 4 (dec_digits (Z.to_N d))))
             /\ client_dirs tmpdir 3 !! Z.to_nat d
                = Some (path_append (path_append tmpdir "client")
                          ("d" +:+ zero_pad 4 (dec_digits (Z.to_N d))))
             /\ dec_value (zero_pad 4 (dec_digits (Z.to_N d))) = Some (Z.to_N d)
             /\ (4 <= String.length (zero_pad 4 (dec_digits (Z.to_N d))))%nat
             /\ (d < 10000 ->
                 String.length (zero_pad 4 (dec_digits (Z.to_N d))) = 4%nat))
       /\ dir_name 7 = "d0007"
       /\ NoDup (server_dirs tmpdir 3 ++ client_dirs tmpdir 3)%list
       /\ (forall p, p ∈ (server_dirs tmpdir 3 ++ client_dirs tmpdir 3)%list ->
             p ∉ dirs st)
       /\ dirs st2 = list_to_set (client_dirs tmpdir 3)
                     ∪ ({[path_append tmpdir "client"]}
                        ∪ (list_to_set (server_dirs tmpdir 3)
                           ∪ ({[path_append tmpdir "mount"]} ∪ dirs st)))
       /\ files st2 = files st
       /\ trace st2 = (trace st
                       ++ EvMkdir (path_append tmpdir "mount")
                          :: (EvMkdir <$> server_dirs tmpdir 3)
                       ++ EvMkdir (path_append tmpdir "client")
                          :: (EvMkdir <$> client_dirs tmpdir 3))%list
       /\ (forall q, q ∈ dirs st2 ->
             (is_under (path_append tmpdir "mount") q = true
              <-> q = path_append tmpdir "mount" \/ q ∈ server_dirs tmpdir 3)
             /\ (is_under (path_append tmpdir "client") q = true
                 <-> q = path_append tmpdir "client" \/ q ∈ client_dirs tmpdir 3)).
Proof.
  assert (Hfresh : forall p, is_under p Scenario.root = false ->
            fresh_below p (initial Scenario.calm)).
  { intros p Hp q Hq. simpl in Hq. now apply elem_of_singleton in Hq as ->. }
  split; [simpl; lia |]. split; [reflexivity |].
  split; [apply Hfresh; reflexivity |]. split; [apply Hfresh; reflexivity |].
  apply (allocation_makes_numbered_pairs Scenario.calm (Scenario.ctx 3 false)
           Scenario.root (initial Scenario.calm)).
  - simpl. lia.
  - reflexivity.
  - apply Hfresh. reflexivity.
  - apply Hfresh. reflexivity.
Defined.

(** C6, the claim as worded evaluated.  With 10001 pairs the allocation of
    the server side returns, and the directory of the last pair, index
    10000, is [d10000]: five digits after the [d], as is the client
    directory of the same pair.  The [04] of [{:04}] is a minimum width,
    so the names are four-digit only up to index 9999. *)
Theorem index_10000_has_five_digits :
  let w := Scenario.calm in
  let ctx := Scenario.ctx 10001 false in
  exists mdir st1,
    alloc_server w ctx Scenario.root (initial w) = (Val mdir, st1)
    /\ mdir !! Z.to_nat 10000 = Some "/tmp/paramount.Ab12Cd/mount/d10000"
    /\ client_dirs Scenario.root 10001 !! Z.to_nat 10000
       = Some "/tmp/paramount.Ab12Cd/client/d10000"
    /\ dir_name 9999 = "d9999"
    /\ dir_name 10000 = "d10000"
    /\ String.length (fmt_04d 10000) = 5%nat.
Proof.
  intros w ctx. eexists _, _. split.
  - apply (alloc_subtree w ctx (fun _ => eq_refl)).
    intros q Hq. simpl in Hq. now apply elem_of_singleton in Hq as ->.
  - change (rounds ctx) with (Z.to_nat 10001). unfold client_dirs.
    rewrite !numbered_lookup by lia. rewrite Z2Nat.id by lia.
    repeat split.
Qed.

(** ** The export table *)














Section Exports.

Variable w : World.
Variable ctx : Context.

Lemma export_loop_app (l : list string) :
  forall (pre : list string) (st : Proc),
    export_loop (pre ++ l) (length l) (Z.of_nat (length pre)) st
    = (Val (entries_text l (Z.of_nat (length pre)),
            fsid <$> seqZ (Z.of_nat (length pre)) (Z.of_nat (length l))), st).
Proof.
  induction l as [|md l IH]; intros pre st; [reflexivity |].
  cbn [length export_loop].
  rewrite (bind_Val _ _ st st md).
  2:{ apply vec_at_Some; [lia |]. rewrite Nat2Z.id. apply list_lookup_middle. reflexivity. }
  replace (Z.of_nat (length pre) + 1) with (Z.of_nat (length (pre ++ [md])))
    by (rewrite length_app; simpl; lia).
  replace (pre ++ md :: l)%list with ((pre ++ [md]) ++ l)%list
    by now rewrite <- app_assoc.
  rewrite (bind_Val _ _ _ _ _ (IH (pre ++ [md])%list st)).
  unfold ret. simpl. rewrite seqZ_succ.
  replace (Z.of_nat (length (pre ++ [md]))) with (Z.of_nat (length pre) + 1)
    by (rewrite length_app; simpl; lia).
  reflexivity.
Qed.

Lemma write_exports_ok (mdir : list string) (st : Proc) :
  exports_open_failure w = None ->
  length mdir = rounds ctx ->
  write_exports w ctx mdir st
  = (Val (fsid <$> seqZ 0 (Z.of_nat (rounds ctx))),
     log (upd_files st (<[exports := export_text mdir]> (files st)))
         [EvWrite exports (export_text mdir)]).
Proof.
  intros Hopen Hlen. unfold write_exports. rewrite Hopen, <- Hlen.
  rewrite (bind_Val _ _ _ _ _ (export_loop_app mdir [] st)).
  reflexivity.
Qed.

End Exports.




(** ** The whole run *)

Lemma log_nil (st : Proc) : log st [] = st.
Proof. destruct st. unfold log. simpl. now rewrite app_nil_r. Qed.

Lemma log_log (st : Proc) (a b : list event) :
  log (log st a) b = log st (a ++ b).
Proof. unfold log. simpl. now rewrite app_assoc. Qed.

Lemma vec_at_lt {A} (v : list A) (d : Z) (st : Proc) :
  0 <= d -> (Z.to_nat d < length v)%nat ->
  exists x, v !! Z.to_nat d = Some x /\ vec_at v d st = (Val x, st).
Proof.
  intros Hd Hlt. destruct (lookup_lt_is_Some_2 v (Z.to_nat d) Hlt) as [x Hx].
  exists x. split; [assumption | now apply vec_at_Some].
Qed.

Section WholeRun.

Variable w : World.
Variable ctx : Context.

Lemma exportfs_ok (st : Proc) :
  exportfs_ec w (exportfs_runs st) = 0 ->
  exportfs w st
  = (Val true,
     log (upd_runs st (S (exportfs_runs st)))
         [EvSystem (exportfs_path w +:+ " -ra")]).
Proof.
  intros Hec. unfold exportfs, bind, count_exportfs, emit. simpl.
  now rewrite Hec.
Qed.

Lemma map_together_ok (mdir cdir : list string) (k : nat) :
  forall (d : Z) (m : gmap string string) (st : Proc),
    0 <= d ->
    (Z.to_nat d + k <= length mdir)%nat ->
    (Z.to_nat d + k <= length cdir)%nat ->
    exists m', map_together mdir cdir k d m st = (Val m', st).
Proof.
  induction k as [|k IH]; intros d m st Hd Hm Hc; [now exists m |].
  cbn [map_together].
  destruct (vec_at_lt mdir d st Hd ltac:(lia)) as (md & _ & Em).
  destruct (vec_at_lt cdir d st Hd ltac:(lia)) as (cd & _ & Ec).
  rewrite (bind_Val _ _ _ _ _ Em), (bind_Val _ _ _ _ _ Ec).
  apply IH; lia.
Qed.

Lemma run_mounters_ok (ms : list mounter) (st : Proc) :
  run_mounters w ms st
  = (Val tt,
     log st ((fun m => EvSystem (mount_cmdline w (m_md m) (m_cd m))) <$> ms)).
Proof.
  revert st. induction ms as [|m ms IH]; intros st.
  - simpl. unfold ret. now rewrite log_nil.
  - cbn [run_mounters]. rewrite !fmap_cons.
    unfold bind at 1, run_mounter, emit. rewrite IH. now rewrite log_log.
Qed.

Lemma get_futures_ok (ms : list mounter) (st : Proc) :
  (forall d, mount_returns w d = true) ->
  get_futures w ms st = (Val (mount_result w <$> (m_d <$> ms)), st).
Proof.
  intros Hret. induction ms as [|m ms IH]; [reflexivity |].
  cbn [get_futures]. rewrite !fmap_cons.
  assert (E : future_get w m st = (Val (mount_result w (m_d m)), st)).
  { unfold future_get, mount_result. rewrite Hret.
    now destruct (negb (mount_ec w (m_d m) =? 0)). }
  rewrite (bind_Val _ _ _ _ _ E), (bind_Val _ _ _ _ _ IH). reflexivity.
Qed.

Lemma verify_ok (m_to_c : gmap string string) (mline : list string) (st : Proc) :
  proc_mounts w = inr mline ->
  Forall passed_over mline ->
  verify w m_to_c st = (Val tt, log st [EvReadMounts]).
Proof.
  intros Hpm Hall. unfold verify, read_mounts. rewrite Hpm.
  unfold bind at 1, bind at 1, emit, ret at 1.
  now apply scan_mounts_all_skipped.
Qed.

Lemma initial_fresh (sub : string) (st : Proc) :
  dirs st = {[tmp_root w]} -> is_absolute sub = false -> sub <> "" ->
  fresh_below (path_append (tmp_root w) sub) st.
Proof.
  intros Hd Habs Hne q Hq. rewrite Hd in Hq. apply elem_of_singleton in Hq as ->.
  apply is_under_longer. rewrite path_append_relative by assumption.
  rewrite length_append. pose proof (with_separator_length (tmp_root w)).
  destruct sub; [congruence | simpl; lia].
Qed.

End WholeRun.

(** C3, evaluated.  Two pairs; the [mount] command of pair [1] returns
    code [32], nothing else goes wrong, and the one record of the live
    mount table is a local file system.  The failure is counted and
    reported on the error stream, the table is read after that, and
    [main] returns [0]: the failed mount does not reach the exit
    status. *)
Theorem mount_failure_exits_zero :
  let w := Scenario.one_mount_fails in
  let r := main w (Scenario.ctx 2 false) (initial w) in
  mount_ec w 1 = 32
  /\ fst r = Val 0
  /\ List.filter is_stderr (trace (snd r))
     = [EvStderr ("Got 1 mount failures" +:+ nl)]
  /\ occurrences EvReadMounts (trace (snd r)) = 1%nat.
Proof. vm_compute. repeat split. Qed.

(** * Further properties *)

(** ** Confinement of the effects *)

Section Confinement.

Variable t : TemporaryDirectory.

Lemma confined_refl (st : Proc) : tdobj st = t -> confined t st st.
Proof.
  intros Ht. constructor; [assumption | | reflexivity].
  exists []. split; [now rewrite app_nil_r |]. split; [constructor |].
  intros _ p Hp. inversion Hp.
Qed.

Lemma confined_trans (st1 st2 st3 : Proc) :
  confined t st1 st2 -> confined t st2 st3 -> confined t st1 st3.
Proof.
  intros [_ (e1 & Htr1 & Hall1 & Hmk1) Hd1] [Ht3 (e2 & Htr2 & Hall2 & Hmk2) Hd2].
  constructor; [assumption | |].
  - exists (e1 ++ e2)%list. split; [now rewrite Htr2, Htr1, app_assoc |].
    split; [now apply Forall_app |].
    intros Hp p Hin. apply elem_of_app in Hin as [Hin|Hin].
    + apply (Hd2 Hp), (Hmk1 Hp), Hin.
    + apply (Hmk2 Hp), Hin.
  - intros Hp. etransitivity; [apply (Hd1 Hp) | apply (Hd2 Hp)].
Qed.

(** A step that leaves [tdobj] and the directories alone and logs allowed
    events that make no directory. *)
Lemma confined_quiet (st st' : Proc) (evs : list event) :
  tdobj st' = t -> dirs st' = dirs st ->
  trace st' = (trace st ++ evs)%list ->
  Forall (fun e => allowed t e = true /\ forall p, e <> EvMkdir p) evs ->
  confined t st st'.
Proof.
  intros Ht Hd Htr Hall. constructor; [assumption | | now rewrite Hd].
  exists evs. split; [assumption |]. split.
  - eapply Forall_impl; [exact Hall |]. now intros e [He _].
  - intros _ p Hin. rewrite Forall_forall in Hall.
    destruct (Hall _ Hin) as [_ Hne]. now destruct (Hne p).
Qed.

Lemma sound_ret {A} (a : A) : sound t (ret a).
Proof. intros st Ht. split; [now apply confined_refl | exact I]. Qed.

Lemma sound_bind {A B} (m : M A) (k : A -> M B) :
  sound t m -> (forall a, sound t (k a)) -> sound t (bind m k).
Proof.
  intros Hm Hk st Ht. destruct (Hm st Ht) as [Hc He]. unfold bind.
  destruct (m st) as [[a|e|c| |] st1] eqn:E; simpl in *; try (split; assumption).
  destruct (Hk a st1 (conf_tdobj _ _ _ Hc)) as [Hc2 He2].
  split; [eapply confined_trans; eassumption | assumption].
Qed.

Lemma sound_try_catch {A} (m : M A) (h : string -> M A) :
  sound t m -> (forall e, sound t (h e)) -> sound t (try_catch m h).
Proof.
  intros Hm Hh st Ht. destruct (Hm st Ht) as [Hc He]. unfold try_catch.
  destruct (m st) as [[a|e|c| |] st1] eqn:E; simpl in *; try (split; assumption).
  destruct (Hh e st1 (conf_tdobj _ _ _ Hc)) as [Hc2 He2].
  split; [eapply confined_trans; eassumption | assumption].
Qed.

Lemma sound_if {A} (b : bool) (m1 m2 : M A) :
  sound t m1 -> sound t m2 -> sound t (if b then m1 else m2).
Proof. now destruct b. Qed.

Lemma sound_get {A} (f : Proc -> A) : sound t (get f).
Proof. intros st Ht. split; [now apply confined_refl | exact I]. Qed.

Lemma sound_throw {A} (what : string) : sound t (@throw A what).
Proof. intros st Ht. split; [now apply confined_refl | exact I]. Qed.

Lemma sound_hang {A} : sound t (@hang A).
Proof. intros st Ht. split; [now apply confined_refl | exact I]. Qed.

Lemma sound_undefined {A} : sound t (@undefined A).
Proof. intros st Ht. split; [now apply confined_refl | exact I]. Qed.

Lemma sound_exit_1 {A} : sound t (@exit_ A 1).
Proof. intros st Ht. split; [now apply confined_refl | reflexivity]. Qed.

Lemma sound_emit (e : event) :
  allowed t e = true -> (forall p, e <> EvMkdir p) -> sound t (emit e).
Proof.
  intros He Hne st Ht. split; [| exact I].
  apply (confined_quiet st _ [e]); auto.
Qed.

Lemma sound_set_files (f : gmap string string) : sound t (set_files f).
Proof.
  intros st Ht. split; [| exact I].
  apply (confined_quiet st _ []); auto. simpl. now rewrite app_nil_r.
Qed.

Lemma sound_set_cleanup (b : bool) : sound t (set_cleanup b).
Proof.
  intros st Ht. split; [| exact I].
  apply (confined_quiet st _ []); auto. simpl. now rewrite app_nil_r.
Qed.

Lemma sound_count_exportfs : sound t count_exportfs.
Proof.
  intros st Ht. split; [| exact I].
  apply (confined_quiet st _ []); auto. simpl. now rewrite app_nil_r.
Qed.

Lemma sound_vec_at {A} (v : list A) (d : Z) : sound t (vec_at v d).
Proof.
  unfold vec_at. apply sound_if; [apply sound_undefined |].
  destruct (v !! Z.to_nat d); [apply sound_ret | apply sound_undefined].
Qed.

Lemma sound_get_tdobj {A} (k : TemporaryDirectory -> M A) :
  sound t (k t) -> sound t (bind (get tdobj) k).
Proof.
  intros Hk st Ht. unfold bind, get. rewrite Ht. now apply Hk.
Qed.

Lemma sound_get_fixed {A B} (f : Proc -> A) (v : A) (k : A -> M B) :
  (forall st, tdobj st = t -> f st = v) ->
  sound t (k v) -> sound t (bind (get f) k).
Proof.
  intros Hf Hk st Ht. unfold bind, get. rewrite (Hf st Ht). now apply Hk.
Qed.

Lemma sound_error {A} (msg : string) : sound t (@error A msg).
Proof.
  unfold error. apply sound_bind; [| intros _; apply sound_exit_1].
  apply sound_emit; [reflexivity | discriminate].
Qed.

Lemma sound_error_sys {A} (w : World) (syserr : Z) (msg : string) :
  sound t (@error_sys w A syserr msg).
Proof.
  unfold error_sys. apply sound_bind; [| intros _; apply sound_exit_1].
  apply sound_emit; [reflexivity | discriminate].
Qed.

Lemma sound_create_directory (w : World) (p : string) :
  is_under (dir_ t) p = true -> sound t (create_directory w p).
Proof.
  intros Hu st Ht. unfold create_directory, bind, get, set_dirs, emit, ret.
  destruct (decide (p ∈ dirs st)); [split; [now apply confined_refl | exact I] |].
  destruct (mkdir_errno w p =? 0); [| split; [now apply confined_refl | exact I]].
  simpl. split; [| exact I]. constructor; simpl.
  - assumption.
  - exists [EvMkdir p]. split; [reflexivity |]. split; [now repeat constructor |].
    intros _ q Hq. apply list_elem_of_singleton in Hq. injection Hq as ->.
    apply elem_of_union_l. now apply elem_of_singleton.
  - intros _. apply union_subseteq_r.
Qed.

Lemma sound_remove_file (w : World) : sound t (remove_file w exports).
Proof.
  unfold remove_file, now. apply sound_bind; [apply sound_get | intros k].
  destruct (remove_failure w k).
  - apply sound_bind; [| intros _; apply sound_throw].
    apply sound_emit; [reflexivity | discriminate].
  - apply sound_bind; [apply sound_get | intros fs].
    apply sound_bind; [apply sound_set_files | intros _].
    apply sound_emit; [reflexivity | discriminate].
Qed.

Lemma sound_remove_all (w : World) :
  preserve_ t = false -> sound t (remove_all w (dir_ t)).
Proof.
  intros Hp st Ht.
  assert (Hlog : forall st',
            tdobj st' = tdobj st ->
            trace st' = (trace st ++ [EvRemoveAll (dir_ t)])%list ->
            confined t st st').
  { intros st' Ht' Htr. constructor.
    - now rewrite Ht'.
    - exists [EvRemoveAll (dir_ t)]. split; [assumption |]. split.
      + repeat constructor. simpl. now rewrite String.eqb_refl, Hp.
      + intros Hp'. congruence.
    - intros Hp'. congruence. }
  cbv [remove_all now bind get emit set_dirs set_files throw].
  destruct (bool_decide _); [split; [now apply Hlog | exact I] |].
  destruct (remove_all_failure w (length (trace st))) as [[what gone]|];
    (split; [now apply Hlog | exact I]).
Qed.

Lemma sound_DeleteNow (w : World) : sound t (DeleteNow w).
Proof.
  unfold DeleteNow. apply sound_get_tdobj.
  destruct (preserve_ t) eqn:Hp; simpl; [apply sound_ret |].
  apply sound_if; [now apply sound_remove_all | apply sound_ret].
Qed.

Lemma sound_umount_all (w : World) : sound t (umount_all w).
Proof.
  unfold umount_all, now. apply sound_bind; [apply sound_get | intros k].
  apply sound_bind; [apply sound_emit; [reflexivity | discriminate] | intros _].
  destruct (umount_failure w k); [apply sound_throw | apply sound_ret].
Qed.

Lemma sound_exportfs (w : World) : sound t (exportfs w).
Proof.
  unfold exportfs. apply sound_bind; [apply sound_count_exportfs | intros k].
  apply sound_bind; [apply sound_emit; [reflexivity | discriminate] | intros _].
  apply sound_if; [apply sound_error_sys | apply sound_ret].
Qed.

Lemma sound_cleanup_fn (w : World) : sound t (cleanup_fn w).
Proof.
  unfold cleanup_fn.
  apply sound_bind; [apply sound_umount_all | intros _].
  apply sound_bind; [apply sound_remove_file | intros _].
  apply sound_bind; [apply sound_exportfs | intros _].
  apply sound_DeleteNow.
Qed.

Lemma sound_sig_handler (w : World) : sound t (sig_handler w).
Proof.
  unfold sig_handler. apply sound_bind; [apply sound_get | intros c].
  apply sound_if; [| apply sound_ret].
  apply sound_bind; [apply sound_cleanup_fn | intros _; apply sound_set_cleanup].
Qed.

Lemma sound_main_cleanup (w : World) : sound t (main_cleanup w).
Proof.
  unfold main_cleanup. apply sound_bind; [apply sound_get | intros c].
  apply sound_if; [apply sound_cleanup_fn | apply sound_ret].
Qed.

Lemma under_root_subtree (tmpdir top : string) (c : ascii) (q : string) :
  is_absolute (String c top) = false ->
  has_filename (String c top) = true ->
  q = path_append tmpdir (String c top)
  \/ (exists d, q = path_append (path_append tmpdir (String c top)) (dir_name d)) ->
  is_under tmpdir q = true.
Proof.
  intros Ha Hf Hq.
  assert (Hshape : exists rest, q = with_separator tmpdir +:+ String c top +:+ rest).
  { destruct Hq as [->|[d ->]].
    - apply (subtree_shape tmpdir top c 0 0); auto.
    - apply (subtree_shape tmpdir top c d 1); auto. right.
      apply elem_of_numbered. exists d. split; [lia | reflexivity]. }
  destruct Hshape as (rest & ->). unfold is_under. fold (with_separator tmpdir).
  rewrite prefix_append. apply orb_true_r.
Qed.

Lemma sound_create_dirs (w : World) (parent failmsg : string) (k : nat) :
  (forall d, is_under (dir_ t) (path_append parent (dir_name d)) = true) ->
  forall d, sound t (create_dirs w parent failmsg k d).
Proof.
  intros Hu. induction k as [|k IH]; intros d; [apply sound_ret |].
  cbn [create_dirs].
  apply sound_bind; [now apply sound_create_directory | intros r].
  apply sound_if; [apply sound_error_sys |].
  apply sound_bind; [apply IH | intros rest; apply sound_ret].
Qed.

Lemma sound_alloc_server (w : World) (ctx : Context) :
  sound t (alloc_server w ctx (dir_ t)).
Proof.
  unfold alloc_server.
  apply sound_bind; [| intros r; apply sound_if; [apply sound_error_sys |]].
  - apply sound_create_directory.
    apply (under_root_subtree _ "ount" "m"); auto.
  - apply sound_create_dirs. intros d.
    apply (under_root_subtree _ "ount" "m"); eauto.
Qed.

Lemma sound_alloc_client (w : World) (ctx : Context) :
  sound t (alloc_client w ctx (dir_ t)).
Proof.
  unfold alloc_client.
  apply sound_bind; [| intros r; apply sound_if; [apply sound_error_sys |]].
  - apply sound_create_directory.
    apply (under_root_subtree _ "lient" "c"); auto.
  - apply sound_create_dirs. intros d.
    apply (under_root_subtree _ "lient" "c"); eauto.
Qed.

Lemma sound_export_loop (mdir : list string) (k : nat) :
  forall d, sound t (export_loop mdir k d).
Proof.
  induction k as [|k IH]; intros d; [apply sound_ret |].
  cbn [export_loop].
  apply sound_bind; [apply sound_vec_at | intros md].
  apply sound_bind; [apply IH | intros r; apply sound_ret].
Qed.

Lemma sound_write_exports (w : World) (ctx : Context) (mdir : list string) :
  sound t (write_exports w ctx mdir).
Proof.
  unfold write_exports. destruct (exports_open_failure w); [apply sound_throw |].
  apply sound_bind; [apply sound_export_loop | intros r].
  apply sound_bind; [apply sound_get | intros fs].
  apply sound_bind; [apply sound_set_files | intros _].
  apply sound_bind; [| intros _; apply sound_ret].
  apply sound_emit; [reflexivity | discriminate].
Qed.

Lemma sound_map_together (mdir cdir : list string) (k : nat) :
  forall d m, sound t (map_together mdir cdir k d m).
Proof.
  induction k as [|k IH]; intros d m; [apply sound_ret |].
  cbn [map_together].
  apply sound_bind; [apply sound_vec_at | intros md].
  apply sound_bind; [apply sound_vec_at | intros cd]. apply IH.
Qed.

Lemma sound_start_mounters (w : World) (mdir cdir muuid : list string) (k : nat) :
  forall d, sound t (start_mounters w mdir cdir muuid k d).
Proof.
  induction k as [|k IH]; intros d; [apply sound_ret |].
  cbn [start_mounters].
  apply sound_bind; [apply sound_vec_at | intros cd].
  apply sound_bind; [apply sound_vec_at | intros md].
  apply sound_bind; [apply sound_vec_at | intros u].
  destruct (async_failure w d).
  - apply sound_if; [apply sound_throw | apply sound_hang].
  - apply sound_bind; [apply IH | intros rest; apply sound_ret].
Qed.

Lemma sound_run_mounters (w : World) (ms : list mounter) :
  sound t (run_mounters w ms).
Proof.
  induction ms as [|m ms IH]; [apply sound_ret |].
  cbn [run_mounters].
  apply sound_bind; [| intros _; apply IH].
  unfold run_mounter. apply sound_emit; [reflexivity | discriminate].
Qed.

Lemma sound_get_futures (w : World) (ms : list mounter) :
  sound t (get_futures w ms).
Proof.
  induction ms as [|m ms IH]; [apply sound_ret |].
  cbn [get_futures].
  apply sound_bind; [| intros r; apply sound_bind; [apply IH | intros rs; apply sound_ret]].
  unfold future_get. apply sound_if; [| apply sound_hang].
  apply sound_if; apply sound_ret.
Qed.

Lemma sound_launch (w : World) (ctx : Context) (mdir cdir muuid : list string) :
  sound t (launch w ctx mdir cdir muuid).
Proof.
  unfold launch, make_barrier, launcher_wait.
  apply sound_bind.
  { apply sound_if; [apply sound_undefined |].
    apply sound_if; [apply sound_throw | apply sound_ret]. }
  intros b. apply sound_bind; [apply sound_start_mounters | intros ms].
  apply sound_bind; [apply sound_if; [apply sound_hang | apply sound_ret] | intros _].
  apply sound_bind; [apply sound_run_mounters | intros _].
  apply sound_bind; [apply sound_get_futures | intros rs].
  apply sound_bind; [| intros _; apply sound_ret].
  apply sound_if; [| apply sound_ret].
  apply sound_emit; [reflexivity | discriminate].
Qed.

Lemma sound_check_mount (m_to_c : gmap string string) (mount : string) :
  sound t (check_mount m_to_c mount).
Proof.
  unfold check_mount.
  apply sound_bind; [apply sound_vec_at | intros f1].
  apply sound_if; [apply sound_ret |].
  apply sound_bind; [apply sound_vec_at | intros m].
  apply sound_bind; [apply sound_vec_at | intros c].
  destruct (m_to_c !! m) as [second|]; [| apply sound_error].
  apply sound_if; [apply sound_error | apply sound_ret].
Qed.

Lemma sound_scan_mounts (m_to_c : gmap string string) (mline : list string) :
  sound t (scan_mounts m_to_c mline).
Proof.
  induction mline as [|mount rest IH]; [apply sound_ret |].
  cbn [scan_mounts].
  apply sound_bind; [apply sound_check_mount | intros _; apply IH].
Qed.

Lemma sound_verify (w : World) (m_to_c : gmap string string) :
  sound t (verify w m_to_c).
Proof.
  unfold verify, read_mounts.
  apply sound_bind; [| intros mline; apply sound_scan_mounts].
  destruct (proc_mounts w); [apply sound_throw |].
  apply sound_bind; [| intros _; apply sound_ret].
  apply sound_emit; [reflexivity | discriminate].
Qed.

Lemma sound_main_try (w : World) (ctx : Context) :
  sound t (main_try w ctx (dir_ t)).
Proof.
  unfold main_try.
  apply sound_bind; [apply sound_alloc_server | intros mdir].
  apply sound_bind; [apply sound_write_exports | intros muuid].
  apply sound_bind; [apply sound_exportfs | intros _].
  apply sound_bind; [apply sound_alloc_client | intros cdir].
  apply sound_bind; [apply sound_map_together | intros m_to_c].
  apply sound_bind; [apply sound_launch | intros _].
  apply sound_verify.
Qed.

(** [main] from the point where [tdobj] has its final setting. *)
Lemma sound_main_run_tail (w : World) (ctx : Context) :
  sound t
    (tmpdir <- get (fun st => dir_ (tdobj st)) ;;
     set_cleanup true ;;;
     (if negb (sigaction_errno w =? 0)
      then error_sys w (sigaction_errno w) "Unable to install signal handler"
      else ret tt) ;;;
     try_catch
       (main_try w ctx tmpdir ;;; ret false)
       (fun e =>
          emit (EvStderr ("Caught exception: " +:+ e +:+ nl)) ;;;
          ret true)).
Proof.
  apply (sound_get_fixed _ (dir_ t)); [now intros st -> |].
  apply sound_bind; [apply sound_set_cleanup | intros _].
  apply sound_bind; [apply sound_if; [apply sound_error_sys | apply sound_ret] | intros _].
  apply sound_try_catch.
  - apply sound_bind; [apply sound_main_try | intros _; apply sound_ret].
  - intros e. apply sound_bind; [| intros _; apply sound_ret].
    apply sound_emit; [reflexivity | discriminate].
Qed.

Lemma sound_main_return (w : World) (code : bool) : sound t (main_return w code).
Proof.
  unfold main_return.
  apply sound_bind; [apply sound_DeleteNow | intros _; apply sound_ret].
Qed.

End Confinement.

Lemma bind_Val_inv {A B} (m : M A) (k : A -> M B) (st st' : Proc) (b : B) :
  bind m k st = (Val b, st') ->
  exists a st1, m st = (Val a, st1) /\ k a st1 = (Val b, st').
Proof.
  unfold bind. destruct (m st) as [[a|e|c| |] st1]; try discriminate.
  intros H. now exists a, st1.
Qed.

Lemma main_run_settles (w : World) (ctx : Context) :
  exists st0,
    tdobj st0 = settled_tdobj w ctx
    /\ dirs st0 = {[tmp_root w]} /\ trace st0 = []
    /\ forall B (k : bool -> M B),
         bind (main_run w ctx) k (initial w)
         = bind (tmpdir <- get (fun st => dir_ (tdobj st)) ;;
                 set_cleanup true ;;;
                 (if negb (sigaction_errno w =? 0)
                  then error_sys w (sigaction_errno w)
                         "Unable to install signal handler"
                  else ret tt) ;;;
                 try_catch
                   (main_try w ctx tmpdir ;;; ret false)
                   (fun e =>
                      emit (EvStderr ("Caught exception: " +:+ e +:+ nl)) ;;;
                      ret true)) k st0.
Proof.
  exists (upd_tdobj (initial w) (settled_tdobj w ctx)).
  split; [reflexivity |]. split; [reflexivity |]. split; [reflexivity |].
  intros B k. unfold main_run, settled_tdobj.
  destruct (preserve_temp ctx); reflexivity.
Qed.

(** Every run keeps to the allowed effects. *)
Lemma process_sound (w : World) (ctx : Context) (sig : option sigint_at) :
  exists st0,
    dirs st0 = {[tmp_root w]} /\ trace st0 = []
    /\ confined (settled_tdobj w ctx) st0 (snd (process w ctx sig (initial w))).
Proof.
  destruct (main_run_settles w ctx) as (st0 & Ht & Hd & Htr & Hrun).
  exists st0. split; [assumption |]. split; [assumption |].
  set (t := settled_tdobj w ctx) in *.
  assert (Hs : forall (mid : M unit),
            sound t mid ->
            confined t st0
              (snd ((exit_code <- main_run w ctx ;; mid ;;; main_return w exit_code)
                      (initial w)))).
  { intros mid Hmid. rewrite Hrun.
    match goal with
    | |- context [bind ?m ?k st0] =>
        assert (Hsound : sound t (bind m k))
    end.
    { apply sound_bind; [apply sound_main_run_tail | intros ec].
      apply sound_bind; [exact Hmid | intros _; apply sound_main_return]. }
    now destruct (Hsound st0 Ht) as [Hc He]. }
  destruct sig as [[|]|]; unfold process, main_with_sigint, main.
  - apply Hs. apply sound_bind; [apply sound_sig_handler | intros _; apply sound_main_cleanup].
  - apply Hs. apply sound_bind; [apply sound_main_cleanup | intros _; apply sound_sig_handler].
  - apply Hs. apply sound_main_cleanup.
Qed.

(** X1.  Whatever the collaborators answer, with or without a [SIGINT]
    around the cleanup call: every directory the process makes is the
    temporary root or lies below it, the only file it writes or removes is
    the export file, and the only thing it deletes recursively is the
    temporary root, and that only when preservation was not asked for. *)
Theorem effects_are_confined
    (w : World) (ctx : Context) (sig : option sigint_at) (e : event) :
  e ∈ trace (snd (process w ctx sig (initial w))) ->
  match e with
  | EvMkdir p => is_under (tmp_root w) p = true
  | EvWrite p _ => p = exports
  | EvRemove p => p = exports
  | EvRemoveAll p => p = tmp_root w /\ preserve_temp ctx = false
  | _ => True
  end.
Proof.
  intros Hin.
  destruct (process_sound w ctx sig) as (st0 & _ & Htr0 & Hc).
  destruct (conf_trace _ _ _ Hc) as (evs & Htr & Hall & _).
  rewrite Htr, Htr0 in Hin. simpl in Hin.
  rewrite Forall_forall in Hall. specialize (Hall e Hin).
  destruct e as [| p | p c | | | p | p]; simpl in Hall; auto.
  - now apply String.eqb_eq.
  - now apply String.eqb_eq.
  - apply andb_true_iff in Hall as [H1 H2]. split.
    + now apply String.eqb_eq.
    + now apply negb_true_iff.
Qed.

Lemma effects_are_confined_witness :
  EvRemoveAll Scenario.root
    ∈ trace (snd (process Scenario.calm (Scenario.ctx 2 false) None
                    (initial Scenario.calm)))
  /\ Scenario.root = tmp_root Scenario.calm
  /\ preserve_temp (Scenario.ctx 2 false) = false.
Proof.
  assert (Hin : EvRemoveAll Scenario.root
                  ∈ trace (snd (process Scenario.calm (Scenario.ctx 2 false) None
                                  (initial Scenario.calm)))).
  { apply list_elem_of_In. vm_compute. do 14 right. left. reflexivity. }
  split; [exact Hin |].
  exact (effects_are_confined Scenario.calm (Scenario.ctx 2 false) None
           (EvRemoveAll Scenario.root) Hin).
Defined.

(** X3.  With preservation asked for, whatever goes wrong: at the end of
    the process the temporary root and every directory the process made
    are still on disk, and nothing was deleted recursively. *)
Theorem preservation_keeps_every_directory
    (w : World) (ctx : Context) (sig : option sigint_at) :
  preserve_temp ctx = true ->
  tmp_root w ∈ dirs (snd (process w ctx sig (initial w)))
  /\ (forall p, EvMkdir p ∈ trace (snd (process w ctx sig (initial w))) ->
                p ∈ dirs (snd (process w ctx sig (initial w))))
  /\ List.filter is_remove_all (trace (snd (process w ctx sig (initial w)))) = [].
Proof.
  intros Hp.
  destruct (process_sound w ctx sig) as (st0 & Hd0 & Htr0 & Hc).
  destruct (conf_trace _ _ _ Hc) as (evs & Htr & Hall & Hmk).
  rewrite Htr0 in Htr. simpl in Htr. split; [| split].
  - apply (conf_dirs _ _ _ Hc Hp). rewrite Hd0. now apply elem_of_singleton.
  - intros p Hin. rewrite Htr in Hin. now apply (Hmk Hp).
  - rewrite Htr. clear Htr Hmk. induction Hall as [|e evs He _ IH]; [reflexivity |].
    destruct e; simpl; try exact IH.
    exfalso. unfold allowed, settled_tdobj in He. simpl in He.
    rewrite Hp, andb_false_r in He. discriminate.
Qed.

Lemma preservation_keeps_every_directory_witness :
  let w := Scenario.no_exportfs in
  let ctx := Scenario.ctx 2 true in
  preserve_temp ctx = true
  /\ tmp_root w ∈ dirs (snd (process w ctx None (initial w)))
  /\ (forall p, EvMkdir p ∈ trace (snd (process w ctx None (initial w))) ->
                p ∈ dirs (snd (process w ctx None (initial w))))
  /\ List.filter is_remove_all (trace (snd (process w ctx None (initial w)))) = [].
Proof.
  split; [reflexivity |].
  apply (preservation_keeps_every_directory Scenario.no_exportfs
           (Scenario.ctx 2 true) None).
  reflexivity.
Defined.

(** X4.  Without preservation, whenever [main] returns, with whatever
    status and whatever happened before, nothing is left at or below the
    temporary root: the destructor of [tdobj] sees to it even when the
    cleanup closure was consumed by the signal handler. *)
Theorem return_leaves_no_temporary_root
    (w : World) (ctx : Context) (sig : option sigint_at) (c : Z) (q : string) :
  preserve_temp ctx = false ->
  tmp_root w <> "" ->
  fst (process w ctx sig (initial w)) = Val c ->
  q ∈ dirs (snd (process w ctx sig (initial w))) ->
  is_under (tmp_root w) q = false.
Proof.
  intros Hp Hroot Hval Hq.
  destruct (main_run_settles w ctx) as (st0 & Ht & _ & _ & Hrun).
  set (t := settled_tdobj w ctx) in *.
  assert (Hs : forall (mid : M unit),
            sound t mid ->
            fst ((exit_code <- main_run w ctx ;; mid ;;; main_return w exit_code)
                   (initial w)) = Val c ->
            q ∈ dirs (snd ((exit_code <- main_run w ctx ;; mid ;;;
                             main_return w exit_code) (initial w))) ->
            is_under (tmp_root w) q = false).
  { intros mid Hmid. rewrite Hrun.
    match goal with
    | |- context [bind ?m ?k st0] => destruct (bind m k st0) as [r st3] eqn:E
    end.
    simpl. intros -> Hin.
    apply bind_Val_inv in E as (ec & st1 & E1 & E).
    apply bind_Val_inv in E as ([] & st2 & E2 & E).
    pose proof (sound_main_run_tail t w ctx st0 Ht) as [Hc1 _].
    rewrite E1 in Hc1. simpl in Hc1.
    pose proof (Hmid st1 (conf_tdobj _ _ _ Hc1)) as [Hc2 _].
    rewrite E2 in Hc2. simpl in Hc2.
    pose proof (conf_tdobj _ _ _ Hc2) as Ht2.
    unfold main_return in E.
    apply bind_Val_inv in E as ([] & st4 & E & Eret).
    unfold ret in Eret. injection Eret as _ <-.
    unfold DeleteNow, bind, get in E. rewrite Ht2 in E.
    unfold t, settled_tdobj in E. cbn [dir_ preserve_] in E. rewrite Hp in E.
    rewrite (proj2 (String.eqb_neq _ _) Hroot) in E. cbn [negb andb] in E.
    apply remove_all_returns in E. subst st4.
    cbn [dirs log upd_dirs upd_files] in Hin.
    now apply elem_of_filter in Hin as [Hu _]. }
  destruct sig as [[|]|]; unfold process, main_with_sigint, main in *.
  - apply (Hs (sig_handler w ;;; main_cleanup w)); auto.
    apply sound_bind; [apply sound_sig_handler | intros _; apply sound_main_cleanup].
  - apply (Hs (main_cleanup w ;;; sig_handler w)); auto.
    apply sound_bind; [apply sound_main_cleanup | intros _; apply sound_sig_handler].
  - apply (Hs (main_cleanup w)); auto. apply sound_main_cleanup.
Qed.

Lemma return_leaves_no_temporary_root_witness :
  let w := Scenario.one_mount_fails in
  let ctx := Scenario.ctx 2 false in
  preserve_temp ctx = false
  /\ tmp_root w <> ""
  /\ fst (process w ctx None (initial w)) = Val 0
  /\ forall q, q ∈ dirs (snd (process w ctx None (initial w))) ->
               is_under (tmp_root w) q = false.
Proof.
  split; [reflexivity |]. split; [discriminate |]. split; [reflexivity |].
  intros q.
  apply (return_leaves_no_temporary_root Scenario.one_mount_fails
           (Scenario.ctx 2 false) None 0 q);
    [reflexivity | discriminate | reflexivity].
Defined.

(** ** Triggers after the signal handler *)

(** X5.  Once the signal handler has run, a second [SIGINT] and the
    cleanup call at the end of [main] change nothing: the handler followed
    by either of them is the handler alone, in every state and whatever
    [exportfs] answers. *)
Theorem triggers_after_handler_do_nothing (w : World) (st : Proc) :
  (sig_handler w ;;; sig_handler w) st = sig_handler w st
  /\ (sig_handler w ;;; main_cleanup w) st = sig_handler w st.
Proof.
  unfold bind.
  destruct (sig_handler w st) as [[[]|e|c| |] st'] eqn:E; auto.
  destruct (sig_handler_consumes_cleanup w st st' E) as (_ & H1 & H2).
  now rewrite H1, H2.
Qed.

(** ** More on the mount table check *)

(** X6.  The scan stops at the first record it reports: when the records
    before it are passed over and it is kept but its device is not mapped
    to its mount point field, the process exits with status [1] after one
    diagnostic that starts with the device in quotes, and what follows in
    the table is not looked at. *)
Theorem scan_stops_at_first_report
    (m_to_c : gmap string string) (before after : list string)
    (mount m c : string) (rest : list string) (st : Proc) :
  Forall passed_over before ->
  split mount = m :: c :: rest ->
  kept (split mount) = true ->
  m_to_c !! m <> Some c ->
  exists msg,
    scan_mounts m_to_c (before ++ mount :: after) st
    = (Exit 1, log st [EvStderr (("Mount '" +:+ m +:+ "'") +:+ msg)]).
Proof.
  intros Hb Hs Hk Hne.
  assert (Hrec : exists msg,
            check_mount m_to_c mount st
            = (Exit 1, log st [EvStderr (("Mount '" +:+ m +:+ "'") +:+ msg)])).
  { rewrite (check_mount_kept m_to_c mount m c rest st Hs Hk).
    destruct (m_to_c !! m) as [second|] eqn:Em.
    - destruct (String.eqb_spec second c) as [->|Hsc]; [congruence |].
      eexists. unfold error, bind, emit, exit_.
      rewrite !append_assoc. reflexivity.
    - eexists. unfold error, bind, emit, exit_.
      rewrite !append_assoc. reflexivity. }
  destruct Hrec as (msg & Hrec). exists msg.
  induction Hb as [|l before [Hlen Hkl] _ IH].
  - cbn [app scan_mounts]. now apply bind_Exit.
  - cbn [app scan_mounts].
    rewrite (bind_Val _ _ st st tt) by now apply check_mount_skipped.
    exact IH.
Qed.

Lemma scan_stops_at_first_report_witness :
  Forall passed_over ["/dev/sda1 / ext4 rw 0 0"]
  /\ split Scenario.local_on_nfs = "/dev/sdb1" :: "nfs" :: ["ext4"; "rw"; "0"; "0"]
  /\ kept (split Scenario.local_on_nfs) = true
  /\ (∅ : gmap string string) !! "/dev/sdb1" <> Some "nfs"
  /\ exists msg,
       scan_mounts ∅ (["/dev/sda1 / ext4 rw 0 0"] ++ Scenario.local_on_nfs :: [""])
         (initial Scenario.calm)
       = (Exit 1, log (initial Scenario.calm)
                      [EvStderr (("Mount '" +:+ "/dev/sdb1" +:+ "'") +:+ msg)]).
Proof.
  assert (Hb : Forall passed_over ["/dev/sda1 / ext4 rw 0 0"]).
  { constructor; [| constructor]. split; [vm_compute; lia | reflexivity]. }
  split; [exact Hb |]. split; [reflexivity |]. split; [reflexivity |].
  split; [now rewrite lookup_empty |].
  apply (scan_stops_at_first_report ∅ ["/dev/sda1 / ext4 rw 0 0"] [""]
           Scenario.local_on_nfs "/dev/sdb1" "nfs" ["ext4"; "rw"; "0"; "0"]
           (initial Scenario.calm) Hb).
  - reflexivity.
  - reflexivity.
  - now rewrite lookup_empty.
Defined.

(** ** Splitting a line *)

Lemma split_from_nonempty (b : bool) (s : string) : split_from b s <> [].
Proof.
  revert b. induction s as [|c s IH]; intros b; [discriminate |].
  simpl. destruct (Ascii.eqb c space).
  - destruct b; [apply IH | discriminate].
  - destruct (split_from false s); discriminate.
Qed.

Lemma split_from_no_space (b : bool) (s : string) :
  Forall (fun piece => contains_char space piece = false) (split_from b s).
Proof.
  revert b. induction s as [|c s IH]; intros b.
  - repeat constructor.
  - simpl. destruct (Ascii.eqb c space) eqn:Ec.
    + destruct b; [apply IH |]. constructor; [reflexivity | apply IH].
    + specialize (IH false). destruct (split_from false s) as [|p ps].
      * repeat constructor. simpl. now rewrite Ec.
      * inversion IH as [|? ? Hp Hps]; subst. constructor; [| assumption].
        simpl. now rewrite Ec, Hp.
Qed.

(** X7.  Splitting never gives an empty vector, so [fields[0]] is always
    there, and no piece contains a space. *)
Theorem split_gives_spaceless_pieces (s : string) :
  (exists first others, split s = first :: others)
  /\ Forall (fun piece => contains_char space piece = false) (split s).
Proof.
  split; [| apply split_from_no_space].
  pose proof (split_from_nonempty false s) as H. unfold split.
  destruct (split_from false s) as [|f o]; [congruence | eauto].
Qed.

Lemma join_cons_char (c : ascii) (p : string) (ps : list string) :
  join (String c p :: ps) = String c (join (p :: ps)).
Proof. destruct ps; reflexivity. Qed.

Lemma split_from_after_sep (s : string) :
  match s with
  | String c _ => Ascii.eqb c space = false
  | "" => True
  end ->
  split_from true s = split_from false s.
Proof. destruct s as [|c s]; [reflexivity |]. simpl. now intros ->. Qed.

(** X8.  For a line without two spaces in a row, the pieces put together
    again with single spaces are the line: in such a line nothing is lost
    by the splitting, leading and trailing spaces included. *)
Theorem join_split (s : string) :
  single_spaced s = true -> join (split s) = s.
Proof.
  unfold split. induction s as [|c s IH]; intros Hs; [reflexivity |].
  assert (Hs' : single_spaced s = true).
  { simpl in Hs. destruct s; [reflexivity |]. now apply andb_true_iff in Hs as [_ ?]. }
  specialize (IH Hs'). cbn [split_from].
  destruct (Ascii.eqb c space) eqn:Ec.
  - apply Ascii.eqb_eq in Ec as ->.
    rewrite split_from_after_sep.
    + pose proof (split_from_nonempty false s) as Hne.
      destruct (split_from false s) as [|p ps]; [congruence |].
      change (join ("" :: p :: ps)) with ("" +:+ String space (join (p :: ps))).
      now rewrite IH.
    + destruct s as [|c' s]; [exact I |]. simpl in Hs.
      apply andb_true_iff in Hs as [Hs _]. now apply negb_true_iff in Hs.
  - pose proof (split_from_nonempty false s) as Hne.
    destruct (split_from false s) as [|p ps]; [congruence |].
    now rewrite join_cons_char, IH.
Qed.

Lemma join_split_witness :
  single_spaced " srv:/a /mnt/a nfs rw 0 0 " = true
  /\ join (split " srv:/a /mnt/a nfs rw 0 0 ") = " srv:/a /mnt/a nfs rw 0 0 ".
Proof.
  split; [reflexivity |].
  apply (join_split " srv:/a /mnt/a nfs rw 0 0 "). reflexivity.
Defined.

(** ** The expected map *)

Lemma map_together_app (lm : list string) :
  forall (lc pm pc : list string) (m : gmap string string) (st : Proc),
    length pm = length pc -> length lm = length lc ->
    map_together (pm ++ lm) (pc ++ lc) (length lm) (Z.of_nat (length pm)) m st
    = (Val (pair_up m lm lc), st).
Proof.
  induction lm as [|md lm IH]; intros [|cd lc] pm pc m st Hp Hl;
    try discriminate; [reflexivity |].
  cbn [length map_together].
  rewrite (bind_Val _ _ st st md).
  2:{ apply vec_at_Some; [lia |]. rewrite Nat2Z.id. now apply list_lookup_middle. }
  rewrite (bind_Val _ _ st st cd).
  2:{ apply vec_at_Some; [lia |]. rewrite Nat2Z.id. now apply list_lookup_middle. }
  replace (Z.of_nat (length pm) + 1) with (Z.of_nat (length (pm ++ [md])))
    by (rewrite length_app; simpl; lia).
  replace (pm ++ md :: lm)%list with ((pm ++ [md]) ++ lm)%list
    by now rewrite <- app_assoc.
  replace (pc ++ cd :: lc)%list with ((pc ++ [cd]) ++ lc)%list
    by now rewrite <- app_assoc.
  rewrite IH.
  - reflexivity.
  - rewrite !length_app. simpl. lia.
  - simpl in Hl. lia.
Qed.

Lemma pair_up_notin (lm : list string) :
  forall (lc : list string) (m : gmap string string) (k : string),
    k ∉ lm -> pair_up m lm lc !! k = m !! k.
Proof.
  induction lm as [|md lm IH]; intros [|cd lc] m k Hk; try reflexivity.
  unfold pair_up. simpl. apply not_elem_of_cons in Hk as [Hne Hk].
  fold (pair_up (<[md:=cd]> m) lm lc). rewrite IH by assumption.
  now rewrite lookup_insert_ne.
Qed.

Lemma pair_up_lookup (lm : list string) :
  forall (lc : list string) (m : gmap string string) (i : nat) (md cd : string),
    NoDup lm -> lm !! i = Some md -> lc !! i = Some cd ->
    pair_up m lm lc !! md = Some cd.
Proof.
  induction lm as [|x lm IH]; intros [|y lc] m i md cd Hnd Hm Hc;
    destruct i as [|i]; simpl in *; try discriminate.
  - injection Hm as ->. injection Hc as ->.
    apply NoDup_cons in Hnd as [Hx _].
    unfold pair_up. simpl. fold (pair_up (<[md:=cd]> m) lm lc).
    rewrite pair_up_notin by assumption. apply lookup_insert_eq.
  - apply NoDup_cons in Hnd as [_ Hnd].
    unfold pair_up. simpl. fold (pair_up (<[x:=y]> m) lm lc).
    now apply (IH lc _ i).
Qed.

Lemma pair_up_values (lm : list string) :
  forall (lc : list string) (m : gmap string string) (k v : string),
    pair_up m lm lc !! k = Some v -> m !! k = Some v \/ v ∈ lc.
Proof.
  induction lm as [|x lm IH]; intros [|y lc] m k v H; try (now left).
  unfold pair_up in H. simpl in H. fold (pair_up (<[x:=y]> m) lm lc) in H.
  destruct (IH lc _ k v H) as [Hi|Hi].
  - destruct (decide (x = k)) as [<-|Hne].
    + rewrite lookup_insert_eq in Hi. injection Hi as ->. right. left.
    + rewrite lookup_insert_ne in Hi by assumption. now left.
  - right. now right.
Qed.

(** X9.  The loop that maps the pairs together returns, for every [N],
    the map that sends the server directory of each pair to the client
    directory of the same pair and has no other key. *)
Theorem expected_map_pairs_each_server_with_its_client
    (ctx : Context) (tmpdir : string) (st : Proc) :
  exists m_to_c,
    map_together (server_dirs tmpdir (threads ctx)) (client_dirs tmpdir (threads ctx))
      (rounds ctx) 0 ∅ st = (Val m_to_c, st)
    /\ (forall d, 0 <= d < threads ctx ->
          m_to_c !! path_append (path_append tmpdir "mount") (dir_name d)
          = Some (path_append (path_append tmpdir "client") (dir_name d)))
    /\ (forall key, key ∉ server_dirs tmpdir (threads ctx) -> m_to_c !! key = None).
Proof.
  exists (pair_up ∅ (server_dirs tmpdir (threads ctx))
                    (client_dirs tmpdir (threads ctx))).
  split; [| split].
  - pose proof (map_together_app (server_dirs tmpdir (threads ctx))
                  (client_dirs tmpdir (threads ctx)) [] [] ∅ st) as H.
    unfold server_dirs, client_dirs in *. rewrite numbered_length in H.
    apply H; [reflexivity | now rewrite !numbered_length].
  - intros d Hd.
    apply (pair_up_lookup _ _ _ (Z.to_nat d)).
    + apply NoDup_numbered. lia.
    + unfold server_dirs. rewrite numbered_lookup by lia.
      now rewrite Z.add_0_l, Z2Nat.id by lia.
    + unfold client_dirs. rewrite numbered_lookup by lia.
      now rewrite Z.add_0_l, Z2Nat.id by lia.
  - intros key Hkey. rewrite pair_up_notin by assumption. apply lookup_empty.
Qed.

Lemma zero_pad_length (width : nat) (s : string) :
  (width <= String.length (zero_pad width s))%nat.
Proof.
  unfold zero_pad. rewrite length_append.
  assert (H : String.length (zeros (width - String.length s))
              = (width - String.length s)%nat).
  { induction (width - String.length s)%nat as [|k IH]; simpl; auto. }
  rewrite H. lia.
Qed.

Lemma numbered_is_long (parent : string) (d : Z) (k : nat) (p : string) :
  0 <= d -> p ∈ numbered parent d k -> (5 <= String.length p)%nat.
Proof.
  intros Hd (i & Hi & ->)%elem_of_numbered.
  rewrite path_append_relative by apply is_absolute_dir_name.
  rewrite length_append. unfold dir_name. rewrite length_append.
  unfold fmt_04d, fmt_signed. destruct (Z.ltb_spec i 0); [lia |].
  pose proof (zero_pad_length 4 (dec_digits (Z.to_N i))). simpl. lia.
Qed.

Lemma expected_map_of_run (ctx : Context) (tmpdir : string) (st : Proc) :
  map_together (server_dirs tmpdir (threads ctx)) (client_dirs tmpdir (threads ctx))
    (rounds ctx) 0 ∅ st
  = (Val (pair_up ∅ (server_dirs tmpdir (threads ctx))
                     (client_dirs tmpdir (threads ctx))), st)
  /\ forall key v,
       pair_up ∅ (server_dirs tmpdir (threads ctx))
                 (client_dirs tmpdir (threads ctx)) !! key = Some v ->
       (5 <= String.length v)%nat.
Proof.
  split.
  - pose proof (map_together_app (server_dirs tmpdir (threads ctx))
                  (client_dirs tmpdir (threads ctx)) [] [] ∅ st) as H.
    unfold server_dirs, client_dirs in *. rewrite numbered_length in H.
    apply H; [reflexivity | now rewrite !numbered_length].
  - intros key v Hv. apply pair_up_values in Hv as [Hv|Hv].
    + now rewrite lookup_empty in Hv.
    + unfold client_dirs in Hv. now apply numbered_is_long in Hv.
Qed.

(** X10.  With the map the run builds, a record that the scan keeps is
    always reported: its mount point field is [nfs] or [nfs4], and no
    client directory is either.  The check of the mount table can pass
    only by passing every record over. *)
Theorem kept_record_is_always_reported
    (ctx : Context) (tmpdir mount : string) (st st1 st' : Proc)
    (m_to_c : gmap string string) :
  map_together (server_dirs tmpdir (threads ctx)) (client_dirs tmpdir (threads ctx))
    (rounds ctx) 0 ∅ st = (Val m_to_c, st1) ->
  kept (split mount) = true ->
  fst (check_mount m_to_c mount st') = Exit 1.
Proof.
  intros Hmap Hk.
  destruct (expected_map_of_run ctx tmpdir st) as [E Hvals].
  rewrite E in Hmap. injection Hmap as <- _.
  assert (Hs : exists m c rest, split mount = m :: c :: rest
                                /\ (String.length c <= 4)%nat).
  { unfold kept in Hk. destruct (split mount) as [|m [|c rest]]; try discriminate.
    exists m, c, rest. split; [reflexivity |]. simpl in Hk.
    apply orb_true_iff in Hk as [->%String.eqb_eq| ->%String.eqb_eq]; simpl; lia. }
  destruct Hs as (m & c & rest & Hs & Hlen).
  rewrite (check_mount_kept _ mount m c rest st' Hs Hk).
  destruct (_ !! m) as [second|] eqn:Em; [| reflexivity].
  destruct (String.eqb_spec second c) as [->|Hne]; [| reflexivity].
  exfalso. apply Hvals in Em. lia.
Qed.

Lemma kept_record_is_always_reported_witness :
  let ctx := Scenario.ctx 2 false in
  let mount := "/tmp/paramount.Ab12Cd/mount/d0001 nfs4 nfs rw 0 0" in
  let m_to_c := pair_up ∅ (server_dirs Scenario.root 2) (client_dirs Scenario.root 2) in
  map_together (server_dirs Scenario.root (threads ctx))
    (client_dirs Scenario.root (threads ctx)) (rounds ctx) 0 ∅
    (initial Scenario.calm) = (Val m_to_c, initial Scenario.calm)
  /\ kept (split mount) = true
  /\ fst (check_mount m_to_c mount (initial Scenario.calm)) = Exit 1.
Proof.
  pose proof (proj1 (expected_map_of_run (Scenario.ctx 2 false) Scenario.root
                       (initial Scenario.calm))) as Hmap.
  split; [exact Hmap |]. split; [reflexivity |].
  apply (kept_record_is_always_reported (Scenario.ctx 2 false) Scenario.root
           "/tmp/paramount.Ab12Cd/mount/d0001 nfs4 nfs rw 0 0"
           (initial Scenario.calm) (initial Scenario.calm) (initial Scenario.calm)
           _ Hmap).
  reflexivity.
Defined.

(** ** The path through the exception handler *)

Lemma bind_Throw {A B} (m : M A) (k : A -> M B) (st st' : Proc) (e : string) :
  m st = (Throw e, st') -> bind m k st = (Throw e, st').
Proof. intros H. unfold bind. now rewrite H. Qed.

Lemma bind_Hang {A B} (m : M A) (k : A -> M B) (st st' : Proc) :
  m st = (Hang, st') -> bind m k st = (Hang, st').
Proof. intros H. unfold bind. now rewrite H. Qed.

(** [main] up to the [try] statement. *)
Lemma main_run_enters_try (w : World) (ctx : Context) :
  sigaction_errno w = 0 ->
  main_run w ctx (initial w)
  = try_catch
      (main_try w ctx (tmp_root w) ;;; ret false)
      (fun e => emit (EvStderr ("Caught exception: " +:+ e +:+ nl)) ;;; ret true)
      (upd_cleanup (upd_tdobj (initial w) (settled_tdobj w ctx)) true).
Proof.
  intros Hsig. unfold main_run, settled_tdobj. rewrite Hsig.
  destruct (preserve_temp ctx); reflexivity.
Qed.

(** The [try] block up to the barrier, on a machine that permits it. *)
Lemma main_try_reaches_launch
    (w : World) (ctx : Context) (tmpdir : string) (st : Proc) :
  (forall p, mkdir_errno w p = 0) ->
  exports_open_failure w = None ->
  exportfs_ec w (exportfs_runs st) = 0 ->
  fresh_below (path_append tmpdir "mount") st ->
  fresh_below (path_append tmpdir "client") st ->
  exists m_to_c st4,
    main_try w ctx tmpdir st
    = (launch w ctx (numbered (path_append tmpdir "mount") 0 (rounds ctx))
         (numbered (path_append tmpdir "client") 0 (rounds ctx))
         (fsid <$> seqZ 0 (Z.of_nat (rounds ctx))) ;;;
       verify w m_to_c) st4
    /\ trace st4
       = (trace st
          ++ EvMkdir (path_append tmpdir "mount")
             :: (EvMkdir <$> numbered (path_append tmpdir "mount") 0 (rounds ctx))
          ++ [EvWrite exports
                (export_text (numbered (path_append tmpdir "mount") 0 (rounds ctx)));
              EvSystem (exportfs_path w +:+ " -ra")]
          ++ EvMkdir (path_append tmpdir "client")
             :: (EvMkdir <$> numbered (path_append tmpdir "client") 0 (rounds ctx)))%list
    /\ files st4
       = <[exports := export_text (numbered (path_append tmpdir "mount") 0 (rounds ctx))]>
           (files st)
    /\ cleanup_set st4 = cleanup_set st
    /\ tdobj st4 = tdobj st
    /\ exportfs_runs st4 = S (exportfs_runs st).
Proof.
  intros Hmk Hopen Hefs Hfm Hfc. unfold main_try, alloc_server.
  rewrite (bind_Val _ _ _ _ _
             (alloc_subtree w ctx Hmk (path_append tmpdir "mount") _ _ st Hfm)).
  set (mdir := numbered (path_append tmpdir "mount") 0 (rounds ctx)).
  assert (Hmlen : length mdir = rounds ctx) by apply numbered_length.
  rewrite (bind_Val _ _ _ _ _ (write_exports_ok w ctx mdir _ Hopen Hmlen)).
  match goal with
  | |- context [bind (exportfs w) _ ?s] =>
      rewrite (bind_Val _ _ _ _ _ (exportfs_ok w s Hefs))
  end.
  unfold alloc_client.
  match goal with
  | |- context [bind (bind (create_directory w ?p) ?k) ?k2 ?s3] =>
      assert (Hfc3 : fresh_below p s3)
        by now apply (fresh_client_after_server tmpdir (rounds ctx) st)
  end.
  rewrite (bind_Val _ _ _ _ _
             (alloc_subtree w ctx Hmk (path_append tmpdir "client") _ _ _ Hfc3)).
  set (cdir := numbered (path_append tmpdir "client") 0 (rounds ctx)).
  assert (Hclen : length cdir = rounds ctx) by apply numbered_length.
  match goal with
  | |- context [bind (map_together mdir cdir (rounds ctx) 0 ∅) ?k ?s4] =>
      destruct (map_together_ok mdir cdir (rounds ctx) 0 ∅ s4
                  ltac:(lia) ltac:(simpl; lia) ltac:(simpl; lia)) as (m_to_c & Emap);
      rewrite (bind_Val _ _ _ _ _ Emap);
      exists m_to_c, s4
  end.
  split; [reflexivity |]. split.
  - cbn [trace log upd_dirs upd_files upd_runs upd_cleanup upd_tdobj].
    repeat (rewrite <- ?app_assoc; cbn [app]). reflexivity.
  - repeat split.
Qed.

(** [DeleteNow] when [fs::remove_all] does not throw. *)
Lemma DeleteNow_runs (w : World) (st : Proc) :
  (forall k, remove_all_failure w k = None) ->
  DeleteNow w st
  = (Val tt,
     if (negb (preserve_ (tdobj st)) && negb (String.eqb (dir_ (tdobj st)) ""))%bool
     then log (upd_files
                 (upd_dirs st
                    (filter (fun q => is_under (dir_ (tdobj st)) q = false) (dirs st)))
                 (filter (fun kv => is_under (dir_ (tdobj st)) (fst kv) = false)
                         (files st)))
              [EvRemoveAll (dir_ (tdobj st))]
     else st).
Proof.
  intros Hall. unfold DeleteNow, bind, get.
  destruct (negb (preserve_ (tdobj st)) && negb (String.eqb (dir_ (tdobj st)) ""))%bool;
    [now apply remove_all_ok | reflexivity].
Qed.

(** The closure up to [DeleteNow], when nothing before it throws and
    [exportfs] reports no error. *)
Lemma cleanup_fn_runs (w : World) (st : Proc) :
  (forall k, umount_failure w k = None) ->
  (forall k, remove_failure w k = None) ->
  exportfs_ec w (exportfs_runs st) = 0 ->
  cleanup_fn w st
  = DeleteNow w
      (log (upd_runs
              (log (upd_files (log st [EvSystem umount_cmdline])
                      (delete exports (files st)))
                   [EvRemove exports])
              (S (exportfs_runs st)))
           [EvSystem (exportfs_path w +:+ " -ra")]).
Proof.
  intros Hu Hr Hefs. unfold cleanup_fn.
  rewrite (bind_Val _ _ _ _ _ (umount_all_ok w st (Hu _))).
  rewrite (bind_Val _ _ _ _ _ (remove_file_ok w exports _ (Hr _))).
  match goal with
  | |- context [bind (exportfs w) _ ?s] =>
      rewrite (bind_Val _ _ _ _ _ (exportfs_ok w s Hefs))
  end.
  reflexivity.
Qed.

(** The end of [main] after a caught exception or a passed check, when
    no step of the closure throws and [exportfs] works once more. *)
Lemma epilogue_ok (w : World) (exit_code : bool) (st : Proc) :
  cleanup_set st = true ->
  (forall k, umount_failure w k = None) ->
  (forall k, remove_failure w k = None) ->
  exportfs_ec w (exportfs_runs st) = 0 ->
  (forall k, remove_all_failure w k = None) ->
  dir_ (tdobj st) <> "" ->
  exists st' tail,
    (main_cleanup w ;;; main_return w exit_code) st
    = (Val (if exit_code then 1 else 0), st')
    /\ trace st'
       = (trace st
          ++ [EvSystem umount_cmdline; EvRemove exports;
              EvSystem (exportfs_path w +:+ " -ra")]
          ++ tail)%list
    /\ Forall (fun e => e = EvRemoveAll (dir_ (tdobj st))) tail
    /\ files st' !! exports = None
    /\ (preserve_ (tdobj st) = false ->
        forall q, q ∈ dirs st' -> is_under (dir_ (tdobj st)) q = false).
Proof.
  intros Hc Hu Hr Hefs Hall Hroot.
  assert (Hne : String.eqb (dir_ (tdobj st)) "" = false) by now apply String.eqb_neq.
  unfold main_cleanup. unfold bind at 1, bind at 1, get at 1. rewrite Hc.
  rewrite (cleanup_fn_runs w st Hu Hr Hefs), (DeleteNow_runs w _ Hall).
  unfold main_return. unfold bind at 1. rewrite (DeleteNow_runs w _ Hall).
  unfold ret.
  cbn [tdobj log upd_dirs upd_files upd_runs].
  destruct (preserve_ (tdobj st)) eqn:Hp; rewrite Hne; cbn [negb andb];
    cbn [tdobj log upd_dirs upd_files upd_runs]; rewrite ?Hp, ?Hne; cbn [negb andb].
  - eexists _, []. split; [reflexivity |].
    split; [| split; [constructor | split; [| discriminate]]].
    + cbn [trace log upd_dirs upd_files upd_runs upd_cleanup upd_tdobj].
      repeat (rewrite <- ?app_assoc; cbn [app]). reflexivity.
    + cbn [files log upd_dirs upd_files upd_runs upd_cleanup upd_tdobj].
      apply lookup_delete_eq.
  - eexists _, [EvRemoveAll (dir_ (tdobj st)); EvRemoveAll (dir_ (tdobj st))].
    split; [reflexivity |].
    split; [| split; [repeat constructor | split]].
    + cbn [trace log upd_dirs upd_files upd_runs upd_cleanup upd_tdobj].
      repeat (rewrite <- ?app_assoc; cbn [app]). reflexivity.
    + cbn [files log upd_dirs upd_files upd_runs upd_cleanup upd_tdobj].
      rewrite !map_lookup_filter_None. right. intros v Hv.
      apply map_lookup_filter_Some in Hv as [Hv _].
      now rewrite lookup_delete_eq in Hv.
    + intros _ q Hq.
      cbn [dirs log upd_dirs upd_files upd_runs upd_cleanup upd_tdobj] in Hq.
      now apply elem_of_filter in Hq as [Hu' _].
Qed.

(** X22.  With the preservation switch on, when neither the [umount]
    command nor [fs::remove] throws and [exportfs] reports no error, the
    cleanup closure returns after its three steps and no more: the
    unmount, the removal of the export file and the re-activation of the
    export table, in this order.  No directory is touched, the temporary
    root and what is below it included, and of the files only the export
    file is gone. *)
Theorem cleanup_under_preservation_keeps_the_disk (w : World) (st : Proc) :
  preserve_ (tdobj st) = true ->
  (forall k, umount_failure w k = None) ->
  (forall k, remove_failure w k = None) ->
  exportfs_ec w (exportfs_runs st) = 0 ->
  exists st',
    cleanup_fn w st = (Val tt, st')
    /\ trace st' = (trace st ++ cleanup_steps w)%list
    /\ dirs st' = dirs st
    /\ files st' = delete exports (files st)
    /\ tdobj st' = tdobj st.
Proof.
  intros Hp Hu Hr Hefs. rewrite (cleanup_fn_runs w st Hu Hr Hefs).
  unfold DeleteNow, bind, get. cbn [tdobj log upd_dirs upd_files upd_runs].
  rewrite Hp. cbn [negb andb]. eexists. split; [reflexivity |].
  split; [| repeat split].
  cbn [trace log upd_dirs upd_files upd_runs]. unfold cleanup_steps.
  repeat (rewrite <- ?app_assoc; cbn [app]). reflexivity.
Qed.

Lemma cleanup_under_preservation_keeps_the_disk_witness :
  let w := Scenario.calm in
  let st := snd (main_run w (Scenario.ctx 2 true) (initial w)) in
  preserve_ (tdobj st) = true
  /\ bool_decide (path_append Scenario.root "mount/d0001" ∈ dirs st) = true
  /\ exists st',
       cleanup_fn w st = (Val tt, st')
       /\ trace st' = (trace st ++ cleanup_steps w)%list
       /\ dirs st' = dirs st
       /\ files st' = delete exports (files st)
       /\ tdobj st' = tdobj st.
Proof.
  split; [vm_compute; reflexivity |]. split; [vm_compute; reflexivity |].
  apply (cleanup_under_preservation_keeps_the_disk Scenario.calm
           (snd (main_run Scenario.calm (Scenario.ctx 2 true)
                   (initial Scenario.calm))));
    [vm_compute; reflexivity | reflexivity | reflexivity | vm_compute; reflexivity].
Defined.

(** X23.  With the preservation switch off and a directory path that is
    not empty, when neither the [umount] command, [fs::remove] nor
    [fs::remove_all] throws and [exportfs] reports no error, the cleanup
    closure returns after its three steps and one recursive deletion of
    the temporary root: afterwards the directories are those of before
    that are not at or below the root, the export file and every file at
    or below the root are gone, and every other file is as it was. *)
Theorem cleanup_without_preservation_deletes_the_root (w : World) (st : Proc) :
  preserve_ (tdobj st) = false ->
  dir_ (tdobj st) <> "" ->
  (forall k, umount_failure w k = None) ->
  (forall k, remove_failure w k = None) ->
  exportfs_ec w (exportfs_runs st) = 0 ->
  (forall k, remove_all_failure w k = None) ->
  exists st',
    cleanup_fn w st = (Val tt, st')
    /\ trace st'
       = (trace st ++ cleanup_steps w ++ [EvRemoveAll (dir_ (tdobj st))])%list
    /\ (forall q, q ∈ dirs st'
                  <-> q ∈ dirs st /\ is_under (dir_ (tdobj st)) q = false)
    /\ files st' !! exports = None
    /\ (forall q, is_under (dir_ (tdobj st)) q = true -> files st' !! q = None)
    /\ (forall q, is_under (dir_ (tdobj st)) q = false -> q <> exports ->
                  files st' !! q = files st !! q).
Proof.
  intros Hp Hroot Hu Hr Hefs Hall.
  assert (Hne : String.eqb (dir_ (tdobj st)) "" = false) by now apply String.eqb_neq.
  rewrite (cleanup_fn_runs w st Hu Hr Hefs), (DeleteNow_runs w _ Hall).
  cbn [tdobj log upd_dirs upd_files upd_runs]. rewrite Hp, Hne. cbn [negb andb].
  eexists. split; [reflexivity |].
  cbn [trace dirs files log upd_dirs upd_files upd_runs].
  split; [| split; [| split; [| split]]].
  - unfold cleanup_steps. repeat (rewrite <- ?app_assoc; cbn [app]). reflexivity.
  - intros q. rewrite elem_of_filter. tauto.
  - apply map_lookup_filter_None. right. intros v Hv.
    now rewrite lookup_delete_eq in Hv.
  - intros q Hq. apply map_lookup_filter_None. right. intros v _. simpl.
    rewrite Hq. discriminate.
  - intros q Hq Hne'.
    destruct (files st !! q) as [v|] eqn:E.
    + apply map_lookup_filter_Some. split; [| exact Hq].
      rewrite lookup_delete_ne by congruence. exact E.
    + apply map_lookup_filter_None. left.
      rewrite lookup_delete_ne by congruence. exact E.
Qed.

Lemma cleanup_without_preservation_deletes_the_root_witness :
  let w := Scenario.calm in
  let st := snd (main_run w (Scenario.ctx 2 false) (initial w)) in
  preserve_ (tdobj st) = false
  /\ bool_decide (path_append Scenario.root "mount/d0001" ∈ dirs st) = true
  /\ exists st',
       cleanup_fn w st = (Val tt, st')
       /\ trace st'
          = (trace st ++ cleanup_steps w ++ [EvRemoveAll (dir_ (tdobj st))])%list
       /\ (forall q, q ∈ dirs st'
                     <-> q ∈ dirs st /\ is_under (dir_ (tdobj st)) q = false)
       /\ files st' !! exports = None
       /\ (forall q, is_under (dir_ (tdobj st)) q = true -> files st' !! q = None)
       /\ (forall q, is_under (dir_ (tdobj st)) q = false -> q <> exports ->
                     files st' !! q = files st !! q).
Proof.
  split; [vm_compute; reflexivity |]. split; [vm_compute; reflexivity |].
  apply (cleanup_without_preservation_deletes_the_root Scenario.calm
           (snd (main_run Scenario.calm (Scenario.ctx 2 false)
                   (initial Scenario.calm))));
    [vm_compute; reflexivity | vm_compute; discriminate | reflexivity
    | reflexivity | vm_compute; reflexivity | reflexivity].
Defined.

(** X11.  When the export file cannot be opened, and none of the steps
    of the cleanup closure throws, the exception of the stream is caught
    in [main]: one line with its text goes to the error stream, the
    closure runs in full, and [main] returns [1].  Of the run there
    remain no export file and, unless preservation was asked for, nothing
    of the temporary root. *)
Theorem export_file_failure_is_caught_and_cleaned_up
    (w : World) (ctx : Context) (what : string) :
  sigaction_errno w = 0 ->
  (forall p, mkdir_errno w p = 0) ->
  exports_open_failure w = Some what ->
  (forall k, umount_failure w k = None) ->
  (forall k, remove_failure w k = None) ->
  exportfs_ec w 0%nat = 0 ->
  (forall k, remove_all_failure w k = None) ->
  tmp_root w <> "" ->
  exists st' tail,
    main w ctx (initial w) = (Val 1, st')
    /\ trace st'
       = (EvMkdir (path_append (tmp_root w) "mount")
          :: (EvMkdir <$> server_dirs (tmp_root w) (threads ctx))
          ++ [EvStderr ("Caught exception: " +:+ what +:+ nl);
              EvSystem umount_cmdline; EvRemove exports;
              EvSystem (exportfs_path w +:+ " -ra")]
          ++ tail)%list
    /\ Forall (fun e => e = EvRemoveAll (tmp_root w)) tail
    /\ files st' !! exports = None
    /\ (preserve_temp ctx = false ->
        forall q, q ∈ dirs st' -> is_under (tmp_root w) q = false).
Proof.
  intros Hsig Hmk Hopen Hu Hr Hefs Hall Hroot.
  set (st0 := upd_cleanup (upd_tdobj (initial w) (settled_tdobj w ctx)) true).
  set (made := numbered (path_append (tmp_root w) "mount") 0 (rounds ctx)).
  set (st1 := log (upd_dirs st0
                     (list_to_set made
                      ∪ ({[path_append (tmp_root w) "mount"]} ∪ dirs st0)))
                  (EvMkdir (path_append (tmp_root w) "mount") :: (EvMkdir <$> made))).
  assert (Hfm : fresh_below (path_append (tmp_root w) "mount") st0).
  { apply initial_fresh; [reflexivity | reflexivity | discriminate]. }
  assert (Etry : (main_try w ctx (tmp_root w) ;;; ret false) st0 = (Throw what, st1)).
  { apply bind_Throw. unfold main_try, alloc_server.
    rewrite (bind_Val _ _ _ _ _
               (alloc_subtree w ctx Hmk (path_append (tmp_root w) "mount") _ _ st0 Hfm)).
    apply bind_Throw. unfold write_exports. now rewrite Hopen. }
  set (st2 := log st1 [EvStderr ("Caught exception: " +:+ what +:+ nl)]).
  assert (Erun : main_run w ctx (initial w) = (Val true, st2)).
  { rewrite (main_run_enters_try w ctx Hsig). fold st0.
    unfold try_catch. rewrite Etry. reflexivity. }
  destruct (epilogue_ok w true st2) as (st' & tail & Eend & Htr & Htail & Hfiles & Hgone);
    try assumption; try reflexivity.
  exists st', tail. split; [| split; [| split; [| split]]].
  - unfold main. rewrite (bind_Val _ _ _ _ _ Erun). exact Eend.
  - rewrite Htr. cbn [trace st2 st1 st0 log upd_dirs upd_cleanup upd_tdobj initial].
    unfold server_dirs. fold (rounds ctx). fold made.
    repeat (rewrite <- ?app_assoc; cbn [app]). reflexivity.
  - exact Htail.
  - exact Hfiles.
  - exact Hgone.
Qed.

Lemma export_file_failure_is_caught_and_cleaned_up_witness :
  let w := read_only_etc in
  let ctx := Scenario.ctx 2 false in
  exists st' tail,
    main w ctx (initial w) = (Val 1, st')
    /\ trace st'
       = (EvMkdir (path_append (tmp_root w) "mount")
          :: (EvMkdir <$> server_dirs (tmp_root w) (threads ctx))
          ++ [EvStderr ("Caught exception: "
                        +:+ "basic_ios::clear: iostream error" +:+ nl);
              EvSystem umount_cmdline; EvRemove exports;
              EvSystem (exportfs_path w +:+ " -ra")]
          ++ tail)%list
    /\ Forall (fun e => e = EvRemoveAll (tmp_root w)) tail
    /\ files st' !! exports = None
    /\ (preserve_temp ctx = false ->
        forall q, q ∈ dirs st' -> is_under (tmp_root w) q = false).
Proof.
  apply (export_file_failure_is_caught_and_cleaned_up read_only_etc
           (Scenario.ctx 2 false) "basic_ios::clear: iostream error");
    [reflexivity | reflexivity | reflexivity | reflexivity | reflexivity
    | reflexivity | reflexivity | discriminate].
Defined.

(** ** Thread counts below zero *)

(** X12.  A thread count below [-1] (the option takes any [int]) makes
    every loop run zero times and the barrier wait for a count that no
    thread brings about: on a machine where everything works the process
    blocks for ever with both roots made and an empty export table
    installed and activated, before any mount and before any cleanup. *)
Theorem thread_count_below_minus_one_blocks (w : World) (ctx : Context) :
  threads ctx < -1 ->
  sigaction_errno w = 0 ->
  (forall p, mkdir_errno w p = 0) ->
  exports_open_failure w = None ->
  exportfs_ec w 0%nat = 0 ->
  exists st',
    main w ctx (initial w) = (Hang, st')
    /\ trace st'
       = [EvMkdir (path_append (tmp_root w) "mount");
          EvWrite exports (begin_marker +:+ nl +:+ end_marker +:+ nl);
          EvSystem (exportfs_path w +:+ " -ra");
          EvMkdir (path_append (tmp_root w) "client")]
    /\ files st' !! exports = Some (begin_marker +:+ nl +:+ end_marker +:+ nl)
    /\ cleanup_set st' = true.
Proof.
  intros Hn Hsig Hmk Hopen Hefs.
  assert (Hr : rounds ctx = 0%nat) by (unfold rounds; lia).
  set (st0 := upd_cleanup (upd_tdobj (initial w) (settled_tdobj w ctx)) true).
  destruct (main_try_reaches_launch w ctx (tmp_root w) st0 Hmk Hopen Hefs)
    as (m_to_c & st4 & Etry & Htr & Hf & Hc & _ & _).
  { apply initial_fresh; [reflexivity | reflexivity | discriminate]. }
  { apply initial_fresh; [reflexivity | reflexivity | discriminate]. }
  rewrite Hr in Etry, Htr, Hf.
  change (numbered (path_append (tmp_root w) "mount") 0 0) with (@nil string)
    in Etry, Htr, Hf.
  change (numbered (path_append (tmp_root w) "client") 0 0) with (@nil string)
    in Etry, Htr.
  cbn [fmap list_fmap app] in Htr.
  assert (Elaunch : launch w ctx [] [] (fsid <$> seqZ 0 (Z.of_nat 0)) st4 = (Hang, st4)).
  { unfold launch, make_barrier, launcher_wait. rewrite Hr.
    destruct (Z.eqb_spec (threads ctx) INT_MAX) as [E|_];
      [unfold INT_MAX in E; lia |].
    destruct (Z.eqb_spec (threads ctx + 1) 0) as [|_]; [lia |].
    unfold bind at 1, ret at 1. cbn [start_mounters].
    unfold bind at 1, ret at 1. unfold launcher_wait.
    destruct (Z.ltb_spec (threads ctx + 1) 0) as [_|]; [| lia].
    reflexivity. }
  assert (Erun : main_run w ctx (initial w) = (Hang, st4)).
  { rewrite (main_run_enters_try w ctx Hsig). fold st0.
    unfold try_catch, bind at 1. unfold bind at 1. rewrite Etry.
    unfold bind at 1. rewrite Elaunch. reflexivity. }
  exists st4. split; [| split; [| split]].
  - unfold main. unfold bind at 1. rewrite Erun. reflexivity.
  - rewrite Htr. reflexivity.
  - rewrite Hf. apply lookup_insert_eq.
  - rewrite Hc. reflexivity.
Qed.

Lemma thread_count_below_minus_one_blocks_witness :
  exists st',
    main Scenario.calm (Scenario.ctx (-2) false) (initial Scenario.calm) = (Hang, st')
    /\ trace st'
       = [EvMkdir (path_append Scenario.root "mount");
          EvWrite exports (begin_marker +:+ nl +:+ end_marker +:+ nl);
          EvSystem ("/usr/sbin/exportfs" +:+ " -ra");
          EvMkdir (path_append Scenario.root "client")]
    /\ files st' !! exports = Some (begin_marker +:+ nl +:+ end_marker +:+ nl)
    /\ cleanup_set st' = true.
Proof.
  apply (thread_count_below_minus_one_blocks Scenario.calm (Scenario.ctx (-2) false));
    [change (-2 < -1); lia | reflexivity | reflexivity | reflexivity | reflexivity].
Defined.

(** X13.  With the thread count [-1] the barrier is asked for a count of
    zero and its constructor throws.  When none of the steps of the
    cleanup closure throws, the exception is caught, its text, whatever
    the library makes it, goes to the error stream, the closure runs and
    [main] returns [1].  Nothing was mounted, and the empty export table
    that had been installed is removed again. *)
Theorem thread_count_minus_one_fails_cleanly (w : World) (ctx : Context) :
  threads ctx = -1 ->
  sigaction_errno w = 0 ->
  (forall p, mkdir_errno w p = 0) ->
  exports_open_failure w = None ->
  exportfs_ec w 0%nat = 0 ->
  (forall k, umount_failure w k = None) ->
  (forall k, remove_failure w k = None) ->
  exportfs_ec w 1%nat = 0 ->
  (forall k, remove_all_failure w k = None) ->
  tmp_root w <> "" ->
  exists st' tail,
    main w ctx (initial w) = (Val 1, st')
    /\ trace st'
       = ([EvMkdir (path_append (tmp_root w) "mount");
           EvWrite exports (begin_marker +:+ nl +:+ end_marker +:+ nl);
           EvSystem (exportfs_path w +:+ " -ra");
           EvMkdir (path_append (tmp_root w) "client");
           EvStderr ("Caught exception: " +:+ barrier_what w +:+ nl);
           EvSystem umount_cmdline; EvRemove exports;
           EvSystem (exportfs_path w +:+ " -ra")]
          ++ tail)%list
    /\ Forall (fun e => e = EvRemoveAll (tmp_root w)) tail
    /\ files st' !! exports = None.
Proof.
  intros Hn Hsig Hmk Hopen Hefs0 Hu Hrm Hefs1 Hall Hroot.
  assert (Hr : rounds ctx = 0%nat) by (unfold rounds; lia).
  set (st0 := upd_cleanup (upd_tdobj (initial w) (settled_tdobj w ctx)) true).
  destruct (main_try_reaches_launch w ctx (tmp_root w) st0 Hmk Hopen Hefs0)
    as (m_to_c & st4 & Etry & Htr & Hf & Hc & Ht & Hk).
  { apply initial_fresh; [reflexivity | reflexivity | discriminate]. }
  { apply initial_fresh; [reflexivity | reflexivity | discriminate]. }
  rewrite Hr in Etry, Htr, Hf.
  change (numbered (path_append (tmp_root w) "mount") 0 0) with (@nil string)
    in Etry, Htr, Hf.
  change (numbered (path_append (tmp_root w) "client") 0 0) with (@nil string)
    in Etry, Htr.
  cbn [fmap list_fmap app] in Htr.
  assert (Elaunch : launch w ctx [] [] (fsid <$> seqZ 0 (Z.of_nat 0)) st4
                    = (Throw (barrier_what w), st4)).
  { unfold launch, make_barrier. rewrite Hn. reflexivity. }
  set (st5 := log st4 [EvStderr ("Caught exception: " +:+ barrier_what w +:+ nl)]).
  assert (Erun : main_run w ctx (initial w) = (Val true, st5)).
  { rewrite (main_run_enters_try w ctx Hsig). fold st0.
    unfold try_catch, bind at 1. unfold bind at 1. rewrite Etry.
    unfold bind at 1. rewrite Elaunch. reflexivity. }
  destruct (epilogue_ok w true st5) as (st' & tail & Eend & Htr' & Htail & Hfiles & _);
    try assumption.
  { change (exportfs_runs st5) with (exportfs_runs st4). rewrite Hk. exact Hefs1. }
  { change (tdobj st5) with (tdobj st4). rewrite Ht. exact Hroot. }
  exists st', tail. split; [| split; [| split]].
  - unfold main. rewrite (bind_Val _ _ _ _ _ Erun). exact Eend.
  - rewrite Htr'.
    change (trace st5)
      with (trace st4
            ++ [EvStderr ("Caught exception: " +:+ barrier_what w +:+ nl)])%list.
    rewrite Htr. cbn [trace st0 upd_cleanup upd_tdobj initial app].
    reflexivity.
  - change (tdobj st5) with (tdobj st4) in Htail. rewrite Ht in Htail. exact Htail.
  - exact Hfiles.
Qed.

Lemma thread_count_minus_one_fails_cleanly_witness :
  exists st' tail,
    main Scenario.calm (Scenario.ctx (-1) false) (initial Scenario.calm) = (Val 1, st')
    /\ trace st'
       = ([EvMkdir (path_append Scenario.root "mount");
           EvWrite exports (begin_marker +:+ nl +:+ end_marker +:+ nl);
           EvSystem ("/usr/sbin/exportfs" +:+ " -ra");
           EvMkdir (path_append Scenario.root "client");
           EvStderr ("Caught exception: " +:+ barrier_what Scenario.calm +:+ nl);
           EvSystem umount_cmdline; EvRemove exports;
           EvSystem ("/usr/sbin/exportfs" +:+ " -ra")]
          ++ tail)%list
    /\ Forall (fun e => e = EvRemoveAll Scenario.root) tail
    /\ files st' !! exports = None.
Proof.
  apply (thread_count_minus_one_fails_cleanly Scenario.calm (Scenario.ctx (-1) false));
    [reflexivity | reflexivity | reflexivity | reflexivity | reflexivity
    | reflexivity | reflexivity | reflexivity | reflexivity | discriminate].
Defined.

(** ** A directory that cannot be made *)

Lemma create_directory_made (w : World) (p : string) (st : Proc) :
  p ∉ dirs st -> mkdir_errno w p = 0 ->
  create_directory w p st
  = (Val (true, 0), log (upd_dirs st ({[p]} ∪ dirs st)) [EvMkdir p]).
Proof.
  intros Hp Hm. unfold create_directory, bind, get. simpl.
  destruct (decide (p ∈ dirs st)); [contradiction |].
  now rewrite Hm.
Qed.

Lemma create_directory_refused (w : World) (p : string) (st : Proc) :
  p ∉ dirs st -> mkdir_errno w p <> 0 ->
  create_directory w p st = (Val (false, mkdir_errno w p), st).
Proof.
  intros Hp Hm. unfold create_directory, bind, get. simpl.
  destruct (decide (p ∈ dirs st)); [contradiction |].
  now destruct (Z.eqb_spec (mkdir_errno w p) 0).
Qed.

(** X14.  When one of the numbered directories cannot be made, the loop
    ends the process there with status [1]: the directories before it
    have been made and stay, one line naming the path and the reason is
    on the error stream, and nothing is tried after it. *)
Theorem allocation_stops_at_first_refusal
    (w : World) (parent failmsg : string) (j : nat) :
  forall (k : nat) (d : Z) (st : Proc),
    (j < k)%nat -> 0 <= d ->
    (forall p, p ∈ numbered parent d (S j) -> p ∉ dirs st) ->
    (forall p, p ∈ numbered parent d j -> mkdir_errno w p = 0) ->
    mkdir_errno w (path_append parent (dir_name (d + Z.of_nat j))) <> 0 ->
    create_dirs w parent failmsg k d st
    = (Exit 1,
       log (upd_dirs st (list_to_set (numbered parent d j) ∪ dirs st))
           ((EvMkdir <$> numbered parent d j)
            ++ [EvStderr
                  ((failmsg +:+ path_append parent (dir_name (d + Z.of_nat j)))
                   +:+ ": "
                   +:+ strerror w
                         (mkdir_errno w
                            (path_append parent (dir_name (d + Z.of_nat j))))
                   +:+ nl)])%list).
Proof.
  induction j as [|j IH]; intros k d st Hjk Hd Hfresh Hok Hbad;
    (destruct k as [|k]; [lia |]); cbn [create_dirs].
  - rewrite Z.add_0_r in *.
    assert (Hp0 : path_append parent (dir_name d) ∉ dirs st).
    { apply Hfresh. rewrite numbered_succ. left. }
    rewrite (bind_Val _ _ _ _ _ (create_directory_refused w _ st Hp0 Hbad)).
    cbn [fst snd negb]. unfold error_sys, bind, emit, exit_, numbered.
    change (seqZ d (Z.of_nat 0)) with (@nil Z).
    cbn [fmap list_fmap app list_to_set]. f_equal.
    unfold log, upd_dirs. destruct st; simpl. f_equal.
    symmetry. apply (left_id_L ∅ (∪)).
  - replace (d + Z.of_nat (S j)) with (d + 1 + Z.of_nat j) in * by lia.
    set (p0 := path_append parent (dir_name d)).
    pose proof (NoDup_numbered parent d (S (S j)) Hd) as Hnd.
    rewrite numbered_succ in Hnd. fold p0 in Hnd.
    apply NoDup_cons in Hnd as [Hhd _].
    assert (Hp0 : p0 ∉ dirs st).
    { apply Hfresh. rewrite numbered_succ. left. }
    assert (Hm0 : mkdir_errno w p0 = 0).
    { apply Hok. rewrite numbered_succ. left. }
    rewrite (bind_Val _ _ _ _ _ (create_directory_made w p0 st Hp0 Hm0)).
    cbn [fst snd negb].
    assert (Hfresh' : forall p, p ∈ numbered parent (d + 1) (S j) ->
              p ∉ dirs (log (upd_dirs st ({[p0]} ∪ dirs st)) [EvMkdir p0])).
    { intros p Hp Hin. simpl in Hin. apply elem_of_union in Hin as [Hin|Hin].
      - apply elem_of_singleton in Hin as ->. contradiction.
      - revert Hin. apply Hfresh. rewrite numbered_succ. now right. }
    assert (Hok' : forall p, p ∈ numbered parent (d + 1) j -> mkdir_errno w p = 0).
    { intros p Hp. apply Hok. rewrite numbered_succ. now right. }
    rewrite (bind_Exit _ _ _ _ _
               (IH k (d + 1) (log (upd_dirs st ({[p0]} ∪ dirs st)) [EvMkdir p0])
                  ltac:(lia) ltac:(lia) Hfresh' Hok' Hbad)).
    rewrite (numbered_succ parent d j). fold p0.
    unfold log, upd_dirs. simpl. f_equal. f_equal.
    + rewrite (assoc_L (∪)).
      now rewrite (comm_L (∪) (list_to_set _) {[p0]}).
    + now rewrite <- app_assoc.
Qed.

Lemma allocation_stops_at_first_refusal_witness :
  let parent := path_append Scenario.root "mount" in
  let bad := path_append parent "d0001" in
  let w := no_room_for bad 28 in
  create_dirs w parent "Failed to create mount directory " 3 0 (initial w)
  = (Exit 1,
     log (upd_dirs (initial w)
            (list_to_set (numbered parent 0 1) ∪ dirs (initial w)))
         ((EvMkdir <$> numbered parent 0 1)
          ++ [EvStderr
                (("Failed to create mount directory "
                  +:+ path_append parent (dir_name (0 + Z.of_nat 1)))
                 +:+ ": "
                 +:+ strerror w
                       (mkdir_errno w
                          (path_append parent (dir_name (0 + Z.of_nat 1))))
                 +:+ nl)])%list).
Proof.
  apply (allocation_stops_at_first_refusal
           (no_room_for (path_append (path_append Scenario.root "mount") "d0001") 28)
           (path_append Scenario.root "mount")
           "Failed to create mount directory " 1 3 0).
  - lia.
  - lia.
  - intros p Hp Hin. apply numbered_under in Hp as [Hu _].
    cbn [dirs initial no_room_for tmp_root] in Hin.
    apply elem_of_singleton in Hin. subst p. vm_compute in Hu. discriminate.
  - intros p Hp. apply list_elem_of_In in Hp. vm_compute in Hp.
    destruct Hp as [<-|[]]. reflexivity.
  - vm_compute. discriminate.
Defined.

(** ** The switches of [TemporaryDirectory] *)

(** However a call of [remove_all] ends, it makes nothing and touches
    nothing that is not at or below its argument. *)
Lemma remove_all_outside (w : World) (p : string) (st : Proc) :
  (forall q, q ∈ dirs (snd (remove_all w p st)) -> q ∈ dirs st)
  /\ (forall q, is_under p q = false ->
        (q ∈ dirs st -> q ∈ dirs (snd (remove_all w p st)))
        /\ files (snd (remove_all w p st)) !! q = files st !! q).
Proof.
  cbv [remove_all now bind get emit set_dirs set_files throw].
  destruct (bool_decide _); [split; [auto | split; auto] |].
  destruct (remove_all_failure w (length (trace st))) as [[what gone]|];
    cbn [snd dirs files log upd_dirs upd_files].
  - split.
    + intros q Hq. now apply elem_of_filter in Hq as [_ Hq].
    + intros q Hq. split.
      * intros Hin. apply elem_of_filter. split; [| assumption].
        now rewrite Hq.
      * destruct (files st !! q) as [x|] eqn:E.
        -- apply map_lookup_filter_Some. split; [assumption |].
           simpl. now rewrite Hq.
        -- apply map_lookup_filter_None. now left.
  - split.
    + intros q Hq. now apply elem_of_filter in Hq as [_ Hq].
    + intros q Hq. split.
      * intros Hin. apply elem_of_filter. split; assumption.
      * destruct (files st !! q) as [x|] eqn:E.
        -- apply map_lookup_filter_Some. split; assumption.
        -- apply map_lookup_filter_None. now left.
Qed.

(** X15.  Of [PreserveContents] and [DiscardContents] the one called last
    decides what [DeleteNow] does.  After [PreserveContents] it returns
    and leaves the disk as it is.  After [DiscardContents] it calls
    [fs::remove_all]: however that ends, no directory is made and nothing
    outside the temporary directory is touched; and when the call
    returns, nothing is left at or below the temporary directory. *)
Theorem last_switch_decides_deletion (w : World) (st : Proc) :
  dir_ (tdobj st) <> "" ->
  (fst ((DiscardContents ;;; PreserveContents ;;; DeleteNow w) st) = Val tt
   /\ dirs (snd ((DiscardContents ;;; PreserveContents ;;; DeleteNow w) st)) = dirs st
   /\ files (snd ((DiscardContents ;;; PreserveContents ;;; DeleteNow w) st))
      = files st)
  /\ (forall q,
        q ∈ dirs (snd ((PreserveContents ;;; DiscardContents ;;; DeleteNow w) st)) ->
        q ∈ dirs st)
  /\ (forall q,
        is_under (dir_ (tdobj st)) q = false ->
        (q ∈ dirs st ->
         q ∈ dirs (snd ((PreserveContents ;;; DiscardContents ;;; DeleteNow w) st)))
        /\ files (snd ((PreserveContents ;;; DiscardContents ;;; DeleteNow w) st)) !! q
           = files st !! q)
  /\ (fst ((PreserveContents ;;; DiscardContents ;;; DeleteNow w) st) = Val tt ->
      forall q,
        is_under (dir_ (tdobj st)) q = true ->
        (q ∉ dirs (snd ((PreserveContents ;;; DiscardContents ;;; DeleteNow w) st)))
        /\ files (snd ((PreserveContents ;;; DiscardContents ;;; DeleteNow w) st)) !! q
           = None).
Proof.
  intros Hroot.
  assert (Hne : String.eqb (dir_ (tdobj st)) "" = false) by now apply String.eqb_neq.
  split; [repeat split |].
  set (st2 := upd_tdobj
                (upd_tdobj st {| dir_ := dir_ (tdobj st); preserve_ := true |})
                {| dir_ := dir_ (tdobj st); preserve_ := false |}).
  assert (E : (PreserveContents ;;; DiscardContents ;;; DeleteNow w) st
              = remove_all w (dir_ (tdobj st)) st2).
  { unfold PreserveContents, DiscardContents, DeleteNow, bind, get, set_tdobj.
    cbn [tdobj upd_tdobj dir_ preserve_ negb andb]. rewrite Hne. reflexivity. }
  rewrite E.
  destruct (remove_all_outside w (dir_ (tdobj st)) st2) as [Hsub Hout].
  split; [exact Hsub |]. split; [exact Hout |].
  intros Hval q Hq.
  destruct (remove_all w (dir_ (tdobj st)) st2) as [r st3] eqn:E3.
  simpl in Hval. subst r. apply remove_all_returns in E3. subst st3.
  cbn [snd dirs files log upd_dirs upd_files]. split.
  - intros Hin. apply elem_of_filter in Hin as [Hu _]. congruence.
  - apply map_lookup_filter_None. right. intros x _. simpl. congruence.
Qed.

Lemma last_switch_decides_deletion_witness :
  let w := Scenario.calm in
  let st := upd_dirs (initial Scenario.calm)
              {[Scenario.root; path_append Scenario.root "mount"; "/etc"]} in
  fst ((PreserveContents ;;; DiscardContents ;;; DeleteNow w) st) = Val tt
  /\ (fst ((DiscardContents ;;; PreserveContents ;;; DeleteNow w) st) = Val tt
   /\ dirs (snd ((DiscardContents ;;; PreserveContents ;;; DeleteNow w) st)) = dirs st
   /\ files (snd ((DiscardContents ;;; PreserveContents ;;; DeleteNow w) st))
      = files st)
  /\ (forall q,
        q ∈ dirs (snd ((PreserveContents ;;; DiscardContents ;;; DeleteNow w) st)) ->
        q ∈ dirs st)
  /\ (forall q,
        is_under (dir_ (tdobj st)) q = false ->
        (q ∈ dirs st ->
         q ∈ dirs (snd ((PreserveContents ;;; DiscardContents ;;; DeleteNow w) st)))
        /\ files (snd ((PreserveContents ;;; DiscardContents ;;; DeleteNow w) st)) !! q
           = files st !! q)
  /\ (fst ((PreserveContents ;;; DiscardContents ;;; DeleteNow w) st) = Val tt ->
      forall q,
        is_under (dir_ (tdobj st)) q = true ->
        (q ∉ dirs (snd ((PreserveContents ;;; DiscardContents ;;; DeleteNow w) st)))
        /\ files (snd ((PreserveContents ;;; DiscardContents ;;; DeleteNow w) st)) !! q
           = None).
Proof.
  split; [vm_compute; reflexivity |].
  apply (last_switch_decides_deletion Scenario.calm
           (upd_dirs (initial Scenario.calm)
              {[Scenario.root; path_append Scenario.root "mount"; "/etc"]})).
  discriminate.
Defined.

(** X16.  [DeleteNow] can be called again.  When the first call has
    returned, the second, which is what the destructor of [tdobj]
    amounts to after the cleanup closure has run, returns too and leaves
    directories and files as the first call left them: with the switch
    on it does nothing, and otherwise it calls [fs::remove_all] once
    more, which finds nothing to delete. *)
Theorem DeleteNow_twice_is_once (w : World) (st st1 : Proc) :
  DeleteNow w st = (Val tt, st1) ->
  fst (DeleteNow w st1) = Val tt
  /\ dirs (snd (DeleteNow w st1)) = dirs st1
  /\ files (snd (DeleteNow w st1)) = files st1
  /\ trace (snd (DeleteNow w st1))
     = (trace st1
        ++ if (negb (preserve_ (tdobj st))
               && negb (String.eqb (dir_ (tdobj st)) ""))%bool
           then [EvRemoveAll (dir_ (tdobj st))] else [])%list.
Proof.
  intros E. pose proof (DeleteNow_keeps w st) as (_ & Ht & _).
  rewrite E in Ht. simpl in Ht.
  unfold DeleteNow, bind, get in *. rewrite Ht.
  destruct (negb (preserve_ (tdobj st)) && negb (String.eqb (dir_ (tdobj st)) ""))%bool;
    [| repeat split; simpl; now rewrite app_nil_r].
  apply remove_all_returns in E.
  cbv [remove_all now bind get emit set_dirs set_files throw].
  destruct (bool_decide_reflect
              (set_Forall (fun q => is_under (dir_ (tdobj st)) q = false)
                          (dirs st1 ∪ dom (files st1)))) as [_|Hn];
    [repeat split |].
  exfalso. apply Hn. subst st1. cbn [dirs files log upd_dirs upd_files].
  intros q Hq. apply elem_of_union in Hq as [Hq|Hq].
  - now apply elem_of_filter in Hq as [Hu _].
  - apply elem_of_dom in Hq as [x Hx].
    now apply map_lookup_filter_Some in Hx as [_ Hu].
Qed.

Lemma DeleteNow_twice_is_once_witness :
  let w := Scenario.calm in
  let st := upd_dirs (initial Scenario.calm)
              {[Scenario.root; path_append Scenario.root "mount"; "/etc"]} in
  let st1 := snd (DeleteNow w st) in
  DeleteNow w st = (Val tt, st1)
  /\ fst (DeleteNow w st1) = Val tt
  /\ dirs (snd (DeleteNow w st1)) = dirs st1
  /\ files (snd (DeleteNow w st1)) = files st1
  /\ trace (snd (DeleteNow w st1))
     = (trace st1
        ++ if (negb (preserve_ (tdobj st))
               && negb (String.eqb (dir_ (tdobj st)) ""))%bool
           then [EvRemoveAll (dir_ (tdobj st))] else [])%list.
Proof.
  assert (E : DeleteNow Scenario.calm
                (upd_dirs (initial Scenario.calm)
                   {[Scenario.root; path_append Scenario.root "mount"; "/etc"]})
              = (Val tt,
                 snd (DeleteNow Scenario.calm
                        (upd_dirs (initial Scenario.calm)
                           {[Scenario.root; path_append Scenario.root "mount";
                             "/etc"]})))).
  { apply DeleteNow_runs. reflexivity. }
  split; [exact E |].
  exact (DeleteNow_twice_is_once Scenario.calm _ _ E).
Defined.

(** ** The shape of the file system ids *)

(** X17.  For fewer than 65536 pairs every file system id has the textual
    form of a UUID; the id of pair 65536 has not, its last group being one
    digit too long. *)
Theorem fsid_is_uuid_shaped_below_65536 (d : Z) :
  (0 <= d < 65536 -> uuid_shaped (fsid d) = true)
  /\ uuid_shaped (fsid 65536) = false.
Proof.
  split; [| vm_compute; reflexivity].
  intros Hd.
  assert (Hall : holds_from (fun i => uuid_shaped (fsid i)) (Z.to_nat 65536) 0 = true)
    by (vm_compute; reflexivity).
  apply (holds_from_all _ _ _ Hall). lia.
Qed.

Lemma fsid_is_uuid_shaped_below_65536_witness :
  (0 <= 255 < 65536 -> uuid_shaped (fsid 255) = true)
  /\ uuid_shaped (fsid 65536) = false.
Proof. exact (fsid_is_uuid_shaped_below_65536 255). Defined.

(** ** More paths to the end of [main] *)

(** X18.  When the signal handler cannot be installed the process ends
    with status [1] before anything is done: the only effect is one line
    on the error stream, and the temporary root that [tdobj] made stays
    behind, preserved or not. *)
Theorem handler_installation_failure_ends_the_run (w : World) (ctx : Context) :
  sigaction_errno w <> 0 ->
  exists st',
    main w ctx (initial w) = (Exit 1, st')
    /\ trace st'
       = [EvStderr ("Unable to install signal handler" +:+ ": "
                    +:+ strerror w (sigaction_errno w) +:+ nl)]
    /\ dirs st' = {[tmp_root w]}
    /\ files st' = ∅.
Proof.
  intros Hsig. unfold main, main_run.
  destruct (Z.eqb_spec (sigaction_errno w) 0) as [|_]; [contradiction |].
  destruct (preserve_temp ctx); eexists; (split; [reflexivity |]); repeat split.
Qed.

Lemma handler_installation_failure_ends_the_run_witness :
  let w := {| tmp_root := Scenario.root;
              exportfs_path := "/usr/sbin/exportfs";
              mount_path := "/usr/bin/mount";
              sigaction_errno := 22;
              mkdir_errno := fun _ => 0;
              exports_open_failure := None;
              exportfs_ec := fun _ => 0;
              mount_ec := fun _ => 0;
              mount_returns := fun _ => true;
              async_failure := fun _ => None;
              barrier_what :=
                "barrier constructor: count cannot be zero.: Invalid argument";
              umount_failure := fun _ => None;
              remove_failure := fun _ => None;
              remove_all_failure := fun _ => None;
              proc_mounts := inr [];
              strerror := fun e => "error " +:+ fmt_int e |} in
  exists st',
    main w (Scenario.ctx 2 false) (initial w) = (Exit 1, st')
    /\ trace st'
       = [EvStderr ("Unable to install signal handler" +:+ ": "
                    +:+ strerror w (sigaction_errno w) +:+ nl)]
    /\ dirs st' = {[tmp_root w]}
    /\ files st' = ∅.
Proof.
  intros w.
  apply (handler_installation_failure_ends_the_run w (Scenario.ctx 2 false)).
  discriminate.
Defined.
(** The mounters that are started for the numbered directories. *)
Lemma start_mounters_numbered
    (w : World) (mroot croot : string) (muuid : list string) (K : nat) :
  (forall d, async_failure w d = None) ->
  forall (k : nat) (d : Z) (st : Proc),
    0 <= d ->
    (Z.to_nat d + k <= K)%nat ->
    (Z.to_nat d + k <= length muuid)%nat ->
    start_mounters w (numbered mroot 0 K) (numbered croot 0 K) muuid k d st
    = (Val ((fun i => {| m_d := i; m_md := path_append mroot (dir_name i);
                         m_cd := path_append croot (dir_name i) |})
              <$> seqZ d (Z.of_nat k)), st).
Proof.
  intros Hasync. induction k as [|k IH]; intros d st Hd HK Hu; [reflexivity |].
  cbn [start_mounters].
  assert (Hlook : forall root,
            numbered root 0 K !! Z.to_nat d = Some (path_append root (dir_name d))).
  { intros root. rewrite numbered_lookup by lia.
    now rewrite Z.add_0_l, Z2Nat.id by lia. }
  rewrite (bind_Val _ _ _ _ _ (vec_at_Some _ d _ st Hd (Hlook croot))).
  rewrite (bind_Val _ _ _ _ _ (vec_at_Some _ d _ st Hd (Hlook mroot))).
  destruct (vec_at_lt muuid d st Hd ltac:(lia)) as (u & _ & Eu).
  rewrite (bind_Val _ _ _ _ _ Eu), Hasync.
  rewrite (bind_Val _ _ _ _ _ (IH (d + 1) st ltac:(lia) ltac:(lia) ltac:(lia))).
  now rewrite seqZ_succ, fmap_cons.
Qed.

Lemma expected_failures_counts (w : World) (ctx : Context) :
  expected_failures w ctx = failed_count w (threads ctx).
Proof.
  unfold expected_failures, failed_count.
  induction (seqZ 0 (threads ctx)) as [|d l IH]; [reflexivity |].
  rewrite fmap_cons. cbn [count_failures List.filter]. rewrite IH.
  unfold mount_result.
  destruct (Z.eqb_spec (mount_ec w d) 0) as [E|E]; cbn [negb].
  - change (0 =? 0) with true. cbn [negb]. lia.
  - destruct (Z.eqb_spec (mount_ec w d) 0); [contradiction |]. cbn [negb length].
    lia.
Qed.

(** The launch for the numbered directories, when every thread can be
    started and every [mount] command returns. *)
Lemma launch_numbered (w : World) (ctx : Context) (tmpdir : string) (st : Proc) :
  0 <= threads ctx < INT_MAX ->
  (forall d, async_failure w d = None) ->
  (forall d, mount_returns w d = true) ->
  launch w ctx (server_dirs tmpdir (threads ctx)) (client_dirs tmpdir (threads ctx))
    (fsid <$> seqZ 0 (Z.of_nat (rounds ctx))) st
  = (Val (failed_count w (threads ctx)),
     log st (mount_commands w tmpdir (threads ctx)
             ++ failed_report w (threads ctx))).
Proof.
  intros Hn Hasync Hret. unfold launch, make_barrier, launcher_wait.
  destruct (Z.eqb_spec (threads ctx) INT_MAX) as [|_]; [lia |].
  destruct (Z.eqb_spec (threads ctx + 1) 0) as [|_]; [lia |].
  unfold ret at 1. unfold bind at 1.
  unfold server_dirs, client_dirs. fold (rounds ctx).
  rewrite (bind_Val _ _ _ _ _
             (start_mounters_numbered w (path_append tmpdir "mount")
                (path_append tmpdir "client")
                (fsid <$> seqZ 0 (Z.of_nat (rounds ctx))) (rounds ctx) Hasync
                (rounds ctx) 0 st
                ltac:(lia) ltac:(simpl; lia)
                ltac:(rewrite length_fmap, length_seqZ; simpl; lia))).
  destruct (Z.ltb_spec (threads ctx + 1) 0) as [|_]; [lia |].
  unfold ret at 1. unfold bind at 1.
  match goal with
  | |- context [bind (run_mounters w ?ms) _ st] =>
      rewrite (bind_Val _ _ _ _ _ (run_mounters_ok w ms st));
      rewrite (bind_Val _ _ _ _ _ (get_futures_ok w ms _ Hret))
  end.
  rewrite <- !list_fmap_compose.
  unfold rounds. rewrite Z2Nat.id by lia.
  change (count_failures ((mount_result w ∘ m_d ∘ _) <$> seqZ 0 (threads ctx)))
    with (expected_failures w ctx).
  rewrite expected_failures_counts.
  unfold failed_report, mount_commands.
  destruct (Z.eqb_spec (failed_count w (threads ctx)) 0) as [E|E]; cbn [negb].
  - unfold bind, ret. now rewrite app_nil_r.
  - unfold bind, emit, ret. now rewrite log_log.
Qed.

(** The [try] block up to the reading of the mount table. *)
Lemma main_try_reaches_verify
    (w : World) (ctx : Context) (tmpdir : string) (st : Proc) :
  0 <= threads ctx < INT_MAX ->
  (forall p, mkdir_errno w p = 0) ->
  exports_open_failure w = None ->
  exportfs_ec w (exportfs_runs st) = 0 ->
  (forall d, async_failure w d = None) ->
  (forall d, mount_returns w d = true) ->
  fresh_below (path_append tmpdir "mount") st ->
  fresh_below (path_append tmpdir "client") st ->
  exists m_to_c st5,
    main_try w ctx tmpdir st = verify w m_to_c st5
    /\ trace st5
       = (trace st ++ setup_events w tmpdir (threads ctx)
          ++ mount_commands w tmpdir (threads ctx)
          ++ failed_report w (threads ctx))%list
    /\ cleanup_set st5 = cleanup_set st
    /\ tdobj st5 = tdobj st
    /\ exportfs_runs st5 = S (exportfs_runs st).
Proof.
  intros Hn Hmk Hopen Hefs Hasync Hret Hfm Hfc.
  destruct (main_try_reaches_launch w ctx tmpdir st Hmk Hopen Hefs Hfm Hfc)
    as (m_to_c & st4 & Etry & Htr & _ & Hc & Ht & Hk).
  exists m_to_c, (log st4 (mount_commands w tmpdir (threads ctx)
                           ++ failed_report w (threads ctx))).
  split; [| split; [| repeat split; assumption]].
  - rewrite Etry.
    pose proof (launch_numbered w ctx tmpdir st4 Hn Hasync Hret) as El.
    unfold server_dirs, client_dirs in El. fold (rounds ctx) in El.
    now rewrite (bind_Val _ _ _ _ _ El).
  - cbn [trace log]. rewrite Htr. unfold setup_events, server_dirs, client_dirs.
    fold (rounds ctx). repeat (rewrite <- ?app_assoc; cbn [app]). reflexivity.
Qed.

(** X19.  When the live mount table cannot be opened, while everything
    before it works and no step of the cleanup closure throws, every
    mount command has been issued already; the exception is caught and
    reported on the error stream after the count of the failed mounts,
    the closure runs in full and [main] returns [1]. *)
Theorem mount_table_failure_is_caught_and_cleaned_up
    (w : World) (ctx : Context) (what : string) :
  0 <= threads ctx < INT_MAX ->
  sigaction_errno w = 0 ->
  (forall p, mkdir_errno w p = 0) ->
  exports_open_failure w = None ->
  exportfs_ec w 0%nat = 0 ->
  (forall d, async_failure w d = None) ->
  (forall d, mount_returns w d = true) ->
  proc_mounts w = inl what ->
  (forall k, umount_failure w k = None) ->
  (forall k, remove_failure w k = None) ->
  exportfs_ec w 1%nat = 0 ->
  (forall k, remove_all_failure w k = None) ->
  tmp_root w <> "" ->
  exists st' tail,
    main w ctx (initial w) = (Val 1, st')
    /\ trace st'
       = (setup_events w (tmp_root w) (threads ctx)
          ++ mount_commands w (tmp_root w) (threads ctx)
          ++ failed_report w (threads ctx)
          ++ EvStderr ("Caught exception: " +:+ what +:+ nl)
             :: cleanup_steps w
          ++ tail)%list
    /\ Forall (fun e => e = EvRemoveAll (tmp_root w)) tail
    /\ files st' !! exports = None.
Proof.
  intros Hn Hsig Hmk Hopen Hefs0 Hasync Hret Hpm Hu Hrm Hefs1 Hall Hroot.
  set (st0 := upd_cleanup (upd_tdobj (initial w) (settled_tdobj w ctx)) true).
  destruct (main_try_reaches_verify w ctx (tmp_root w) st0 Hn Hmk Hopen Hefs0
              Hasync Hret)
    as (m_to_c & st5 & Etry & Htr & Hc & Ht & Hk).
  { apply initial_fresh; [reflexivity | reflexivity | discriminate]. }
  { apply initial_fresh; [reflexivity | reflexivity | discriminate]. }
  set (st6 := log st5 [EvStderr ("Caught exception: " +:+ what +:+ nl)]).
  assert (Erun : main_run w ctx (initial w) = (Val true, st6)).
  { rewrite (main_run_enters_try w ctx Hsig). fold st0.
    unfold try_catch, bind at 1. rewrite Etry.
    unfold verify, read_mounts. rewrite Hpm. reflexivity. }
  destruct (epilogue_ok w true st6) as (st' & tail & Eend & Htr' & Htail & Hfiles & _);
    try assumption.
  { change (exportfs_runs st6) with (exportfs_runs st5). rewrite Hk. exact Hefs1. }
  { change (tdobj st6) with (tdobj st5). rewrite Ht. exact Hroot. }
  change (tdobj st6) with (tdobj st5) in Htail. rewrite Ht in Htail.
  exists st', tail. split; [| split; [| split]].
  - unfold main. rewrite (bind_Val _ _ _ _ _ Erun). exact Eend.
  - rewrite Htr'. cbn [trace st6 log]. rewrite Htr.
    cbn [trace st0 upd_cleanup upd_tdobj initial]. unfold cleanup_steps.
    repeat (rewrite <- ?app_assoc; cbn [app]). reflexivity.
  - exact Htail.
  - exact Hfiles.
Qed.

Lemma mount_table_failure_is_caught_and_cleaned_up_witness :
  let w := no_mount_table in
  let ctx := Scenario.ctx 2 false in
  exists st' tail,
    main w ctx (initial w) = (Val 1, st')
    /\ trace st'
       = (setup_events w (tmp_root w) (threads ctx)
          ++ mount_commands w (tmp_root w) (threads ctx)
          ++ failed_report w (threads ctx)
          ++ EvStderr ("Caught exception: "
                       +:+ "basic_ios::clear: iostream error" +:+ nl)
             :: cleanup_steps w
          ++ tail)%list
    /\ Forall (fun e => e = EvRemoveAll (tmp_root w)) tail
    /\ files st' !! exports = None.
Proof.
  apply (mount_table_failure_is_caught_and_cleaned_up no_mount_table
           (Scenario.ctx 2 false) "basic_ios::clear: iostream error");
    [change (0 <= 2 < 2147483647); lia | reflexivity | reflexivity | reflexivity
    | reflexivity | reflexivity | reflexivity | reflexivity | reflexivity
    | reflexivity | reflexivity | reflexivity | discriminate].
Defined.

Lemma failed_count_pos (w : World) (n d : Z) :
  0 <= d < n -> mount_ec w d <> 0 -> 0 < failed_count w n.
Proof.
  intros Hd Hne. unfold failed_count.
  assert (Hin : In d (List.filter (fun d => negb (mount_ec w d =? 0)) (seqZ 0 n))).
  { apply List.filter_In. split.
    - apply list_elem_of_In, elem_of_seqZ. lia.
    - now destruct (Z.eqb_spec (mount_ec w d) 0). }
  destruct (List.filter _ _); [contradiction | simpl; lia].
Qed.

(** [main] up to the call of the cleanup closure, when the check of the
    mount table passes. *)
Lemma main_run_passes
    (w : World) (ctx : Context) (mline : list string) :
  0 <= threads ctx < INT_MAX ->
  sigaction_errno w = 0 ->
  (forall p, mkdir_errno w p = 0) ->
  exports_open_failure w = None ->
  exportfs_ec w 0%nat = 0 ->
  (forall d, async_failure w d = None) ->
  (forall d, mount_returns w d = true) ->
  proc_mounts w = inr mline ->
  Forall passed_over mline ->
  exists st6,
    main_run w ctx (initial w) = (Val false, st6)
    /\ trace st6
       = (setup_events w (tmp_root w) (threads ctx)
          ++ mount_commands w (tmp_root w) (threads ctx)
          ++ failed_report w (threads ctx)
          ++ [EvReadMounts])%list
    /\ cleanup_set st6 = true
    /\ tdobj st6 = settled_tdobj w ctx
    /\ exportfs_runs st6 = 1%nat.
Proof.
  intros Hn Hsig Hmk Hopen Hefs0 Hasync Hret Hpm Hpass.
  set (st0 := upd_cleanup (upd_tdobj (initial w) (settled_tdobj w ctx)) true).
  destruct (main_try_reaches_verify w ctx (tmp_root w) st0 Hn Hmk Hopen Hefs0
              Hasync Hret)
    as (m_to_c & st5 & Etry & Htr & Hc & Ht & Hk).
  { apply initial_fresh; [reflexivity | reflexivity | discriminate]. }
  { apply initial_fresh; [reflexivity | reflexivity | discriminate]. }
  exists (log st5 [EvReadMounts]). split; [| split; [| repeat split]].
  - rewrite (main_run_enters_try w ctx Hsig). fold st0.
    unfold try_catch, bind at 1. rewrite Etry.
    now rewrite (verify_ok w m_to_c mline st5 Hpm Hpass).
  - cbn [trace log]. rewrite Htr. cbn [trace st0 upd_cleanup upd_tdobj initial].
    repeat (rewrite <- ?app_assoc; cbn [app]). reflexivity.
  - exact Hc.
  - exact Ht.
  - exact Hk.
Qed.

(** X24.  When everything but some [mount] command works (the handler is
    installed, the directories are made, the export table is written and
    activated, every thread starts and every [mount] returns, the mount
    table can be read and the scan passes over each of its records, no
    step of the cleanup closure throws and [exportfs] works again), a
    pair whose [mount] command gives an error code other than zero does
    not stop the run: every mount command is issued, the number of failed
    pairs goes to the error stream, the mount table is read after that,
    the closure runs in full, and [main] returns [0]. *)
Theorem failed_mounts_are_counted_and_exit_is_zero
    (w : World) (ctx : Context) (mline : list string) :
  0 <= threads ctx < INT_MAX ->
  sigaction_errno w = 0 ->
  (forall p, mkdir_errno w p = 0) ->
  exports_open_failure w = None ->
  exportfs_ec w 0%nat = 0 ->
  (forall d, async_failure w d = None) ->
  (forall d, mount_returns w d = true) ->
  proc_mounts w = inr mline ->
  Forall passed_over mline ->
  (forall k, umount_failure w k = None) ->
  (forall k, remove_failure w k = None) ->
  exportfs_ec w 1%nat = 0 ->
  (forall k, remove_all_failure w k = None) ->
  tmp_root w <> "" ->
  (exists d, 0 <= d < threads ctx /\ mount_ec w d <> 0) ->
  exists st' tail,
    main w ctx (initial w) = (Val 0, st')
    /\ 0 < failed_count w (threads ctx)
    /\ trace st'
       = (setup_events w (tmp_root w) (threads ctx)
          ++ mount_commands w (tmp_root w) (threads ctx)
          ++ EvStderr ("Got " +:+ fmt_int (failed_count w (threads ctx))
                       +:+ " mount failures" +:+ nl)
             :: EvReadMounts
             :: cleanup_steps w
          ++ tail)%list
    /\ Forall (fun e => e = EvRemoveAll (tmp_root w)) tail.
Proof.
  intros Hn Hsig Hmk Hopen Hefs0 Hasync Hret Hpm Hpass Hu Hrm Hefs1 Hall Hroot
         (d & Hd & Hfail).
  pose proof (failed_count_pos w (threads ctx) d Hd Hfail) as Hpos.
  destruct (main_run_passes w ctx mline Hn Hsig Hmk Hopen Hefs0 Hasync Hret
              Hpm Hpass) as (st6 & Erun & Htr & Hc & Ht & Hk).
  destruct (epilogue_ok w false st6) as (st' & tail & Eend & Htr' & Htail & _);
    try assumption.
  { now rewrite Hk. }
  { now rewrite Ht. }
  rewrite Ht in Htail.
  exists st', tail. split; [| split; [exact Hpos | split; [| exact Htail]]].
  - unfold main. rewrite (bind_Val _ _ _ _ _ Erun). exact Eend.
  - rewrite Htr', Htr. unfold failed_report, cleanup_steps.
    destruct (Z.eqb_spec (failed_count w (threads ctx)) 0) as [E|_]; [lia |].
    repeat (rewrite <- ?app_assoc; cbn [app]). reflexivity.
Qed.

Lemma failed_mounts_are_counted_and_exit_is_zero_witness :
  let w := Scenario.one_mount_fails in
  let ctx := Scenario.ctx 2 false in
  failed_count w (threads ctx) = 1
  /\ exists st' tail,
       main w ctx (initial w) = (Val 0, st')
       /\ 0 < failed_count w (threads ctx)
       /\ trace st'
          = (setup_events w (tmp_root w) (threads ctx)
             ++ mount_commands w (tmp_root w) (threads ctx)
             ++ EvStderr ("Got " +:+ fmt_int (failed_count w (threads ctx))
                          +:+ " mount failures" +:+ nl)
                :: EvReadMounts
                :: cleanup_steps w
             ++ tail)%list
       /\ Forall (fun e => e = EvRemoveAll (tmp_root w)) tail.
Proof.
  split; [reflexivity |].
  apply (failed_mounts_are_counted_and_exit_is_zero Scenario.one_mount_fails
           (Scenario.ctx 2 false) ["/dev/sda1 / ext4 rw,relatime 0 0"]);
    [change (0 <= 2 < 2147483647); lia | reflexivity | reflexivity | reflexivity
    | reflexivity | reflexivity | reflexivity | reflexivity
    | constructor; [split; [vm_compute; lia | reflexivity] | constructor]
    | reflexivity | reflexivity | reflexivity | reflexivity | discriminate
    | exists 1; split; [change (0 <= 1 < 2); lia | discriminate]].
Defined.

Lemma remove_file_throws (w : World) (p what : string) (st : Proc) :
  remove_failure w (length (trace st)) = Some what ->
  remove_file w p st = (Throw what, log st [EvRemove p]).
Proof.
  intros H. cbv [remove_file now bind get emit set_files throw]. now rewrite H.
Qed.

(** X25.  An exception thrown in the cleanup closure at the end of [main]
    is caught by nobody: the call is after the [try] statement.  When the
    run itself passes (everything works and the scan passes over every
    record of the mount table) and then [fs::remove] of the export file
    throws, [main] does not return: the exception leaves it after the
    unmount and the attempt to remove the file, the export table is not
    activated again and no deletion of the temporary root is issued. *)
Theorem exception_in_cleanup_leaves_main
    (w : World) (ctx : Context) (mline : list string) (what : string) :
  0 <= threads ctx < INT_MAX ->
  sigaction_errno w = 0 ->
  (forall p, mkdir_errno w p = 0) ->
  exports_open_failure w = None ->
  exportfs_ec w 0%nat = 0 ->
  (forall d, async_failure w d = None) ->
  (forall d, mount_returns w d = true) ->
  proc_mounts w = inr mline ->
  Forall passed_over mline ->
  (forall k, umount_failure w k = None) ->
  (forall k, remove_failure w k = Some what) ->
  exists st',
    main w ctx (initial w) = (Throw what, st')
    /\ trace st'
       = (setup_events w (tmp_root w) (threads ctx)
          ++ mount_commands w (tmp_root w) (threads ctx)
          ++ failed_report w (threads ctx)
          ++ [EvReadMounts; EvSystem umount_cmdline; EvRemove exports])%list
    /\ exportfs_runs st' = 1%nat.
Proof.
  intros Hn Hsig Hmk Hopen Hefs0 Hasync Hret Hpm Hpass Hu Hrm.
  destruct (main_run_passes w ctx mline Hn Hsig Hmk Hopen Hefs0 Hasync Hret
              Hpm Hpass) as (st6 & Erun & Htr & Hc & Ht & Hk).
  exists (log (log st6 [EvSystem umount_cmdline]) [EvRemove exports]).
  split; [| split].
  - unfold main. rewrite (bind_Val _ _ _ _ _ Erun).
    apply bind_Throw. unfold main_cleanup. unfold bind at 1, get at 1.
    rewrite Hc. unfold cleanup_fn.
    rewrite (bind_Val _ _ _ _ _ (umount_all_ok w st6 (Hu _))).
    apply bind_Throw. apply remove_file_throws. apply Hrm.
  - cbn [trace log]. rewrite Htr.
    repeat (rewrite <- ?app_assoc; cbn [app]). reflexivity.
  - exact Hk.
Qed.

Lemma exception_in_cleanup_leaves_main_witness :
  let w := no_remove in
  let ctx := Scenario.ctx 2 false in
  exists st',
    main w ctx (initial w)
    = (Throw "filesystem error: cannot remove: Not a directory", st')
    /\ trace st'
       = (setup_events w (tmp_root w) (threads ctx)
          ++ mount_commands w (tmp_root w) (threads ctx)
          ++ failed_report w (threads ctx)
          ++ [EvReadMounts; EvSystem umount_cmdline; EvRemove exports])%list
    /\ exportfs_runs st' = 1%nat.
Proof.
  apply (exception_in_cleanup_leaves_main no_remove (Scenario.ctx 2 false) []
           "filesystem error: cannot remove: Not a directory");
    [change (0 <= 2 < 2147483647); lia | reflexivity | reflexivity | reflexivity
    | reflexivity | reflexivity | reflexivity | reflexivity | constructor
    | reflexivity | reflexivity].
Defined.

Lemma get_futures_blocks (w : World) (ms : list mounter) (st : Proc) :
  (exists m, m ∈ ms /\ mount_returns w (m_d m) = false) ->
  get_futures w ms st = (Hang, st).
Proof.
  intros (m0 & Hin & Hno). induction ms as [|m ms IH]; [inversion Hin |].
  cbn [get_futures]. unfold bind at 1, future_get.
  destruct (mount_returns w (m_d m)) eqn:Hm; [| reflexivity].
  assert (Hin' : m0 ∈ ms).
  { apply elem_of_cons in Hin as [->|Hin]; [congruence | assumption]. }
  assert (E : forall r, (if negb (mount_ec w (m_d m) =? 0)
                         then ret (mount_ec w (m_d m)) else ret 0) st = (Val r, st)
                        -> (bind (get_futures w ms) (fun rs => ret (r :: rs))) st
                           = (Hang, st)).
  { intros r _. unfold bind. now rewrite (IH Hin'). }
  destruct (negb (mount_ec w (m_d m) =? 0)); now apply E.
Qed.

(** X26.  When everything up to the mounts works and the [mount] command
    of one pair never returns, the process blocks for ever in the loop
    over the futures: every mount command has been issued, nothing is
    reported, the mount table is not read, and the cleanup closure does
    not run, so the export file and the directories stay. *)
Theorem mount_that_never_returns_blocks_the_run
    (w : World) (ctx : Context) (d : Z) :
  0 <= threads ctx < INT_MAX ->
  sigaction_errno w = 0 ->
  (forall p, mkdir_errno w p = 0) ->
  exports_open_failure w = None ->
  exportfs_ec w 0%nat = 0 ->
  (forall i, async_failure w i = None) ->
  0 <= d < threads ctx ->
  mount_returns w d = false ->
  exists st',
    main w ctx (initial w) = (Hang, st')
    /\ trace st'
       = (setup_events w (tmp_root w) (threads ctx)
          ++ mount_commands w (tmp_root w) (threads ctx))%list
    /\ files st' !! exports
       = Some (export_text (server_dirs (tmp_root w) (threads ctx)))
    /\ cleanup_set st' = true.
Proof.
  intros Hn Hsig Hmk Hopen Hefs Hasync Hd Hno.
  set (st0 := upd_cleanup (upd_tdobj (initial w) (settled_tdobj w ctx)) true).
  destruct (main_try_reaches_launch w ctx (tmp_root w) st0 Hmk Hopen Hefs)
    as (m_to_c & st4 & Etry & Htr & Hf & Hc & _ & _).
  { apply initial_fresh; [reflexivity | reflexivity | discriminate]. }
  { apply initial_fresh; [reflexivity | reflexivity | discriminate]. }
  set (st5 := log st4 (mount_commands w (tmp_root w) (threads ctx))).
  assert (Elaunch :
    launch w ctx (numbered (path_append (tmp_root w) "mount") 0 (rounds ctx))
      (numbered (path_append (tmp_root w) "client") 0 (rounds ctx))
      (fsid <$> seqZ 0 (Z.of_nat (rounds ctx))) st4 = (Hang, st5)).
  { unfold launch, make_barrier, launcher_wait.
    destruct (Z.eqb_spec (threads ctx) INT_MAX) as [|_]; [lia |].
    destruct (Z.eqb_spec (threads ctx + 1) 0) as [|_]; [lia |].
    unfold ret at 1. unfold bind at 1.
    rewrite (bind_Val _ _ _ _ _
               (start_mounters_numbered w (path_append (tmp_root w) "mount")
                  (path_append (tmp_root w) "client")
                  (fsid <$> seqZ 0 (Z.of_nat (rounds ctx))) (rounds ctx) Hasync
                  (rounds ctx) 0 st4
                  ltac:(lia) ltac:(simpl; lia)
                  ltac:(rewrite length_fmap, length_seqZ; simpl; lia))).
    destruct (Z.ltb_spec (threads ctx + 1) 0) as [|_]; [lia |].
    unfold ret at 1. unfold bind at 1.
    match goal with
    | |- context [bind (run_mounters w ?ms) _ st4] =>
        rewrite (bind_Val _ _ _ _ _ (run_mounters_ok w ms st4));
        assert (Hin : exists m, m ∈ ms /\ mount_returns w (m_d m) = false)
    end.
    { exists {| m_d := d;
                m_md := path_append (path_append (tmp_root w) "mount") (dir_name d);
                m_cd := path_append (path_append (tmp_root w) "client") (dir_name d) |}.
      split; [| exact Hno].
      apply list_elem_of_fmap. exists d. split; [reflexivity |].
      apply elem_of_seqZ. unfold rounds. lia. }
    apply bind_Hang.
    match goal with
    | |- get_futures w ?ms ?s = _ =>
        rewrite (get_futures_blocks w ms s Hin)
    end.
    f_equal. unfold st5, mount_commands. rewrite <- list_fmap_compose.
    unfold rounds. now rewrite Z2Nat.id by lia. }
  assert (Erun : main_run w ctx (initial w) = (Hang, st5)).
  { rewrite (main_run_enters_try w ctx Hsig). fold st0.
    unfold try_catch, bind at 1. unfold bind at 1. rewrite Etry.
    unfold bind at 1. rewrite Elaunch. reflexivity. }
  exists st5. split; [| split; [| split]].
  - unfold main. unfold bind at 1. rewrite Erun. reflexivity.
  - cbn [trace st5 log]. rewrite Htr. unfold setup_events, server_dirs, client_dirs.
    fold (rounds ctx). cbn [trace st0 upd_cleanup upd_tdobj initial].
    repeat (rewrite <- ?app_assoc; cbn [app]). reflexivity.
  - cbn [files st5 log]. rewrite Hf. unfold server_dirs. fold (rounds ctx).
    apply lookup_insert_eq.
  - cbn [cleanup_set st5 log]. rewrite Hc. reflexivity.
Qed.

Lemma mount_that_never_returns_blocks_the_run_witness :
  let w := mount_stalls in
  let ctx := Scenario.ctx 2 false in
  exists st',
    main w ctx (initial w) = (Hang, st')
    /\ trace st'
       = (setup_events w (tmp_root w) (threads ctx)
          ++ mount_commands w (tmp_root w) (threads ctx))%list
    /\ files st' !! exports
       = Some (export_text (server_dirs (tmp_root w) (threads ctx)))
    /\ cleanup_set st' = true.
Proof.
  apply (mount_that_never_returns_blocks_the_run mount_stalls
           (Scenario.ctx 2 false) 1);
    [change (0 <= 2 < 2147483647); lia | reflexivity | reflexivity | reflexivity
    | reflexivity | reflexivity | change (0 <= 1 < 2); lia | reflexivity].
Defined.

(** The loop that starts the threads, when thread [d0] is the first that
    cannot be started. *)
Lemma start_mounters_fails
    (w : World) (mroot croot : string) (muuid : list string) (K : nat)
    (d0 : Z) (what : string) :
  async_failure w d0 = Some what ->
  forall (k : nat) (d : Z) (st : Proc),
    0 <= d <= d0 -> d0 < d + Z.of_nat k ->
    (forall i, d <= i < d0 -> async_failure w i = None) ->
    (Z.to_nat d + k <= K)%nat ->
    (Z.to_nat d + k <= length muuid)%nat ->
    start_mounters w (numbered mroot 0 K) (numbered croot 0 K) muuid k d st
    = (if d0 =? 0 then Throw what else Hang, st).
Proof.
  intros Hfail. induction k as [|k IH]; intros d st Hd Hk Hbefore HK Hu; [lia |].
  cbn [start_mounters].
  assert (Hlook : forall root,
            numbered root 0 K !! Z.to_nat d = Some (path_append root (dir_name d))).
  { intros root. rewrite numbered_lookup by lia.
    now rewrite Z.add_0_l, Z2Nat.id by lia. }
  rewrite (bind_Val _ _ _ _ _ (vec_at_Some _ d _ st ltac:(lia) (Hlook croot))).
  rewrite (bind_Val _ _ _ _ _ (vec_at_Some _ d _ st ltac:(lia) (Hlook mroot))).
  destruct (vec_at_lt muuid d st ltac:(lia) ltac:(lia)) as (u & _ & Eu).
  rewrite (bind_Val _ _ _ _ _ Eu).
  destruct (Z.eq_dec d d0) as [->|Hne].
  - rewrite Hfail. now destruct (d0 =? 0).
  - rewrite (Hbefore d ltac:(lia)).
    pose proof (IH (d + 1) st ltac:(lia) ltac:(lia)
                  ltac:(intros i Hi; apply Hbefore; lia) ltac:(lia) ltac:(lia))
      as E.
    destruct (d0 =? 0); [now apply bind_Throw | now apply bind_Hang].
Qed.

(** The [try] block when thread [d] is the first that cannot be
    started. *)
Lemma main_try_thread_failure
    (w : World) (ctx : Context) (d : Z) (what : string) :
  0 <= threads ctx < INT_MAX ->
  (forall p, mkdir_errno w p = 0) ->
  exports_open_failure w = None ->
  exportfs_ec w 0%nat = 0 ->
  0 <= d < threads ctx ->
  (forall i, 0 <= i < d -> async_failure w i = None) ->
  async_failure w d = Some what ->
  exists st4,
    main_try w ctx (tmp_root w)
      (upd_cleanup (upd_tdobj (initial w) (settled_tdobj w ctx)) true)
    = (if d =? 0 then Throw what else Hang, st4)
    /\ trace st4 = setup_events w (tmp_root w) (threads ctx)
    /\ cleanup_set st4 = true
    /\ tdobj st4 = settled_tdobj w ctx
    /\ exportfs_runs st4 = 1%nat.
Proof.
  intros Hn Hmk Hopen Hefs Hd Hbefore Hfail.
  set (st0 := upd_cleanup (upd_tdobj (initial w) (settled_tdobj w ctx)) true).
  destruct (main_try_reaches_launch w ctx (tmp_root w) st0 Hmk Hopen Hefs)
    as (m_to_c & st4 & Etry & Htr & _ & Hc & Ht & Hk).
  { apply initial_fresh; [reflexivity | reflexivity | discriminate]. }
  { apply initial_fresh; [reflexivity | reflexivity | discriminate]. }
  exists st4. split; [| split; [| repeat split; assumption]].
  - rewrite Etry. unfold bind at 1.
    assert (Elaunch :
      launch w ctx (numbered (path_append (tmp_root w) "mount") 0 (rounds ctx))
        (numbered (path_append (tmp_root w) "client") 0 (rounds ctx))
        (fsid <$> seqZ 0 (Z.of_nat (rounds ctx))) st4
      = (if d =? 0 then Throw what else Hang, st4)).
    { unfold launch, make_barrier.
      destruct (Z.eqb_spec (threads ctx) INT_MAX) as [|_]; [lia |].
      destruct (Z.eqb_spec (threads ctx + 1) 0) as [|_]; [lia |].
      unfold ret at 1. unfold bind at 1.
      pose proof (start_mounters_fails w (path_append (tmp_root w) "mount")
                    (path_append (tmp_root w) "client")
                    (fsid <$> seqZ 0 (Z.of_nat (rounds ctx))) (rounds ctx)
                    d what Hfail (rounds ctx) 0 st4
                    ltac:(lia) ltac:(unfold rounds; lia) Hbefore
                    ltac:(simpl; lia)
                    ltac:(rewrite length_fmap, length_seqZ; simpl; lia)) as E.
      destruct (d =? 0); [now apply bind_Throw | now apply bind_Hang]. }
    rewrite Elaunch. now destruct (d =? 0).
  - rewrite Htr. unfold setup_events, server_dirs, client_dirs.
    fold (rounds ctx). reflexivity.
Qed.



(** X28.  When everything up to the mounts works and [std::async] cannot
    start the first thread, the exception is caught: no mount command is
    issued, the text of the exception goes to the error stream, and,
    when no step of the cleanup closure throws and [exportfs] works
    again, the closure runs in full and [main] returns [1]. *)
Theorem first_thread_that_cannot_start_is_caught
    (w : World) (ctx : Context) (what : string) :
  0 < threads ctx < INT_MAX ->
  sigaction_errno w = 0 ->
  (forall p, mkdir_errno w p = 0) ->
  exports_open_failure w = None ->
  exportfs_ec w 0%nat = 0 ->
  async_failure w 0 = Some what ->
  (forall k, umount_failure w k = None) ->
  (forall k, remove_failure w k = None) ->
  exportfs_ec w 1%nat = 0 ->
  (forall k, remove_all_failure w k = None) ->
  tmp_root w <> "" ->
  exists st' tail,
    main w ctx (initial w) = (Val 1, st')
    /\ trace st'
       = (setup_events w (tmp_root w) (threads ctx)
          ++ EvStderr ("Caught exception: " +:+ what +:+ nl)
             :: cleanup_steps w
          ++ tail)%list
    /\ Forall (fun e => e = EvRemoveAll (tmp_root w)) tail.
Proof.
  intros Hn Hsig Hmk Hopen Hefs Hfail Hu Hrm Hefs1 Hall Hroot.
  destruct (main_try_thread_failure w ctx 0 what ltac:(lia) Hmk Hopen Hefs
              ltac:(lia) ltac:(intros; lia) Hfail)
    as (st4 & Etry & Htr & Hc & Ht & Hk).
  change (0 =? 0) with true in Etry.
  set (st6 := log st4 [EvStderr ("Caught exception: " +:+ what +:+ nl)]).
  assert (Erun : main_run w ctx (initial w) = (Val true, st6)).
  { rewrite (main_run_enters_try w ctx Hsig).
    unfold try_catch, bind at 1. now rewrite Etry. }
  destruct (epilogue_ok w true st6) as (st' & tail & Eend & Htr' & Htail & _);
    try assumption.
  { change (exportfs_runs st6) with (exportfs_runs st4). rewrite Hk. exact Hefs1. }
  { change (tdobj st6) with (tdobj st4). rewrite Ht. exact Hroot. }
  change (tdobj st6) with (tdobj st4) in Htail. rewrite Ht in Htail.
  exists st', tail. split; [| split; [| exact Htail]].
  - unfold main. rewrite (bind_Val _ _ _ _ _ Erun). exact Eend.
  - rewrite Htr'. cbn [trace st6 log]. rewrite Htr. unfold cleanup_steps.
    repeat (rewrite <- ?app_assoc; cbn [app]). reflexivity.
Qed.

Lemma first_thread_that_cannot_start_is_caught_witness :
  let w := no_thread_from 0 in
  let ctx := Scenario.ctx 2 false in
  exists st' tail,
    main w ctx (initial w) = (Val 1, st')
    /\ trace st'
       = (setup_events w (tmp_root w) (threads ctx)
          ++ EvStderr ("Caught exception: "
                       +:+ "Resource temporarily unavailable" +:+ nl)
             :: cleanup_steps w
          ++ tail)%list
    /\ Forall (fun e => e = EvRemoveAll (tmp_root w)) tail.
Proof.
  apply (first_thread_that_cannot_start_is_caught (no_thread_from 0)
           (Scenario.ctx 2 false) "Resource temporarily unavailable");
    [change (0 < 2 < 2147483647); lia | reflexivity | reflexivity | reflexivity
    | reflexivity | reflexivity | reflexivity | reflexivity | reflexivity
    | reflexivity | discriminate].
Defined.

(** ** The launcher protocol *)

Import Launcher.

Local Open Scope nat_scope.

Section LauncherFacts.

Variable n : nat.
Variable ec : Z -> Z.
Variable af : nat -> bool.
Variable rt : nat -> bool.

Local Abbreviation Inv := (Launcher.Inv n ec).

Lemma count_arrived_insert (ws : list wstate) (i : nat) (old new : wstate) :
  ws !! i = Some old ->
  count_arrived (<[i := new]> ws) + b2n (arrived old)
  = count_arrived ws + b2n (arrived new).
Proof.
  unfold count_arrived. revert i.
  induction ws as [|x ws IH]; intros [|i] H; simpl in *; try discriminate.
  - injection H as ->. destruct (arrived old), (arrived new); simpl; lia.
  - specialize (IH i H). destruct (arrived x); simpl; lia.
Qed.

Lemma count_arrived_le (ws : list wstate) : count_arrived ws <= length ws.
Proof.
  unfold count_arrived. induction ws as [|x ws IH]; simpl; [lia |].
  destruct (arrived x); simpl; lia.
Qed.

Lemma count_arrived_full (ws : list wstate) :
  count_arrived ws = length ws ->
  forall i x, ws !! i = Some x -> arrived x = true.
Proof.
  unfold count_arrived. induction ws as [|y ws IH]; intros Hc i x Hx.
  - destruct i; discriminate.
  - simpl in Hc. pose proof (count_arrived_le ws) as Hle. unfold count_arrived in Hle.
    destruct (arrived y) eqn:Ey; simpl in Hc; [| lia].
    destruct i as [|i]; simpl in Hx.
    + now injection Hx as <-.
    + apply (IH ltac:(lia) i x Hx).
Qed.

Lemma count_arrived_replicate (k : nat) : count_arrived (replicate k NotStarted) = 0.
Proof. unfold count_arrived. induction k; simpl; auto. Qed.

Lemma Inv_init : Inv (init n).
Proof.
  constructor; simpl; try (intros; discriminate); try reflexivity.
  - apply length_replicate.
  - intros i g H. apply lookup_replicate in H as [H _]. discriminate.
  - intros _. rewrite count_arrived_replicate. repeat split; try lia; try discriminate.
    intros i x H. apply lookup_replicate in H as [-> _]. now left.
  - intros H. lia.
  - intros d [= <-]. split; [lia |]. intros i _ Hi. now apply lookup_replicate.
  - intros i r H. apply lookup_replicate in H as [H _]. discriminate.
Qed.


Lemma arrive_cases (b : barrier) :
  (m_count b - 1 = 0
   /\ arrive b = ({| m_threshold := m_threshold b; m_count := m_threshold b;
                     m_generation := S (m_generation b) |}, None))
  \/ (m_count b - 1 <> 0
      /\ arrive b = ({| m_threshold := m_threshold b; m_count := m_count b - 1;
                        m_generation := m_generation b |},
                     Some (m_generation b))).
Proof.
  unfold arrive. destruct (Nat.eqb_spec (m_count b - 1) 0); [left | right]; auto.
Qed.

(** A mounter that has not called [wait()] keeps the barrier closed. *)
Lemma Inv_not_arrived_closed (s : state) (i : nat) (x : wstate) :
  Inv s -> workers s !! i = Some x -> arrived x = false ->
  m_generation (bar s) = 0.
Proof.
  intros HI Hx Ha. destruct (Nat.eq_dec (m_generation (bar s)) 0) as [|Hne]; [assumption |].
  destruct (inv_open n ec s HI Hne) as (_ & Hall & _).
  rewrite (Hall i x Hx) in Ha. discriminate.
Qed.

Lemma Inv_spawning_closed (s : state) (d : nat) :
  Inv s -> launcher s = Spawning d -> m_generation (bar s) = 0.
Proof.
  intros HI Hl. destruct (Nat.eq_dec (m_generation (bar s)) 0) as [|Hne]; [assumption |].
  destruct (inv_open n ec s HI Hne) as (_ & _ & Hla). rewrite Hl in Hla. discriminate.
Qed.

Lemma Inv_past_barrier_open (s : state) (i : nat) (x : wstate) :
  Inv s -> workers s !! i = Some x ->
  x = Released \/ x = Mounting \/ (exists r, x = Done r) ->
  m_generation (bar s) <> 0.
Proof.
  intros HI Hx Hcase Hg.
  destruct (inv_closed n ec s HI Hg) as (_ & _ & Hst & _).
  destruct (Hst i x Hx) as [->| [->| ->]];
    destruct Hcase as [?|[?|[? ?]]]; discriminate.
Qed.

(** Replacing the state of mounter [i] by one that has arrived, with the
    barrier open and the launcher untouched. *)
Lemma Inv_worker_open (s : state) (i : nat) (old new : wstate) :
  Inv s -> m_generation (bar s) <> 0 ->
  workers s !! i = Some old ->
  (forall r, old <> Done r) ->
  arrived new = true ->
  (forall g, new <> Waiting g) ->
  (forall r, new = Done r -> r = outcome ec i) ->
  Inv {| launcher := launcher s; workers := <[i := new]> (workers s); bar := bar s |}.
Proof.
  intros HI Hg Hold Hnd Hnew Hnw Hout.
  assert (Hi : i < length (workers s)) by (eapply lookup_lt_Some; eauto).
  assert (Hlook : forall j x, <[i := new]> (workers s) !! j = Some x ->
                   (j = i /\ x = new) \/ (j <> i /\ workers s !! j = Some x)).
  { intros j x Hj. destruct (Nat.eq_dec i j) as [<-|Hne].
    - rewrite list_lookup_insert_eq in Hj by assumption. injection Hj as <-. now left.
    - rewrite list_lookup_insert_ne in Hj by assumption. right. split; [congruence | assumption]. }
  assert (Hkeep : forall j r, workers s !! j = Some (Done r) ->
                   <[i := new]> (workers s) !! j = Some (Done r)).
  { intros j r Hj. destruct (Nat.eq_dec i j) as [<-|Hne].
    - rewrite Hold in Hj. injection Hj as ->. now destruct (Hnd r).
    - now rewrite list_lookup_insert_ne. }
  destruct (inv_open n ec s HI Hg) as (Hg1 & Hall & Hla).
  constructor; simpl.
  - rewrite length_insert. apply (inv_length n ec s HI).
  - apply (inv_threshold n ec s HI).
  - intros j g Hj. destruct (Hlook _ _ Hj) as [[_ E]|[_ Hj']].
    + now destruct (Hnw g).
    + apply (inv_wgen n ec s HI j g Hj').
  - apply (inv_lgen n ec s HI).
  - intros Hz. contradiction.
  - intros _. repeat split; try assumption.
    intros j x Hj. destruct (Hlook _ _ Hj) as [[_ ->]|[_ Hj']]; [assumption |].
    apply (Hall j x Hj').
  - intros d Hl. rewrite Hl in Hla. discriminate.
  - intros j r Hj. destruct (Hlook _ _ Hj) as [[-> E]|[_ Hj']].
    + now apply Hout.
    + apply (inv_done n ec s HI j r Hj').
  - intros d f Hl. destruct (inv_collect n ec s HI d f Hl) as (Hd & Hf & Hdone).
    repeat split; try assumption. intros j Hj. apply Hkeep, Hdone, Hj.
  - intros f Hl. destruct (inv_returned n ec s HI f Hl) as (Hf & Hdone).
    split; [assumption |]. intros j Hj. apply Hkeep, Hdone, Hj.
Qed.


(** A mounter calls [wait()]. *)
Lemma Inv_worker_arrive (s : state) (i : nat) :
  Inv s -> workers s !! i = Some Started ->
  Inv {| launcher := launcher s;
         workers := <[i := match snd (arrive (bar s)) with
                           | Some gen => Waiting gen
                           | None => Released
                           end]> (workers s);
         bar := fst (arrive (bar s)) |}.
Proof.
  intros HI Hold.
  assert (Hg : m_generation (bar s) = 0)
    by (eapply Inv_not_arrived_closed; eauto).
  destruct (inv_closed n ec s HI Hg) as (Hsum & Hpos & Hst & Hnc & Hnr).
  assert (Hi : i < length (workers s)) by (eapply lookup_lt_Some; eauto).
  pose proof (inv_length n ec s HI) as Hlen.
  assert (Hlook : forall new j x, <[i := new]> (workers s) !! j = Some x ->
                   (j = i /\ x = new) \/ (j <> i /\ workers s !! j = Some x)).
  { intros new j x Hj. destruct (Nat.eq_dec i j) as [<-|Hne].
    - rewrite list_lookup_insert_eq in Hj by assumption. injection Hj as <-. now left.
    - rewrite list_lookup_insert_ne in Hj by assumption. right. split; [congruence | assumption]. }
  destruct (arrive_cases (bar s)) as [[Hc ->]|[Hc ->]]; simpl.
  - (* the last to arrive: the barrier opens *)
    pose proof (count_arrived_insert (workers s) i Started Released Hold) as Hins.
    pose proof (count_arrived_le (<[i := Released]> (workers s))) as Hle.
    rewrite length_insert in Hle. simpl in Hins.
    assert (Hla : launcher_arrived (launcher s) = true).
    { destruct (launcher_arrived (launcher s)); [reflexivity |]. simpl in Hsum. lia. }
    rewrite Hla in Hsum. simpl in Hsum.
    constructor; simpl.
    + now rewrite length_insert.
    + apply (inv_threshold n ec s HI).
    + intros j g Hj. destruct (Hlook _ _ _ Hj) as [[_ E]|[_ Hj']]; [discriminate |].
      apply (inv_wgen n ec s HI j g Hj').
    + apply (inv_lgen n ec s HI).
    + intros Hz. rewrite Hg in Hz. discriminate.
    + intros _. rewrite Hg. repeat split; try assumption.
      apply count_arrived_full. rewrite length_insert. lia.
    + intros d Hl. rewrite Hl in Hla. discriminate.
    + intros j r Hj. destruct (Hlook _ _ _ Hj) as [[_ E]|[_ Hj']]; [discriminate |].
      apply (inv_done n ec s HI j r Hj').
    + intros d f Hl. now destruct (Hnc d f).
    + intros f Hl. now destruct (Hnr f).
  - (* not the last: it sleeps *)
    pose proof (count_arrived_insert (workers s) i Started
                  (Waiting (m_generation (bar s))) Hold) as Hins.
    simpl in Hins.
    constructor; simpl.
    + now rewrite length_insert.
    + apply (inv_threshold n ec s HI).
    + intros j g Hj. destruct (Hlook _ _ _ Hj) as [[_ E]|[_ Hj']].
      * injection E as ->. exact Hg.
      * apply (inv_wgen n ec s HI j g Hj').
    + apply (inv_lgen n ec s HI).
    + intros _. repeat split; try assumption; try lia.
      intros j x Hj. destruct (Hlook _ _ _ Hj) as [[_ ->]|[_ Hj']].
      * rewrite Hg. auto.
      * apply (Hst j x Hj').
    + intros Hne. contradiction.
    + intros d Hl. destruct (inv_spawn n ec s HI d Hl) as (Hd & Hns).
      split; [assumption |]. intros j Hdj Hjn.
      destruct (Nat.eq_dec i j) as [<-|Hne].
      * rewrite (Hns i Hdj Hjn) in Hold. discriminate.
      * rewrite list_lookup_insert_ne by assumption. now apply Hns.
    + intros j r Hj. destruct (Hlook _ _ _ Hj) as [[_ E]|[_ Hj']]; [discriminate |].
      apply (inv_done n ec s HI j r Hj').
    + intros d f Hl. now destruct (Hnc d f).
    + intros f Hl. now destruct (Hnr f).
Qed.

(** The launching thread calls [wait()]. *)
Lemma Inv_launcher_arrive (s : state) (d : nat) :
  Inv s -> launcher s = Spawning d ->
  Inv {| launcher := match snd (arrive (bar s)) with
                     | Some gen => LWaiting gen
                     | None => Collecting 0 0
                     end;
         workers := workers s;
         bar := fst (arrive (bar s)) |}.
Proof.
  intros HI Hl.
  assert (Hg : m_generation (bar s) = 0) by (eapply Inv_spawning_closed; eauto).
  destruct (inv_closed n ec s HI Hg) as (Hsum & Hpos & Hst & Hnc & Hnr).
  pose proof (inv_length n ec s HI) as Hlen.
  pose proof (count_arrived_le (workers s)) as Hle.
  rewrite Hl in Hsum. simpl in Hsum.
  destruct (arrive_cases (bar s)) as [[Hc ->]|[Hc ->]]; simpl.
  - constructor; simpl.
    + assumption.
    + apply (inv_threshold n ec s HI).
    + apply (inv_wgen n ec s HI).
    + intros g; discriminate.
    + intros Hz. rewrite Hg in Hz. discriminate.
    + intros _. rewrite Hg. repeat split.
      apply count_arrived_full. lia.
    + intros d'; discriminate.
    + apply (inv_done n ec s HI).
    + intros d' f E. injection E as <- <-. repeat split; [lia |]. intros i Hi. lia.
    + intros f; discriminate.
  - constructor; simpl.
    + assumption.
    + apply (inv_threshold n ec s HI).
    + apply (inv_wgen n ec s HI).
    + intros g E. injection E as <-. exact Hg.
    + intros _. repeat split; try assumption; try lia; intros; discriminate.
    + intros Hne. contradiction.
    + intros d'; discriminate.
    + apply (inv_done n ec s HI).
    + intros d' f; discriminate.
    + intros f; discriminate.
Qed.


Lemma Inv_step_launcher (s s' : state) :
  Inv s -> step_launcher n af s = Some s' -> Inv s'.
Proof.
  intros HI Hstep. unfold step_launcher in Hstep.
  destruct (launcher s) as [d|g|d f|f|d] eqn:Hl.
  - destruct (Nat.ltb_spec d n) as [Hd|Hd]; [destruct (af d) |].
    + (* [std::async] throws *)
      injection Hstep as <-.
      assert (Hg : m_generation (bar s) = 0) by (eapply Inv_spawning_closed; eauto).
      destruct (inv_closed n ec s HI Hg) as (Hsum & Hpos & Hst & Hnc & Hnr).
      rewrite Hl in Hsum. simpl in Hsum.
      constructor; simpl.
      * apply (inv_length n ec s HI).
      * apply (inv_threshold n ec s HI).
      * apply (inv_wgen n ec s HI).
      * intros g; discriminate.
      * intros _. repeat split; try assumption; try lia; try (intros; discriminate).
      * intros Hne. contradiction.
      * intros d'; discriminate.
      * apply (inv_done n ec s HI).
      * intros d' f; discriminate.
      * intros f; discriminate.
    + (* start mounter [d] *)
      injection Hstep as <-.
      assert (Hg : m_generation (bar s) = 0) by (eapply Inv_spawning_closed; eauto).
      destruct (inv_closed n ec s HI Hg) as (Hsum & Hpos & Hst & Hnc & Hnr).
      destruct (inv_spawn n ec s HI d Hl) as (_ & Hns).
      pose proof (Hns d ltac:(lia) Hd) as Hold.
      pose proof (inv_length n ec s HI) as Hlen.
      pose proof (count_arrived_insert (workers s) d NotStarted Started Hold) as Hins.
      simpl in Hins. rewrite Hl in Hsum. simpl in Hsum.
      assert (Hlook : forall j x, <[d := Started]> (workers s) !! j = Some x ->
                       (j = d /\ x = Started) \/ (j <> d /\ workers s !! j = Some x)).
      { intros j x Hj. destruct (Nat.eq_dec d j) as [<-|Hne].
        - rewrite list_lookup_insert_eq in Hj by lia. injection Hj as <-. now left.
        - rewrite list_lookup_insert_ne in Hj by assumption. right.
          split; [congruence | assumption]. }
      constructor; simpl.
      * now rewrite length_insert.
      * apply (inv_threshold n ec s HI).
      * intros j g Hj. destruct (Hlook _ _ Hj) as [[_ E]|[_ Hj']]; [discriminate |].
        apply (inv_wgen n ec s HI j g Hj').
      * intros g; discriminate.
      * intros _. repeat split; try assumption; try lia; try (intros; discriminate).
        intros j x Hj. destruct (Hlook _ _ Hj) as [[_ ->]|[_ Hj']]; [auto |].
        apply (Hst j x Hj').
      * intros Hne. contradiction.
      * intros d' E. injection E as <-. split; [lia |]. intros j Hdj Hjn.
        rewrite list_lookup_insert_ne by lia. apply Hns; lia.
      * intros j r Hj. destruct (Hlook _ _ Hj) as [[_ E]|[_ Hj']]; [discriminate |].
        apply (inv_done n ec s HI j r Hj').
      * intros d' f; discriminate.
      * intros f; discriminate.
    + (* the launching thread reaches the barrier *)
      pose proof (Inv_launcher_arrive s d HI Hl) as HI'.
      destruct (arrive (bar s)) as [b blocked]. injection Hstep as <-. exact HI'.
  - (* waking up *)
    destruct (Nat.eqb_spec g (m_generation (bar s))) as [|Hne]; [discriminate |].
    injection Hstep as <-.
    pose proof (inv_lgen n ec s HI g Hl) as ->.
    destruct (inv_open n ec s HI ltac:(lia)) as (Hg1 & Hall & _).
    constructor; simpl.
    + apply (inv_length n ec s HI).
    + apply (inv_threshold n ec s HI).
    + apply (inv_wgen n ec s HI).
    + intros g; discriminate.
    + intros Hz. lia.
    + intros _. auto.
    + intros d; discriminate.
    + apply (inv_done n ec s HI).
    + intros d f E. injection E as <- <-. repeat split; [lia |]. intros i Hi. lia.
    + intros f; discriminate.
  - destruct (inv_collect n ec s HI d f Hl) as (Hd & Hf & Hdone).
    assert (Hopen : m_generation (bar s) <> 0).
    { intros Hz. destruct (inv_closed n ec s HI Hz) as (_ & _ & _ & Hnc & _).
      now destruct (Hnc d f). }
    destruct (inv_open n ec s HI Hopen) as (Hg1 & Hall & _).
    destruct (Nat.ltb_spec d n) as [Hlt|Hge].
    + (* [get()] on future [d] *)
      destruct (workers s !! d) as [[| | | | |r]|] eqn:Hw; try discriminate.
      injection Hstep as <-.
      pose proof (inv_done n ec s HI d r Hw) as ->.
      constructor; simpl.
      * apply (inv_length n ec s HI).
      * apply (inv_threshold n ec s HI).
      * apply (inv_wgen n ec s HI).
      * intros g; discriminate.
      * intros Hz. contradiction.
      * intros _. auto.
      * intros d'; discriminate.
      * apply (inv_done n ec s HI).
      * intros d' f' E. injection E as <- <-. repeat split; [lia | now rewrite Hf |].
        intros i Hi. destruct (Nat.eq_dec i d) as [->|Hne]; [assumption |].
        apply Hdone. lia.
      * intros f'; discriminate.
    + (* the loop over the futures ends *)
      injection Hstep as <-.
      assert (d = n) as -> by lia.
      constructor; simpl.
      * apply (inv_length n ec s HI).
      * apply (inv_threshold n ec s HI).
      * apply (inv_wgen n ec s HI).
      * intros g; discriminate.
      * intros Hz. contradiction.
      * intros _. auto.
      * intros d'; discriminate.
      * apply (inv_done n ec s HI).
      * intros d' f'; discriminate.
      * intros f' E. injection E as <-. auto.
  - discriminate.
  - discriminate.
Qed.

Lemma Inv_step_worker (i : nat) (s s' : state) :
  Inv s -> step_worker ec rt i s = Some s' -> Inv s'.
Proof.
  intros HI Hstep. unfold step_worker in Hstep.
  destruct (workers s !! i) as [[| |g| | |r]|] eqn:Hw; try discriminate.
  - pose proof (Inv_worker_arrive s i HI Hw) as HI'.
    destruct (arrive (bar s)) as [b blocked]. injection Hstep as <-. exact HI'.
  - destruct (Nat.eqb_spec g (m_generation (bar s))) as [|Hne]; [discriminate |].
    injection Hstep as <-.
    pose proof (inv_wgen n ec s HI i g Hw) as ->.
    apply (Inv_worker_open s i (Waiting 0) Released); auto; try discriminate.
  - injection Hstep as <-.
    apply (Inv_worker_open s i Released Mounting); auto; try discriminate.
    eapply Inv_past_barrier_open; eauto.
  - destruct (rt i); [| discriminate]. injection Hstep as <-.
    apply (Inv_worker_open s i Mounting (Done (outcome ec i))); auto; try discriminate.
    + eapply Inv_past_barrier_open; eauto.
    + intros r E. now injection E as <-.
Qed.

Lemma Inv_step (t : thread) (s : state) : Inv s -> Inv (step n ec af rt t s).
Proof.
  intros HI. unfold step. destruct t as [|i].
  - destruct (step_launcher n af s) as [s'|] eqn:E; [| assumption].
    eapply Inv_step_launcher; eauto.
  - destruct (step_worker ec rt i s) as [s'|] eqn:E; [| assumption].
    eapply Inv_step_worker; eauto.
Qed.

Lemma Inv_run (schedule : list thread) (s : state) :
  Inv s -> Inv (run n ec af rt schedule s).
Proof.
  revert s. induction schedule as [|t rest IH]; intros s HI; simpl; [assumption |].
  apply IH, Inv_step, HI.
Qed.

End LauncherFacts.

(** C8.  Whatever the schedule: a mounter that has begun its mount command
    implies that the barrier has been reached by every one of the [n]
    mounters and by the launching thread; and once the launching thread is
    past the loop over the futures, every mounter has returned, the future
    at index [i] holds what mounter [i] got for its own pair, and
    [failures] counts exactly those outcomes that are not zero. *)
Theorem mounts_begin_after_rendezvous (n : nat) (ec : Z -> Z)
    (af rt : nat -> bool) (schedule : list thread) (i : nat) (x : wstate) :
  workers (run n ec af rt schedule (init n)) !! i = Some x ->
  (mounting x = true ->
     launcher_arrived (launcher (run n ec af rt schedule (init n))) = true
     /\ forall j, j < n ->
          exists y, workers (run n ec af rt schedule (init n)) !! j = Some y
                    /\ arrived y = true)
  /\ (forall f, launcher (run n ec af rt schedule (init n)) = Returned f ->
        x = Done (outcome ec i)
        /\ f = failures_upto ec n
        /\ forall j, j < n ->
             workers (run n ec af rt schedule (init n)) !! j = Some (Done (outcome ec j))).
Proof.
  intros Hx.
  pose proof (Inv_run n ec af rt schedule (init n) (Inv_init n ec)) as HI.
  set (s := run n ec af rt schedule (init n)) in *.
  split.
  - intros Hm.
    assert (Hopen : m_generation (bar s) <> 0).
    { eapply Inv_past_barrier_open; eauto.
      destruct x; try discriminate; eauto. }
    destruct (inv_open n ec s HI Hopen) as (_ & Hall & Hla).
    split; [assumption |]. intros j Hj.
    destruct (workers s !! j) as [y|] eqn:Hy.
    + exists y. split; [reflexivity |]. eapply Hall; eauto.
    + apply lookup_ge_None in Hy. rewrite (inv_length n ec s HI) in Hy. lia.
  - intros f Hf. destruct (inv_returned n ec s HI f Hf) as (-> & Hdone).
    repeat split; [| assumption].
    assert (Hi : i < n).
    { rewrite <- (inv_length n ec s HI). eapply lookup_lt_Some; eauto. }
    rewrite (Hdone i Hi) in Hx. now injection Hx as <-.
Qed.


Lemma mounts_begin_after_rendezvous_witness :
  workers (run 2 Scenario.codes Scenario.async_never_fails
    Scenario.mounts_all_return Scenario.schedule (init 2)) !! 1 = Some (Done 32)
  /\ (mounting (Done 32) = true ->
        launcher_arrived
          (launcher (run 2 Scenario.codes Scenario.async_never_fails
    Scenario.mounts_all_return Scenario.schedule (init 2))) = true
        /\ forall j, j < 2 ->
             exists y,
               workers (run 2 Scenario.codes Scenario.async_never_fails
    Scenario.mounts_all_return Scenario.schedule (init 2)) !! j = Some y
               /\ arrived y = true)
     /\ (forall f,
           launcher (run 2 Scenario.codes Scenario.async_never_fails
    Scenario.mounts_all_return Scenario.schedule (init 2)) = Returned f ->
           Done 32 = Done (outcome Scenario.codes 1)
           /\ f = failures_upto Scenario.codes 2
           /\ forall j, j < 2 ->
                workers (run 2 Scenario.codes Scenario.async_never_fails
    Scenario.mounts_all_return Scenario.schedule (init 2)) !! j
                = Some (Done (outcome Scenario.codes j))).
Proof.
  split; [reflexivity |].
  apply (mounts_begin_after_rendezvous 2 Scenario.codes Scenario.async_never_fails
           Scenario.mounts_all_return Scenario.schedule 1 (Done 32)).
  reflexivity.
Defined.

(** The sample schedule ends with the launching thread past the loop,
    holding one failure; half-way through it the second mounter is in its
    mount command while the first still sleeps in [wait()]. *)
Example sample_schedule_end :
  run 2 Scenario.codes Scenario.async_never_fails
    Scenario.mounts_all_return Scenario.schedule (init 2)
  = {| launcher := Returned 1; workers := [Done 0; Done 32];
       bar := {| m_threshold := 3; m_count := 3; m_generation := 1 |} |}.
Proof. reflexivity. Qed.

Example sample_schedule_midway :
  run 2 Scenario.codes Scenario.async_never_fails
    Scenario.mounts_all_return (firstn 6 Scenario.schedule) (init 2)
  = {| launcher := LWaiting 0; workers := [Waiting 0; Mounting];
       bar := {| m_threshold := 3; m_count := 3; m_generation := 1 |} |}.
Proof. reflexivity. Qed.

(** ** Progress of the launcher protocol *)

Section LauncherProgress.

Variable n : nat.
Variable ec : Z -> Z.
Variable af : nat -> bool.
Variable rt : nat -> bool.

(** Every thread can be started, and every [mount] command returns. *)
Hypothesis async_works : forall d, d < n -> af d = false.
Hypothesis mounts_return : forall i, i < n -> rt i = true.

(** A mounter that has not been started is one the launching thread has
    not reached yet. *)
Lemma unstarted_step (t : thread) (s : state) :
  Launcher.Inv n ec s ->
  (forall i, workers s !! i = Some NotStarted ->
             exists d, launcher s = Spawning d /\ d <= i) ->
  forall i, workers (step n ec af rt t s) !! i = Some NotStarted ->
            exists d, launcher (step n ec af rt t s) = Spawning d /\ d <= i.
Proof.
  intros HI H i. pose proof (inv_length n ec s HI) as Hlen.
  unfold step. destruct t as [|j].
  - unfold step_launcher. destruct (launcher s) as [d|g|d f|f|d] eqn:Hl.
    + destruct (Nat.ltb_spec d n) as [Hd|Hd]; [rewrite (async_works d Hd) |]; simpl.
      * intros Hi. destruct (Nat.eq_dec d i) as [<-|Hne].
        -- rewrite list_lookup_insert_eq in Hi by lia. discriminate.
        -- rewrite list_lookup_insert_ne in Hi by assumption.
           destruct (H i Hi) as (d' & [= <-] & Hle). exists (S d). split; [reflexivity | lia].
      * destruct (arrive (bar s)) as [b blocked]. simpl. intros Hi.
        destruct (H i Hi) as (d' & [= <-] & Hle).
        apply lookup_lt_Some in Hi. lia.
    + destruct (g =? m_generation (bar s)); simpl; intros Hi;
        destruct (H i Hi) as (d' & E & _); congruence.
    + destruct (d <? n); [destruct (workers s !! d) as [[]|] |]; simpl; intros Hi;
        destruct (H i Hi) as (d' & E & _); try congruence.
    + intros Hi. destruct (H i Hi) as (d' & E & _). congruence.
    + intros Hi. destruct (H i Hi) as (d' & E & _). congruence.
  - unfold step_worker.
    destruct (workers s !! j) as [[| |g| | |r]|] eqn:Hw; try (apply H).
    + destruct (arrive (bar s)) as [b blocked]. simpl. intros Hi.
      destruct (Nat.eq_dec j i) as [<-|Hne].
      * apply lookup_lt_Some in Hw.
        rewrite list_lookup_insert_eq in Hi by assumption.
        destruct blocked; discriminate.
      * rewrite list_lookup_insert_ne in Hi by assumption. now apply H.
    + destruct (g =? m_generation (bar s)); [apply H |]. simpl. intros Hi.
      destruct (Nat.eq_dec j i) as [<-|Hne].
      * apply lookup_lt_Some in Hw.
        rewrite list_lookup_insert_eq in Hi by assumption. discriminate.
      * rewrite list_lookup_insert_ne in Hi by assumption. now apply H.
    + simpl. intros Hi. destruct (Nat.eq_dec j i) as [<-|Hne].
      * apply lookup_lt_Some in Hw.
        rewrite list_lookup_insert_eq in Hi by assumption. discriminate.
      * rewrite list_lookup_insert_ne in Hi by assumption. now apply H.
    + destruct (rt j); [| apply H]. simpl. intros Hi.
      destruct (Nat.eq_dec j i) as [<-|Hne].
      * apply lookup_lt_Some in Hw.
        rewrite list_lookup_insert_eq in Hi by assumption. discriminate.
      * rewrite list_lookup_insert_ne in Hi by assumption. now apply H.
Qed.

Lemma unstarted_run (schedule : list thread) :
  forall s,
    Launcher.Inv n ec s ->
    (forall i, workers s !! i = Some NotStarted ->
               exists d, launcher s = Spawning d /\ d <= i) ->
    forall i, workers (run n ec af rt schedule s) !! i = Some NotStarted ->
              exists d, launcher (run n ec af rt schedule s) = Spawning d /\ d <= i.
Proof.
  induction schedule as [|t rest IH]; intros s HI H; simpl; [assumption |].
  apply IH; [now apply Inv_step | now apply unstarted_step].
Qed.

(** Among fewer arrivals than mounters there is a mounter that has not
    arrived. *)
Lemma count_arrived_short (ws : list wstate) :
  count_arrived ws < length ws ->
  exists i x, ws !! i = Some x /\ arrived x = false.
Proof.
  unfold count_arrived. induction ws as [|y ws IH]; simpl; [lia |].
  destruct (arrived y) eqn:Ey; simpl; intros Hlt.
  - destruct (IH ltac:(lia)) as (i & x & Hi & Hx). now exists (S i), x.
  - now exists 0, y.
Qed.

Lemma progress_of (s : state) :
  Launcher.Inv n ec s ->
  (forall i, workers s !! i = Some NotStarted ->
             exists d, launcher s = Spawning d /\ d <= i) ->
  (forall d, launcher s <> AsyncFailed d) ->
  (exists f, launcher s = Returned f)
  \/ step_launcher n af s <> None
  \/ exists i, i < n /\ step_worker ec rt i s <> None.
Proof.
  intros HI Hun Hna. pose proof (inv_length n ec s HI) as Hlen.
  destruct (launcher s) as [d|g|d f|f|d] eqn:Hl.
  - right. left. unfold step_launcher. rewrite Hl.
    destruct (d <? n); [destruct (af d); discriminate |].
    destruct (arrive (bar s)). discriminate.
  - pose proof (inv_lgen n ec s HI g Hl) as ->.
    destruct (Nat.eq_dec (m_generation (bar s)) 0) as [Hg|Hg].
    + right. right.
      destruct (inv_closed n ec s HI Hg) as (Hsum & Hpos & _).
      rewrite Hl in Hsum. simpl in Hsum.
      destruct (count_arrived_short (workers s) ltac:(lia)) as (i & x & Hi & Hx).
      exists i. split; [rewrite <- Hlen; eapply lookup_lt_Some; eauto |].
      unfold step_worker. rewrite Hi.
      destruct x; try discriminate.
      * destruct (Hun i Hi) as (d & E & _). congruence.
      * destruct (arrive (bar s)). discriminate.
    + right. left. unfold step_launcher. rewrite Hl.
      destruct (Nat.eqb_spec 0 (m_generation (bar s))); [lia | discriminate].
  - destruct (Nat.ltb_spec d n) as [Hd|Hd].
    + assert (Hg : m_generation (bar s) <> 0).
      { intros Hg. destruct (inv_closed n ec s HI Hg) as (_ & _ & _ & Hnc & _).
        now apply (Hnc d f). }
      destruct (inv_open n ec s HI Hg) as (_ & Hall & _).
      destruct (workers s !! d) as [x|] eqn:Hx.
      2:{ apply lookup_ge_None in Hx. lia. }
      pose proof (Hall d x Hx) as Ha.
      destruct x as [| |g| | |r]; try discriminate.
      * right. right. exists d. split; [assumption |].
        unfold step_worker. rewrite Hx.
        pose proof (inv_wgen n ec s HI d g Hx) as ->.
        destruct (Nat.eqb_spec 0 (m_generation (bar s))); [lia | discriminate].
      * right. right. exists d. split; [assumption |].
        unfold step_worker. rewrite Hx. discriminate.
      * right. right. exists d. split; [assumption |].
        unfold step_worker. rewrite Hx, (mounts_return d Hd). discriminate.
      * right. left. unfold step_launcher. rewrite Hl, Hx.
        destruct (Nat.ltb_spec d n); [discriminate | lia].
    + right. left. unfold step_launcher. rewrite Hl.
      destruct (Nat.ltb_spec d n); [lia | discriminate].
  - left. now exists f.
  - now destruct (Hna d).
Qed.

(** With every thread started, the launching thread never gets into the
    unwinding. *)
Lemma never_async_failed (schedule : list thread) :
  forall s,
    (forall d, launcher s <> AsyncFailed d) ->
    forall d, launcher (run n ec af rt schedule s) <> AsyncFailed d.
Proof.
  induction schedule as [|t rest IH]; intros s H; simpl; [assumption |].
  apply IH. unfold step. destruct t as [|j].
  - unfold step_launcher. destruct (launcher s) as [d|g|d f|f|d] eqn:Hl.
    + destruct (Nat.ltb_spec d n) as [Hd|Hd].
      * rewrite (async_works d Hd). simpl. discriminate.
      * destruct (arrive (bar s)) as [b [g|]]; simpl; discriminate.
    + destruct (g =? m_generation (bar s)); simpl; [now rewrite Hl | discriminate].
    + destruct (d <? n); [destruct (workers s !! d) as [[]|] |]; simpl;
        rewrite ?Hl; discriminate.
    + simpl. rewrite Hl. discriminate.
    + now destruct (H d).
  - unfold step_worker.
    destruct (workers s !! j) as [[| |g| | |r]|]; try assumption.
    + destruct (arrive (bar s)). assumption.
    + destruct (g =? m_generation (bar s)); assumption.
    + destruct (rt j); assumption.
Qed.

End LauncherProgress.

(** X20.  When every thread can be started and every [mount] command
    returns, the protocol cannot get stuck: after any schedule, either
    the launching thread is past the loop over the futures, or one of
    the threads can take its next step: no mounter sleeps in [wait()]
    for ever and no [get()] waits for a future that never becomes
    ready. *)
Theorem launcher_protocol_never_blocks (n : nat) (ec : Z -> Z)
    (af rt : nat -> bool) (schedule : list thread) :
  (forall d, d < n -> af d = false) ->
  (forall i, i < n -> rt i = true) ->
  (exists f, launcher (run n ec af rt schedule (init n)) = Returned f)
  \/ step_launcher n af (run n ec af rt schedule (init n)) <> None
  \/ exists i, i < n
               /\ step_worker ec rt i (run n ec af rt schedule (init n)) <> None.
Proof.
  intros Hasync Hret. apply (progress_of n ec af rt Hret).
  - apply Inv_run, Inv_init.
  - apply (unstarted_run n ec af rt Hasync); [apply Inv_init |].
    intros i Hi. exists 0. split; [reflexivity | lia].
  - apply (never_async_failed n ec af rt Hasync). discriminate.
Qed.

Lemma launcher_protocol_never_blocks_witness :
  (exists f, launcher (run 2 Scenario.codes Scenario.async_never_fails
                         Scenario.mounts_all_return (firstn 6 Scenario.schedule)
                         (init 2)) = Returned f)
  \/ step_launcher 2 Scenario.async_never_fails
       (run 2 Scenario.codes Scenario.async_never_fails
          Scenario.mounts_all_return (firstn 6 Scenario.schedule) (init 2)) <> None
  \/ exists i, i < 2
               /\ step_worker Scenario.codes Scenario.mounts_all_return i
                    (run 2 Scenario.codes Scenario.async_never_fails
                       Scenario.mounts_all_return (firstn 6 Scenario.schedule)
                       (init 2)) <> None.
Proof.
  apply (launcher_protocol_never_blocks 2 Scenario.codes Scenario.async_never_fails
           Scenario.mounts_all_return (firstn 6 Scenario.schedule));
    reflexivity.
Defined.

Lemma count_failures_snoc (rs : list Z) (r : Z) :
  (count_failures (rs ++ [r])
   = count_failures rs + (if negb (r =? 0) then 1 else 0))%Z.
Proof.
  induction rs as [|x rs IH]; simpl; [lia |]. rewrite IH. lia.
Qed.

Lemma failures_upto_sequential (w : World) (k : nat) :
  failures_upto (mount_ec w) k
  = count_failures (mount_result w <$> seqZ 0 (Z.of_nat k)).
Proof.
  induction k as [|k IH]; [reflexivity |].
  rewrite seqZ_S, fmap_app.
  change (mount_result w <$> [(0 + Z.of_nat k)%Z])
    with [mount_result w (0 + Z.of_nat k)%Z].
  rewrite count_failures_snoc, Z.add_0_l.
  cbn [failures_upto]. rewrite IH.
  change (outcome (mount_ec w) k) with (mount_result w (Z.of_nat k)).
  destruct (negb (mount_result w (Z.of_nat k) =? 0)%Z); lia.
Qed.

(** X21.  The number of failures the launching thread ends with does not
    depend on how the threads were scheduled, nor on which thread
    creations or [mount] commands the run was given to fail or wait on:
    it is the number the sequential reading of the loop gives, the one
    that is printed. *)
Theorem failure_count_is_schedule_independent
    (w : World) (ctx : Context) (af rt : nat -> bool)
    (schedule : list thread) (f : Z) :
  (0 <= threads ctx)%Z ->
  launcher (run (rounds ctx) (mount_ec w) af rt schedule (init (rounds ctx)))
  = Returned f ->
  f = expected_failures w ctx.
Proof.
  intros Hn Hf.
  pose proof (Inv_run (rounds ctx) (mount_ec w) af rt schedule (init (rounds ctx))
                (Inv_init (rounds ctx) (mount_ec w))) as HI.
  destruct (inv_returned _ _ _ HI f Hf) as (-> & _).
  rewrite failures_upto_sequential. unfold expected_failures, rounds.
  now rewrite Z2Nat.id.
Qed.

Lemma failure_count_is_schedule_independent_witness :
  (0 <= threads (Scenario.ctx 2 false))%Z
  /\ launcher (run (rounds (Scenario.ctx 2 false)) (mount_ec Scenario.one_mount_fails)
                 Scenario.async_never_fails Scenario.mounts_all_return
                 Scenario.schedule (init (rounds (Scenario.ctx 2 false))))
     = Returned 1
  /\ 1%Z = expected_failures Scenario.one_mount_fails (Scenario.ctx 2 false).
Proof.
  split; [vm_compute; discriminate |]. split; [reflexivity |].
  apply (failure_count_is_schedule_independent Scenario.one_mount_fails
           (Scenario.ctx 2 false) Scenario.async_never_fails
           Scenario.mounts_all_return Scenario.schedule 1);
    [vm_compute; discriminate | reflexivity].
Defined.
